(* ===== verification/_CoqProject ===== *)
-Q . S2P
Prelude.v
Memory.v
Layout.v
Roots.v
MajorAlloc.v
Arena.v
Major.v
Minor.v
MinorReach.v
MinorCopy.v
Frame.v
Traversal.v
Promotion.v
Debug.v
Scenarios.v
