(* ===== verification/Prelude.v ===== *)
(** * A verification development of the Trident collector (src/gc.h, src/gc.c)

    ** The program

    Trident is a two-generation garbage collector in C.  A [collector]
    (gc.h lines 33-40) holds a nursery of [GC_MINCHUNKS] = 256 slots of
    256 bytes, a major arena of 32 MB carved into chunks with a 4-byte
    header (size in the upper bits, a [gc_color] in the low two bits), a
    table of root ranges [gc_refs] with its counter, and a [gc_backpatch]
    table from nursery slots to their promoted copies.  The client
    registers root ranges ([gc_add_ref], [gc_remove_ref] and the inline
    single-word versions), allocates with [gc_alloc] (nursery first via
    [gc_minor_alloc], major arena via [gc_major_alloc]), and collects
    with [gc_minor] (mark the nursery from the roots, promote slots to
    the major arena, redirect roots and fields, copy) and [gc_major]
    (darken what the roots point to, mark from gray chunks, sweep white
    chunks).

    ** The files

    - [Prelude] (this file): the fault type, the state-and-error monad
      [stm] with its notation ([gc_monad_scope]), 32-bit integer casts
      ([wrap32], [to_int32]), the hint databases [gcdb] and [gcrw], the
      tactics, and the bit lemmas behind the header masks.
    - [Memory]: the address space as a map from addresses to bytes, with
      little-endian [load_le]/[store_le] and [memcpy_le].
    - [Layout]: the [collector] record, every constant and macro of gc.h
      (lines 17-80) as a definition on [Z], [gc_new], and the primitive
      accesses: [load]/[store] fault with [SegFault] outside the mappable
      range, the array accessors fault with [OutOfBounds] outside the
      arrays.
    - [Roots]: [gc_add_ref], [gc_remove_ref], [set_ref_block], the inline
      wrappers, and [for_root_slots], the traversal of every root slot
      that [darken_roots], [mark_minor] and [backpatch_refs] share.
    - [MajorAlloc]: [find_major_chunk] and [gc_major_alloc], and the
      abstract view of the arena: [heap_repr m lo hi l] says the list [l]
      of (size, color) chunks tiles the arena; [alloc_stop] and
      [chunk_containing] are the abstract walks the two routines refine.
    - [Arena]: the chunk walk [for_chunks] and the field walk
      [for_fields] of the C loops, and the frame [headers_only]: a
      collection rewrites nothing but chunk headers.
    - [Major]: [mark_major_chunk], [darken_chunk], [darken_roots],
      [darken_major] and [gc_major].
    - [Minor]: [gc_mark_chunk], [mark_minor], [backpatch_chunk],
      [backpatch_refs], [copy_minor_heap], [gc_minor], [gc_minor_alloc]
      and [gc_alloc]; the nursery view ([slot_hdr], [unmarked],
      [marks_only]).
    - [MinorReach]: the nursery as a graph ([minor_edge]: a scanned
      payload word of a slot that is a tagged nursery pointer;
      [root_target], [minor_reachable] with [clos_refl_trans]) and the
      closure of the marks ([mark_closed], [marks_closed]).
    - [MinorCopy]: the copy phase of [gc_minor] on a nursery whose
      marks survive from an earlier collection: [backpatch_refs] with an
      empty [gc_backpatch] changes nothing and [backpatch_loop] writes
      payload words only ([hdrs_kept]).
    - [Frame]: the class [KeepsRegistry] of computations that leave
      [gc_ref_count], [gc_refs] and [gc_base] as they are, with an
      instance for every primitive access, combinator, loop and routine
      of the collections and allocators; [Traversal] uses it to flatten
      the root loops.  It holds of the model, whose registry is not in
      the flat memory (see below).
    - [Traversal]: the root loops as a walk over [root_slots], the
      list of the words of every counted range in order, and what
      [backpatch_refs] writes into each ([backpatch_target], [patched]).
    - [Promotion]: the three loops of [copy_minor_heap] followed one
      after the other: [promote_loop] when every allocation answers the
      same pointer ([promote_loop_fill]), on a fresh arena
      ([fresh_arena]) and on an arena whose first chunk is not free;
      [backpatch_refs] and [backpatch_loop] keeping the slot headers;
      [copy_loop] and the bytes it may write ([copied_region]).
    - [Debug]: [gc_print_minor] and [gc_print_refs] (compiled under
      [GC_DEBUG]) as read-only routines returning the list of lines they
      print ([dbg_line]), and the listings [minor_report] and
      [refs_report] they compute.
    - [Scenarios]: the round-trip and cycle scenarios of the
      specification's section 8, run on the model from collectors built
      by the modelled operations.

    Every C routine is a definition of the same name in the monad [M]
    (a state [collector] and a result or a [fault]); a [for] loop is a
    [Fixpoint] on fuel with the C condition re-evaluated at every test;
    each statement that writes memory is a [store] of its width.

    ** What the theorems show

    - Root registry: [gc_add_ref] registers a range and is idempotent;
      it has no capacity check (it writes [gc_refs[GC_MAX_REFS]]);
      [gc_remove_ref] only zeroes the begin address, so a range removed
      and added again stays unregistered, and a double remove drives the
      count to -1; [gc_remove_single_ref] adds instead of removing.
    - Old-generation allocator: [gc_major_alloc] refines [alloc_stop]: the
      loop stops at the first chunk that is not free or too small and
      takes it, keeping its old size; a fully free arena yields null for
      every request; two allocations of one size return the same
      address.  [find_major_chunk] finds the chunk containing an address
      on a tiled arena, and never returns on a size-0 header, which is
      what [gc_new] leaves.
    - Major collection: on a tiled arena whose white and gray chunks hold
      no major pointer and have a size of 4 modulo 8 ([collectable]; for
      a size of 0 modulo 8, [+ GC_BLACK] grows the chunk by 4 and the
      arena no longer tiles, see [MARK_CHUNK_gray_plus_black]),
      [gc_major] terminates and leaves every non-black
      chunk free, whatever the roots: [CHUNK_FLAGS + GC_BLACK] turns a
      gray chunk white, which the sweep frees, so a chunk a root points
      to is freed while the root still points to it.  Two white or gray
      chunks pointing into each other (or one chunk pointing into
      itself) make [mark_major_chunk] recurse forever; an emptied registry
      entry makes [gc_major] read address 8; a fresh collector makes it
      loop forever.
    - Nursery and minor collection: [gc_minor_alloc] hands out slot
      [gc_free_chunk] with the aligned size, accepts negative sizes
      (with headers above 2^31), and [gc_alloc] sends large requests to
      the major arena.  [gc_mark_chunk] and [mark_minor] terminate on a
      well-formed nursery (measure: the number of unmarked slots).
    - Promotion and copy: on an arena whose first chunk is not free,
      [promote_loop] gives every allocated slot the same promoted
      address, the start of the arena; on a fresh arena every
      [gc_backpatch] entry is [WITHOUT_HEADER(NULL)] = -4, and
      [gc_minor] faults at address -4 whenever slot 0 is reachable from
      a root.  [copy_loop] copies the marked slots below [gc_ref_count]
      and writes nothing else: a marked slot above is never copied.
    - Reachability: [gc_mark_chunk] leaves every slot it newly marks
      with its successors marked, so [mark_minor] marks every slot
      reachable from the roots when the marks it starts from are closed
      (no slot marked, say), the headers fit their slots (at most 252
      bytes: a 256-byte slot makes the field loop read the next
      header) and the root slots lie outside the slot headers.
    - Repeated minor collections: [gc_minor] resets [gc_free_chunk]
      but never clears the marks, so on a collector whose slot 0 keeps
      the mark of an earlier collection ([stale_nursery]) the next
      [gc_minor] faults at address 0.
    - Traversal: for a body that keeps the registry, [for_root_slots]
      is the body run on [root_slots]; on disjoint root words outside
      the slot headers, [backpatch_refs] rewrites each word once to
      [patched] and nothing else (overlapping ranges, which [gc_add_ref]
      accepts, get a word rewritten twice).
    - Debug printers: they change nothing and print [minor_report] and
      [refs_report], which, as the code does, reports the first word
      of a range for each of its slots.
    - Scenarios: after the round trip's minor collection and the
      removal of its root range, [gc_major] never returns, because
      promotion reserves 28 bytes for a 20-byte chunk; [gc_major] on the
      cycle scenario never returns either.
    - Header macros: [MARK_CHUNK] round trip, the value 5 written by
      [mark_major_chunk], [MINOR_CHUNK] and [ALIGN] bounds.

    ** Fuel

    One [fuel] argument bounds the number of condition tests of every
    loop of a routine and the depth of its recursion.  Theorems that
    conclude a result state the fuel that suffices: more than the
    number of chunks for arena walks ([length l < fuel]), more than the
    count and the slots of every range for the root traversal
    ([roots_fuel]), [GC_MINCHUNKS + 34] for the minor marking (each
    recursive call marks a new slot, and a field loop has at most 32
    words).  Theorems of divergence hold for every fuel.

    ** Not modelled

    The collector struct's scalar fields and arrays are record fields,
    not bytes of the flat memory: a client pointer into them is not
    modelled, and neither is a write that runs past the end of
    [gc_major_heap], which in C lands on [gc_free_chunk] and
    [gc_ref_count].  [gc_major_alloc] makes such a write when the chunk
    where its walk stops is smaller than the request (the header store
    at [curr + size], gc.c line 156): [gc_major_alloc_refines] states
    its address, but the model does not show the overwrite, so the
    [KeepsRegistry] instances hold of the model only.  [gc_memcpy]
    faults when a range lies outside the mappable addresses even for 0
    bytes, where C's [memcpy] makes no access (undefined behaviour
    only); [gc_minor_fresh_arena_segfaults] assumes a copy of positive
    size for that reason.  The debug printers' [%.3d] prints an
    unsigned size above 2^31 as a negative [int]; [dbg_line] keeps the
    unsigned value.  A failed [malloc] in [gc_new], 64-bit pointer overflow,
    the text layout of the debug printers' [printf] formats (their
    values are modelled, not the characters), the unused [gc_obj] type and [T*] tags of gc.h, and the demo
    program src/main.c are not modelled.  Addresses below [NULL_PAGE]
    or above [USER_TOP] fault; every other address is mapped. *)

From stdpp Require Import base decidable numbers.
From Stdlib Require Import ZArith Lia Bool.

Open Scope Z_scope.

(** ** Faults: the ways a C routine of the collector can go wrong.

    [SegFault a] is a load or store at an address that no process can
    map (the null page, or an address above the user half of a 64-bit
    address space); [OutOfBounds i] is an index outside a fixed-size
    array of the collector struct (undefined behaviour in C);
    [OutOfFuel] means the fuel given to a loop or a recursion ran out,
    which stands for a loop or recursion that does not terminate. *)
Inductive fault : Type :=
| SegFault (addr : Z)
| OutOfBounds (index : Z)
| OutOfFuel.

#[export] Instance fault_eq_dec : EqDecision fault.
Proof. solve_decision. Defined.

Inductive res (A : Type) : Type :=
| Ok (a : A)
| Fail (f : fault).
Arguments Ok {A} a.
Arguments Fail {A} f.

(** The state-and-error monad threading the collector through the code. *)
Definition stm (S A : Type) : Type := S -> res (A * S).

Definition ret {S A} (a : A) : stm S A := fun s => Ok (a, s).
Definition bind {S A B} (c : stm S A) (k : A -> stm S B) : stm S B :=
  fun s => match c s with Ok (a, s') => k a s' | Fail f => Fail f end.
Definition fail {S A} (f : fault) : stm S A := fun _ => Fail f.
Definition get {S} : stm S S := fun s => Ok (s, s).
Definition put {S} (s : S) : stm S unit := fun _ => Ok (tt, s).
Definition modify {S} (f : S -> S) : stm S unit := fun s => Ok (tt, f s).

Declare Scope gc_monad_scope.
Delimit Scope gc_monad_scope with gcm.
Notation "x <- c ;; k" := (bind c (fun x => k))
  (at level 100, c at next level, right associativity) : gc_monad_scope.
Notation "c ;; k" := (bind c (fun _ : unit => k))
  (at level 100, right associativity) : gc_monad_scope.
Open Scope gc_monad_scope.

(** Running a computation and keeping only the final state or value. *)
Definition run_state {S A} (c : stm S A) (s : S) : option S :=
  match c s with Ok (_, s') => Some s' | Fail _ => None end.

(** ** Machine integers.

    [wrap32] is the value an [unsigned int] holds; [to_int32] is the
    value of a cast to a 32-bit [int] (two's complement wrap). *)
Definition wrap32 (z : Z) : Z := z mod 2 ^ 32.
Definition to_int32 (z : Z) : Z := (z + 2 ^ 31) mod 2 ^ 32 - 2 ^ 31.
Definition int32_range (z : Z) : Prop := - 2 ^ 31 <= z < 2 ^ 31.

(** ** Hint databases and tactics of the development. *)
Create HintDb gcdb discriminated.
Create Rewrite HintDb gcrw.

(** Unfold the monad combinators applied to a state. *)
Ltac monad_simpl :=
  cbv beta iota delta [bind ret fail get put modify] in *.

(** Case on every [Z] comparison of the goal, then close by [lia]. *)
Ltac zcase :=
  repeat match goal with
  | |- context [Z.eqb ?a ?b] => destruct (Z.eqb_spec a b)
  | |- context [Z.ltb ?a ?b] => destruct (Z.ltb_spec a b)
  | |- context [Z.leb ?a ?b] => destruct (Z.leb_spec a b)
  end.

Section MonadLaws.
Context {S A B : Type}.

Lemma bind_Ok (c : stm S A) (k : A -> stm S B) s a s' :
    c s = Ok (a, s') -> bind c k s = k a s'.
  Proof. intros H. unfold bind. now rewrite H. Qed.

Lemma bind_Fail (c : stm S A) (k : A -> stm S B) s f :
    c s = Fail f -> bind c k s = Fail f.
  Proof. intros H. unfold bind. now rewrite H. Qed.

Lemma bind_ret_l (a : A) (k : A -> stm S B) s : bind (ret a) k s = k a s.
  Proof. reflexivity. Qed.

Lemma bind_assoc {C} (c : stm S A) (f : A -> stm S B) (g : B -> stm S C) s :
    bind (bind c f) g s = bind c (fun x => bind (f x) g) s.
  Proof. unfold bind. destruct (c s) as [[a s']|]; reflexivity. Qed.

  (** Inversion of a successful bind. *)
Lemma bind_Ok_inv (c : stm S A) (k : A -> stm S B) s b s'' :
    bind c k s = Ok (b, s'') -> exists a s', c s = Ok (a, s') /\ k a s' = Ok (b, s'').
  Proof.
    unfold bind. destruct (c s) as [[a s']|f]; [|discriminate]. eauto.
  Qed.
End MonadLaws.

#[export] Hint Rewrite @bind_ret_l : gcrw.

(** ** Bit-level facts about the masks of the header macros. *)
Section Bits.

Lemma land_lnot3 (x : Z) : Z.land x (Z.lnot 3) = x - x mod 4.
  Proof.
    replace (x - x mod 4) with (Z.shiftl (Z.shiftr x 2) 2).
    2:{ rewrite Z.shiftl_mul_pow2, Z.shiftr_div_pow2 by lia.
        pose proof (Z.div_mod x 4). change (2 ^ 2) with 4. lia. }
    apply Z.bits_inj'. intros n Hn.
    rewrite Z.land_spec, Z.lnot_spec by lia.
    change 3 with (Z.ones 2). rewrite Z.testbit_ones by lia.
    rewrite Z.shiftl_spec by lia.
    destruct (Z.ltb_spec n 2).
    - rewrite (Z.testbit_neg_r _ (n - 2)) by lia.
      rewrite (proj2 (Z.leb_le 0 n)) by lia. simpl. now rewrite andb_false_r.
    - rewrite Z.shiftr_spec by lia. rewrite (proj2 (Z.leb_le 0 n)) by lia. simpl.
      rewrite andb_true_r. replace (n - 2 + 2) with n by lia. reflexivity.
  Qed.

Lemma land3 (x : Z) : Z.land x 3 = x mod 4.
  Proof. change 3 with (Z.ones 2). now rewrite Z.land_ones by lia. Qed.

Lemma land1 (x : Z) : Z.land x 1 = x mod 2.
  Proof. change 1 with (Z.ones 1). now rewrite Z.land_ones by lia. Qed.

  (** A flag below four shares no bit with a multiple of four. *)
Lemma land_mul4_small (q c : Z) : 0 <= c < 4 -> Z.land (4 * q) c = 0.
  Proof.
    intros Hc. apply Z.bits_inj'. intros n Hn. rewrite Z.land_spec, Z.bits_0.
    change 4 with (2 ^ 2). rewrite Z.mul_comm, Z.mul_pow2_bits by lia.
    destruct (Z.ltb_spec n 2).
    - now rewrite (Z.testbit_neg_r q) by lia.
    - assert (Z.testbit c n = false) as ->; [|apply andb_false_r].
      apply Z.bits_above_log2; [lia|].
      assert (c = 0 \/ c = 1 \/ c = 2 \/ c = 3) as [-> | [-> | [-> | ->] ] ] by lia;
        simpl; lia.
  Qed.

  (** Or-ing small flags into a multiple of four is an addition. *)
Lemma lor_mul4_small (q c : Z) : 0 <= c < 4 -> Z.lor (4 * q) c = 4 * q + c.
  Proof.
    intros Hc. pose proof (land_mul4_small q c Hc) as H0.
    rewrite <- Z.lxor_lor by exact H0. symmetry. now apply Z.add_nocarry_lxor.
  Qed.

Lemma mod4_mul4 (q c : Z) : 0 <= c < 4 -> (4 * q + c) mod 4 = c.
  Proof. intros. rewrite Z.mul_comm, Z.add_comm, Z.mod_add by lia. now apply Z.mod_small. Qed.

Lemma wrap32_small (z : Z) : 0 <= z < 2 ^ 32 -> wrap32 z = z.
  Proof. intros. unfold wrap32. now apply Z.mod_small. Qed.

Lemma to_int32_small (z : Z) : int32_range z -> to_int32 z = z.
  Proof.
    unfold int32_range, to_int32. intros H.
    rewrite Z.mod_small by lia. lia.
  Qed.

End Bits.

#[export] Hint Resolve wrap32_small to_int32_small : gcdb.
