(* ===== verification/Memory.v ===== *)
(** * Flat byte memory

    The address space of the process as a total map from addresses to
    bytes, with the little-endian multi-byte loads and stores through
    which the C code reads and writes [unsigned int] headers and [void*]
    words, and [memcpy].  The lemmas here are the only facts about bytes
    the rest of the development uses: a load after a store at the same
    address, a load after a store elsewhere, a load after a copy. *)

From Stdlib Require Import ZArith Lia.
From S2P Require Import Prelude.

Open Scope Z_scope.

Definition mem : Type := Z -> Z.

Definition upd (m : mem) (a v : Z) : mem :=
  fun x => if Z.eqb x a then v else m x.

(** [n]-byte little-endian load and store. *)
Fixpoint load_le (n : nat) (m : mem) (a : Z) : Z :=
  match n with
  | O => 0
  | S n' => m a mod 256 + 256 * load_le n' m (a + 1)
  end.

Fixpoint store_le (n : nat) (m : mem) (a v : Z) : mem :=
  match n with
  | O => m
  | S n' => store_le n' (upd m a (v mod 256)) (a + 1) (v / 256)
  end.

(** [memcpy(dst, src, n)] for non-overlapping ranges, byte by byte. *)
Fixpoint memcpy_le (n : nat) (m : mem) (dst src : Z) : mem :=
  match n with
  | O => m
  | S n' => memcpy_le n' (upd m dst (m src mod 256)) (dst + 1) (src + 1)
  end.

Section MemoryLemmas.

Lemma pow_succ8 n : 2 ^ (8 * Z.of_nat (S n)) = 256 * 2 ^ (8 * Z.of_nat n).
  Proof.
    rewrite Nat2Z.inj_succ, Z.mul_succ_r, Z.pow_add_r by lia. lia.
  Qed.

Lemma upd_other m a v x : x <> a -> upd m a v x = m x.
  Proof. intros H. unfold upd. destruct (Z.eqb_spec x a); congruence. Qed.

Lemma upd_same m a v : upd m a v a = v.
  Proof. unfold upd. now rewrite Z.eqb_refl. Qed.

Lemma store_le_outside n : forall m a v x,
    x < a \/ a + Z.of_nat n <= x -> store_le n m a v x = m x.
  Proof.
    induction n as [|n IH]; intros m a v x Hx; simpl; [reflexivity|].
    rewrite IH by lia. apply upd_other. lia.
  Qed.

Lemma memcpy_le_outside n : forall m dst src x,
    x < dst \/ dst + Z.of_nat n <= x -> memcpy_le n m dst src x = m x.
  Proof.
    induction n as [|n IH]; intros m dst src x Hx; simpl; [reflexivity|].
    rewrite IH by lia. apply upd_other. lia.
  Qed.

  (** A load only reads the bytes of its range. *)
Lemma load_le_ext n : forall m1 m2 a,
    (forall x, a <= x < a + Z.of_nat n -> m1 x = m2 x) ->
    load_le n m1 a = load_le n m2 a.
  Proof.
    induction n as [|n IH]; intros m1 m2 a H; simpl; [reflexivity|].
    rewrite H by lia. rewrite (IH m1 m2) by (intros; apply H; lia). reflexivity.
  Qed.

Lemma load_le_bound n : forall m a, 0 <= load_le n m a < 2 ^ (8 * Z.of_nat n).
  Proof.
    induction n as [|n IH]; intros m a; [simpl; lia|].
    cbn [load_le]. rewrite pow_succ8. specialize (IH m (a + 1)).
    pose proof (Z.mod_pos_bound (m a) 256 ltac:(lia)). nia.
  Qed.

  (** Round trip: loading what was stored gives it back, modulo the width. *)
Lemma load_store_le_same n : forall m a v,
    load_le n (store_le n m a v) a = v mod 2 ^ (8 * Z.of_nat n).
  Proof.
    induction n as [|n IH]; intros m a v.
    - simpl. now rewrite Z.mod_1_r.
    - cbn [load_le store_le]. rewrite IH, store_le_outside, upd_same by lia.
      rewrite Z.mod_mod, pow_succ8 by lia.
      rewrite Z.rem_mul_r by (try apply Z.pow_pos_nonneg; lia). reflexivity.
  Qed.

Lemma load_store_le_disjoint n k m a v b :
    a + Z.of_nat n <= b \/ b + Z.of_nat k <= a ->
    load_le k (store_le n m a v) b = load_le k m b.
  Proof.
    intros H. apply load_le_ext. intros x Hx. apply store_le_outside. lia.
  Qed.

  (** A load of the copied range reads the source. *)
Lemma load_memcpy_le n : forall m dst src,
    src + Z.of_nat n <= dst \/ dst + Z.of_nat n <= src ->
    load_le n (memcpy_le n m dst src) dst = load_le n m src.
  Proof.
    induction n as [|n IH]; intros m dst src H; simpl; [reflexivity|].
    rewrite IH by lia. rewrite memcpy_le_outside by lia. rewrite upd_same.
    rewrite Z.mod_mod by lia. f_equal. f_equal.
    apply load_le_ext. intros x Hx. apply upd_other. lia.
  Qed.

Lemma load_memcpy_le_disjoint n k m dst src b :
    dst + Z.of_nat n <= b \/ b + Z.of_nat k <= dst ->
    load_le k (memcpy_le n m dst src) b = load_le k m b.
  Proof.
    intros H. apply load_le_ext. intros x Hx. apply memcpy_le_outside. lia.
  Qed.

End MemoryLemmas.

#[export] Hint Rewrite load_store_le_same : gcrw.
#[export] Hint Resolve load_le_bound : gcdb.
