(* ===== verification/Layout.v ===== *)
(** * Tag and header convention (src/gc.h)

    The constants and macros of [gc.h], the [collector] struct, and the
    primitive accesses every routine of [gc.c] is written with: loads
    and stores of 4-byte headers and 8-byte words in the flat memory,
    reads and writes of the [gc_backpatch] and [gc_refs] arrays.  A
    header macro that reads memory ([FLAGS], [CHUNK_SIZE], [MARKED],
    [CHUNK_FLAGS]) is split into the load and a pure function on the
    loaded word, so that theorems can speak of either. *)

From stdpp Require Import base decidable numbers.
From Stdlib Require Import ZArith Lia Bool.
From S2P Require Import Prelude Memory.

Open Scope Z_scope.
Open Scope gc_monad_scope.

(** ** Constants (gc.h lines 17-22). *)
Definition GC_MAX_REFS : Z := 65536.
Definition GC_MINCHUNK_SIZE : Z := 256.
Definition GC_MINHEAP_SIZE : Z := 1024 * 64.
Definition GC_MAJHEAP_SIZE : Z := 1024 * 1024 * 32.
Definition GC_MINCHUNKS : Z := GC_MINHEAP_SIZE / GC_MINCHUNK_SIZE.

(** [sizeof(int)] and [sizeof(void* )] on the LP64 targets the code is
    written for. *)
Definition INT_SIZE : Z := 4.
Definition PTR_SIZE : Z := 8.

(** Addresses below [NULL_PAGE] (the null page) and from [USER_TOP] on
    (the kernel half of a 64-bit address space) are never mapped: a
    load or store there is a [SegFault]. *)
Definition NULL_PAGE : Z := 4096.
Definition USER_TOP : Z := 2 ^ 47.

(** ** Colors of old-generation chunks (gc.h lines 26-31). *)
Inductive gc_color : Type := GC_FREE | GC_WHITE | GC_BLACK | GC_GRAY.

#[export] Instance gc_color_eq_dec : EqDecision gc_color.
Proof. solve_decision. Defined.

Definition color_val (c : gc_color) : Z :=
  match c with GC_FREE => 0 | GC_WHITE => 1 | GC_BLACK => 2 | GC_GRAY => 3 end.

(** The color a two-bit flag field denotes. *)
Definition color_of (f : Z) : gc_color :=
  match f mod 4 with 0 => GC_FREE | 1 => GC_WHITE | 2 => GC_BLACK | _ => GC_GRAY end.

(** ** The collector struct (gc.h lines 33-40).

    [gc_mem] is the whole address space: both arenas live in it, at
    [gc_base] ([&gc->gc_minor_heap[0]]) and right after it
    ([&gc->gc_major_heap[0]]), and so do the client's stack slots the
    root ranges point at.  The scalar fields and the two arrays are
    fields of the record; [gc_backpatch] and [gc_refs] are total
    functions because [gc_new] leaves them uninitialised: their
    contents before the first write are whatever [malloc] returned. *)
Record collector : Type := mk_collector {
  gc_mem : mem;
  gc_base : Z;
  gc_free_chunk : Z;
  gc_ref_count : Z;
  gc_backpatch : Z -> Z;
  gc_refs : Z -> Z * Z;
}.

Definition M (A : Type) : Type := stm collector A.

Definition minor_lo (st : collector) : Z := gc_base st.
Definition minor_hi (st : collector) : Z := gc_base st + GC_MINHEAP_SIZE.
Definition major_lo (st : collector) : Z := gc_base st + GC_MINHEAP_SIZE.
Definition major_hi (st : collector) : Z := gc_base st + GC_MINHEAP_SIZE + GC_MAJHEAP_SIZE.

(** ** Pure parts of the macros (gc.h lines 62-80). *)
Definition WITH_HEADER (size : Z) : Z := size + INT_SIZE.
Definition WITHOUT_HEADER (size : Z) : Z := size - INT_SIZE.
(** [CHUNK_SIZE], [CHUNK_FLAGS] and [MARKED] of a loaded header word. *)
Definition size_bits (h : Z) : Z := Z.land h (Z.lnot 3).
Definition flag_bits (h : Z) : Z := Z.land h 3.
Definition mark_bit (h : Z) : Z := Z.land h 1.
Definition PTR_INDEX (ofs : Z) : Z := ofs / PTR_SIZE.
Definition BITS (chunk : Z) : Z := WITH_HEADER chunk.
Definition BITS_AT (chunk i : Z) : Z := BITS chunk + i * PTR_SIZE.
(** [MEM_TAG]: the low bit of the word (the cast to [unsigned int] keeps it). *)
Definition MEM_TAG (p : Z) : bool := Z.eqb (Z.land p 1) 0.
Definition POINTS_MINOR (st : collector) (p : Z) : bool :=
  (minor_lo st <=? p) && (p <? minor_hi st).
Definition POINTS_MAJOR (st : collector) (p : Z) : bool :=
  (major_lo st <=? p) && (p <? major_hi st).
Definition REF_PTR_MIN (st : collector) (p : Z) : bool := MEM_TAG p && POINTS_MINOR st p.
Definition REF_PTR_MAJ (st : collector) (p : Z) : bool := MEM_TAG p && POINTS_MAJOR st p.
(** Pointer difference divided by an [int]: C division truncates. *)
Definition MINOR_CHUNK (st : collector) (p : Z) : Z :=
  Z.quot (p - gc_base st) GC_MINCHUNK_SIZE * GC_MINCHUNK_SIZE + gc_base st.
(** [ALIGN] on an [int] operand: the addition wraps at 32 bits. *)
Definition ALIGN (x : Z) : Z := Z.land (to_int32 (x + 3)) (Z.lnot 3).
Definition CHUNK_AT (st : collector) (i : Z) : Z := gc_base st + i * GC_MINCHUNK_SIZE.
Definition CHUNK_OFFSET (st : collector) (chunk : Z) : Z :=
  Z.quot (chunk - gc_base st) GC_MINCHUNK_SIZE.

(** ** Primitive accesses. *)
Definition mapped (a n : Z) : bool := (NULL_PAGE <=? a) && (a + n <=? USER_TOP).

Definition load (n : nat) (a : Z) : M Z :=
  fun st => if mapped a (Z.of_nat n) then Ok (load_le n (gc_mem st) a, st)
            else Fail (SegFault a).

Definition set_mem (st : collector) (m : mem) : collector :=
  {| gc_mem := m; gc_base := gc_base st; gc_free_chunk := gc_free_chunk st;
     gc_ref_count := gc_ref_count st; gc_backpatch := gc_backpatch st;
     gc_refs := gc_refs st |}.

Definition store (n : nat) (a v : Z) : M unit :=
  fun st => if mapped a (Z.of_nat n) then Ok (tt, set_mem st (store_le n (gc_mem st) a v))
            else Fail (SegFault a).

(** A pointer-sized word: [*ref] and [*ref = v] for a [void ** ref]. *)
Definition load_ptr (a : Z) : M Z := load 8 a.
Definition store_ptr (a v : Z) : M unit := store 8 a v.

(** [FLAGS(chunk)] read, and [FLAGS(chunk) = v] written as an [unsigned int]. *)
Definition FLAGS (chunk : Z) : M Z := load 4 chunk.
Definition set_FLAGS (chunk v : Z) : M unit := store 4 chunk v.

Definition CHUNK_SIZE (chunk : Z) : M Z := h <- FLAGS chunk ;; ret (size_bits h).
Definition CHUNK_FLAGS (chunk : Z) : M Z := h <- FLAGS chunk ;; ret (flag_bits h).
Definition MARKED (chunk : Z) : M bool := h <- FLAGS chunk ;; ret (negb (mark_bit h =? 0)).

(** [MARK_CHUNK(chunk, c)]: [FLAGS(chunk) = CHUNK_SIZE(chunk) | c]. *)
Definition MARK_CHUNK (chunk c : Z) : M unit :=
  s <- CHUNK_SIZE chunk ;; set_FLAGS chunk (Z.lor s c).

(** [memcpy(dst, src, n)]. *)
Definition gc_memcpy (dst src n : Z) : M unit :=
  fun st => if mapped dst n && mapped src n
            then Ok (tt, set_mem st (memcpy_le (Z.to_nat n) (gc_mem st) dst src))
            else Fail (SegFault (if mapped dst n then src else dst)).

(** [gc->gc_backpatch[i]]: an index outside the array is undefined. *)
Definition backpatch_get (i : Z) : M Z :=
  fun st => if (0 <=? i) && (i <? GC_MINCHUNKS) then Ok (gc_backpatch st i, st)
            else Fail (OutOfBounds i).

Definition backpatch_set (i v : Z) : M unit :=
  fun st => if (0 <=? i) && (i <? GC_MINCHUNKS)
            then Ok (tt, {| gc_mem := gc_mem st; gc_base := gc_base st;
                            gc_free_chunk := gc_free_chunk st; gc_ref_count := gc_ref_count st;
                            gc_backpatch := fun j => if j =? i then v else gc_backpatch st j;
                            gc_refs := gc_refs st |})
            else Fail (OutOfBounds i).

(** [gc->gc_refs[i]]. *)
Definition refs_get (i : Z) : M (Z * Z) :=
  fun st => if (0 <=? i) && (i <? GC_MAX_REFS) then Ok (gc_refs st i, st)
            else Fail (OutOfBounds i).

Definition refs_set (i : Z) (r : Z * Z) : M unit :=
  fun st => if (0 <=? i) && (i <? GC_MAX_REFS)
            then Ok (tt, {| gc_mem := gc_mem st; gc_base := gc_base st;
                            gc_free_chunk := gc_free_chunk st; gc_ref_count := gc_ref_count st;
                            gc_backpatch := gc_backpatch st;
                            gc_refs := fun j => if j =? i then r else gc_refs st j |})
            else Fail (OutOfBounds i).

Definition set_ref_count (n : Z) : M unit :=
  modify (fun st => {| gc_mem := gc_mem st; gc_base := gc_base st;
                       gc_free_chunk := gc_free_chunk st; gc_ref_count := n;
                       gc_backpatch := gc_backpatch st; gc_refs := gc_refs st |}).

Definition set_free_chunk (n : Z) : M unit :=
  modify (fun st => {| gc_mem := gc_mem st; gc_base := gc_base st;
                       gc_free_chunk := n; gc_ref_count := gc_ref_count st;
                       gc_backpatch := gc_backpatch st; gc_refs := gc_refs st |}).

Definition gets {A} (f : collector -> A) : M A := fun st => Ok (f st, st).

(** ** [gc_new] (gc.c lines 10-16).

    [malloc] returns a block at [base] whose contents are arbitrary:
    the arenas hold whatever [m] holds, the two arrays whatever [bp]
    and [refs] hold.  Only the two counters are initialised.  A failed
    [malloc] (a null [gc]) is not modelled. *)
Definition gc_new (m : mem) (base : Z) (bp : Z -> Z) (refs : Z -> Z * Z) : collector :=
  {| gc_mem := m; gc_base := base; gc_free_chunk := 0; gc_ref_count := 0;
     gc_backpatch := bp; gc_refs := refs |}.

(** A collector at address 65536 on zeroed memory and arrays, the
    concrete input of the witnesses of this development. *)
Definition sample_gc : collector := gc_new (fun _ => 0) 65536 (fun _ => 0) (fun _ => (0, 0)).

(** The state a computation ends in (its start state when it fails). *)
Definition final_state {A} (c : M A) (st : collector) : collector :=
  match c st with Ok (_, s) => s | Fail _ => st end.

(** ** Lemmas on the primitive accesses. *)
Section Access.
Context (st : collector).

Lemma load_Ok n a : mapped a (Z.of_nat n) = true -> load n a st = Ok (load_le n (gc_mem st) a, st).
  Proof. intros H. unfold load. now rewrite H. Qed.

Lemma store_Ok n a v : mapped a (Z.of_nat n) = true ->
    store n a v st = Ok (tt, set_mem st (store_le n (gc_mem st) a v)).
  Proof. intros H. unfold store. now rewrite H. Qed.

Lemma load_unmapped n a : mapped a (Z.of_nat n) = false -> load n a st = Fail (SegFault a).
  Proof. intros H. unfold load. now rewrite H. Qed.

Lemma store_unmapped n a v : mapped a (Z.of_nat n) = false -> store n a v st = Fail (SegFault a).
  Proof. intros H. unfold store. now rewrite H. Qed.
End Access.

Lemma mapped_true a n : NULL_PAGE <= a -> a + n <= USER_TOP -> mapped a n = true.
Proof. intros. unfold mapped. apply andb_true_iff. split; apply Z.leb_le; lia. Qed.

Lemma mapped_null a n : a < NULL_PAGE -> mapped a n = false.
Proof. intros. unfold mapped. apply andb_false_iff. left. apply Z.leb_gt. lia. Qed.

#[export] Hint Resolve mapped_true mapped_null : gcdb.

(** ** Header arithmetic. *)
Section HeaderBits.

Lemma size_bits_eq h : size_bits h = 4 * (h / 4).
  Proof. unfold size_bits. rewrite land_lnot3. pose proof (Z.div_mod h 4). lia. Qed.

Lemma flag_bits_eq h : flag_bits h = h mod 4.
  Proof. apply land3. Qed.

  (** [lor q 1] sets the lowest bit. *)
Lemma lor_1 q : Z.lor q 1 = 2 * (q / 2) + 1.
  Proof.
    apply Z.bits_inj'. intros n Hn. rewrite Z.lor_spec.
    destruct (Z.eq_dec n 0) as [->|Hn0].
    - now rewrite Z.testbit_odd_0, orb_true_r.
    - rewrite (Z.bits_above_log2 1 n) by (simpl; lia). rewrite orb_false_r.
      replace n with (Z.succ (n - 1)) at 2 by lia.
      rewrite Z.testbit_odd_succ by lia.
      change (q / 2) with (q / 2 ^ 1). rewrite <- Z.shiftr_div_pow2, Z.shiftr_spec by lia.
      f_equal. lia.
  Qed.

  (** Writing back a size with a flag below four keeps the size. *)
Lemma mark_header h c : 0 <= h < 2 ^ 32 -> 0 <= c < 4 ->
    (Z.lor (size_bits h) c) mod 2 ^ 32 = size_bits h + c /\
    size_bits (size_bits h + c) = size_bits h /\ flag_bits (size_bits h + c) = c.
  Proof.
    intros Hh Hc. rewrite size_bits_eq, lor_mul4_small by lia.
    rewrite size_bits_eq, flag_bits_eq, mod4_mul4 by lia.
    split; [apply Z.mod_small; pose proof (Z.div_mod h 4); pose proof (Z.mod_pos_bound h 4); lia|].
    split; [|reflexivity]. f_equal. symmetry. apply Z.div_unique with c; lia.
  Qed.

  (** [GC_GRAY + GC_BLACK] is 5: or-ing it sets bit 2 of the size. *)
Lemma mark_header_5 h : 0 <= h < 2 ^ 32 ->
    (Z.lor (size_bits h) 5) mod 2 ^ 32 = 8 * (h / 8) + 5.
  Proof.
    intros Hh. rewrite size_bits_eq.
    change 5 with (Z.lor 4 1). rewrite Z.lor_assoc.
    replace (Z.lor (4 * (h / 4)) 4) with (4 * Z.lor (h / 4) 1).
    2:{ rewrite !(Z.mul_comm 4). change 4 with (2 ^ 2). rewrite <- !Z.shiftl_mul_pow2 by lia.
        rewrite Z.shiftl_lor. reflexivity. }
    rewrite lor_mul4_small, lor_1 by lia.
    rewrite Z.div_div by lia. change (4 * 2) with 8. change (Z.lor 4 1) with 5.
    rewrite Z.mod_small; [lia|].
    pose proof (Z.div_mod h 8). pose proof (Z.mod_pos_bound h 8). lia.
  Qed.

End HeaderBits.

(** ** Properties of the header convention. *)
Section HeaderProps.

Lemma MINOR_CHUNK_slot st p :
    POINTS_MINOR st p = true ->
    let c := MINOR_CHUNK st p in
    c <= p < c + GC_MINCHUNK_SIZE /\
    0 <= CHUNK_OFFSET st c < GC_MINCHUNKS /\
    CHUNK_AT st (CHUNK_OFFSET st c) = c.
  Proof.
    unfold POINTS_MINOR, MINOR_CHUNK, CHUNK_OFFSET, CHUNK_AT, minor_lo, minor_hi.
    intros H. apply andb_true_iff in H as [H1 H2].
    apply Z.leb_le in H1. apply Z.ltb_lt in H2. cbv zeta.
    unfold GC_MINCHUNKS, GC_MINHEAP_SIZE, GC_MINCHUNK_SIZE in *.
    rewrite Z.quot_div_nonneg by lia.
    replace (p - gc_base st) with (p - gc_base st) by reflexivity.
    replace ((p - gc_base st) / 256 * 256 + gc_base st - gc_base st) with ((p - gc_base st) / 256 * 256) by lia.
    rewrite Z.quot_div_nonneg, Z.div_mul by (try apply Z.mul_nonneg_nonneg; try apply Z.div_pos; lia).
    pose proof (Z.div_mod (p - gc_base st) 256). pose proof (Z.mod_pos_bound (p - gc_base st) 256).
    assert ((p - gc_base st) / 256 < 256) by (apply Z.div_lt_upper_bound; lia).
    assert (0 <= (p - gc_base st) / 256) by (apply Z.div_pos; lia).
    change (1024 * 64 / 256) with 256. lia.
  Qed.

Lemma ALIGN_round x :
    0 <= x <= 2 ^ 31 - 4 -> ALIGN x mod 4 = 0 /\ x <= ALIGN x <= x + 3.
  Proof.
    intros Hx. unfold ALIGN. rewrite to_int32_small by (unfold int32_range; lia).
    rewrite land_lnot3. pose proof (Z.mod_pos_bound (x + 3) 4).
    pose proof (Z.div_mod (x + 3) 4).
    rewrite Zminus_mod, Z.mod_mod, Z.sub_diag by lia. split; [reflexivity|lia].
  Qed.

Lemma MARK_CHUNK_Ok st chunk c : mapped chunk 4 = true ->
    MARK_CHUNK chunk c st =
    Ok (tt, set_mem st (store_le 4 (gc_mem st) chunk
                          (Z.lor (size_bits (load_le 4 (gc_mem st) chunk)) c))).
  Proof.
    intros H. unfold MARK_CHUNK, CHUNK_SIZE, FLAGS, set_FLAGS, bind, ret.
    rewrite load_Ok by exact H. now rewrite store_Ok by exact H.
  Qed.

Lemma load32_bound m a : 0 <= load_le 4 m a < 2 ^ 32.
  Proof. exact (load_le_bound 4 m a). Qed.

Lemma FLAGS_after_store st chunk v : mapped chunk 4 = true ->
    FLAGS chunk (set_mem st (store_le 4 (gc_mem st) chunk v)) =
    Ok (v mod 2 ^ 32, set_mem st (store_le 4 (gc_mem st) chunk v)).
  Proof.
    intros H. unfold FLAGS. rewrite load_Ok by exact H. do 2 f_equal.
    apply load_store_le_same.
  Qed.

  (** C32. Marking a chunk with a color (a value below four) keeps the
      size field of its header and makes the color read back. *)
Theorem MARK_CHUNK_roundtrip st chunk c :
    mapped chunk 4 = true -> 0 <= c < 4 ->
    exists st', MARK_CHUNK chunk c st = Ok (tt, st') /\
      CHUNK_SIZE chunk st' = Ok (size_bits (load_le 4 (gc_mem st) chunk), st') /\
      CHUNK_FLAGS chunk st' = Ok (c, st').
  Proof.
    intros Hm Hc. eexists. split; [now apply MARK_CHUNK_Ok|].
    pose proof (load32_bound (gc_mem st) chunk) as Hb.
    destruct (mark_header (load_le 4 (gc_mem st) chunk) c ltac:(lia) Hc) as (E1 & E2 & E3).
    unfold CHUNK_SIZE, CHUNK_FLAGS, bind. rewrite FLAGS_after_store, E1 by exact Hm.
    now rewrite E2, E3.
  Qed.

  (** C22. [MARK_CHUNK(chunk, GC_GRAY + GC_BLACK)], which [mark_major_chunk]
      executes on a gray chunk, writes the flag value 5: the chunk
      reads back as white and bit 2 of its size is set. *)
Theorem MARK_CHUNK_gray_plus_black st chunk :
    mapped chunk 4 = true ->
    exists st', MARK_CHUNK chunk (color_val GC_GRAY + color_val GC_BLACK) st = Ok (tt, st') /\
      CHUNK_FLAGS chunk st' = Ok (color_val GC_WHITE, st') /\
      CHUNK_SIZE chunk st' = Ok (8 * (load_le 4 (gc_mem st) chunk / 8) + 4, st').
  Proof.
    intros Hm. eexists. split; [now apply MARK_CHUNK_Ok|].
    pose proof (load32_bound (gc_mem st) chunk) as Hb.
    unfold CHUNK_SIZE, CHUNK_FLAGS, bind. rewrite FLAGS_after_store by exact Hm.
    simpl color_val. rewrite mark_header_5 by lia.
    set (q := load_le 4 (gc_mem st) chunk / 8).
    assert (E : 8 * q + 5 = 4 * (2 * q + 1) + 1) by lia.
    rewrite flag_bits_eq, E, mod4_mul4 by lia. unfold ret.
    rewrite (size_bits_eq (4 * (2 * q + 1) + 1)).
    replace ((4 * (2 * q + 1) + 1) / 4) with (2 * q + 1)
      by (apply Z.div_unique with 1; lia).
    replace (4 * (2 * q + 1)) with (8 * q + 4) by lia. split; reflexivity.
  Qed.

  (** C33. [MINOR_CHUNK] of a pointer into the nursery is the start of the
      256-byte slot containing it, and [CHUNK_OFFSET] of that start is a
      slot index in range whose [CHUNK_AT] gives the start back. *)
Theorem MINOR_CHUNK_bounds st p :
    POINTS_MINOR st p = true ->
    let c := MINOR_CHUNK st p in
    c <= p < c + GC_MINCHUNK_SIZE /\
    0 <= CHUNK_OFFSET st c < GC_MINCHUNKS /\
    CHUNK_AT st (CHUNK_OFFSET st c) = c.
  Proof. apply MINOR_CHUNK_slot. Qed.

  (** C34. [ALIGN] of a non-negative [int] that does not overflow rounds
      it up to the next multiple of four. *)
Theorem ALIGN_bounds x :
    0 <= x <= 2 ^ 31 - 4 -> ALIGN x mod 4 = 0 /\ x <= ALIGN x <= x + 3.
  Proof. apply ALIGN_round. Qed.

(** [CHUNK_OFFSET] inverts [CHUNK_AT]. *)
Lemma CHUNK_OFFSET_AT st i : CHUNK_OFFSET st (CHUNK_AT st i) = i.
Proof.
  unfold CHUNK_OFFSET, CHUNK_AT, GC_MINCHUNK_SIZE.
  replace (gc_base st + i * 256 - gc_base st) with (i * 256) by lia. apply Z.quot_mul. lia.
Qed.

End HeaderProps.

(** ** Witnesses of the header properties. *)
Lemma MARK_CHUNK_roundtrip_witness :
  mapped 65536 4 = true /\ 0 <= color_val GC_BLACK < 4 /\
  exists st', MARK_CHUNK 65536 (color_val GC_BLACK) sample_gc = Ok (tt, st') /\
    CHUNK_SIZE 65536 st' = Ok (size_bits (load_le 4 (gc_mem sample_gc) 65536), st') /\
    CHUNK_FLAGS 65536 st' = Ok (color_val GC_BLACK, st').
Proof.
  split; [reflexivity|]. split; [simpl; lia|].
  apply MARK_CHUNK_roundtrip; [reflexivity|simpl; lia].
Defined.

Lemma MARK_CHUNK_gray_plus_black_witness :
  mapped (65536 + GC_MINHEAP_SIZE) 4 = true /\
  exists st', MARK_CHUNK (65536 + GC_MINHEAP_SIZE) (color_val GC_GRAY + color_val GC_BLACK) sample_gc
              = Ok (tt, st') /\
    CHUNK_FLAGS (65536 + GC_MINHEAP_SIZE) st' = Ok (color_val GC_WHITE, st') /\
    CHUNK_SIZE (65536 + GC_MINHEAP_SIZE) st'
      = Ok (8 * (load_le 4 (gc_mem sample_gc) (65536 + GC_MINHEAP_SIZE) / 8) + 4, st').
Proof. split; [reflexivity|]. apply MARK_CHUNK_gray_plus_black. reflexivity. Defined.

Lemma MINOR_CHUNK_bounds_witness :
  POINTS_MINOR sample_gc 65836 = true /\
  MINOR_CHUNK sample_gc 65836 <= 65836 < MINOR_CHUNK sample_gc 65836 + GC_MINCHUNK_SIZE /\
  0 <= CHUNK_OFFSET sample_gc (MINOR_CHUNK sample_gc 65836) < GC_MINCHUNKS /\
  CHUNK_AT sample_gc (CHUNK_OFFSET sample_gc (MINOR_CHUNK sample_gc 65836)) = MINOR_CHUNK sample_gc 65836.
Proof. split; [reflexivity|]. apply (MINOR_CHUNK_bounds sample_gc 65836). reflexivity. Defined.

Lemma ALIGN_bounds_witness : (0 <= 13 <= 2 ^ 31 - 4) /\ ALIGN 13 mod 4 = 0 /\ 13 <= ALIGN 13 <= 13 + 3.
Proof. split; [lia|]. apply ALIGN_bounds. lia. Defined.

(** ** Rewriting the primitive steps of a computation. *)
Section BindSteps.
Context {A : Type} (st : collector) (k : Z -> M A).

Lemma bind_gets {B} (f : collector -> B) (k' : B -> M A) : bind (gets f) k' st = k' (f st) st.
  Proof. reflexivity. Qed.

Lemma bind_FLAGS a : mapped a 4 = true -> bind (FLAGS a) k st = k (load_le 4 (gc_mem st) a) st.
  Proof. intros H. apply bind_Ok. now apply load_Ok. Qed.

Lemma bind_CHUNK_SIZE a : mapped a 4 = true ->
    bind (CHUNK_SIZE a) k st = k (size_bits (load_le 4 (gc_mem st) a)) st.
  Proof.
    intros H. apply bind_Ok. unfold CHUNK_SIZE. now rewrite (bind_Ok _ _ _ _ _ (load_Ok st 4 a H)).
  Qed.

Lemma bind_CHUNK_FLAGS a : mapped a 4 = true ->
    bind (CHUNK_FLAGS a) k st = k (flag_bits (load_le 4 (gc_mem st) a)) st.
  Proof.
    intros H. apply bind_Ok. unfold CHUNK_FLAGS. now rewrite (bind_Ok _ _ _ _ _ (load_Ok st 4 a H)).
  Qed.

Lemma bind_load_ptr a : mapped a 8 = true ->
    bind (load_ptr a) k st = k (load_le 8 (gc_mem st) a) st.
  Proof. intros H. apply bind_Ok. now apply load_Ok. Qed.
End BindSteps.

Section BindStores.
Context {A : Type} (st : collector) (k : unit -> M A).

Lemma bind_set_FLAGS a v : mapped a 4 = true ->
    bind (set_FLAGS a v) k st = k tt (set_mem st (store_le 4 (gc_mem st) a v)).
  Proof. intros H. apply bind_Ok. now apply store_Ok. Qed.

Lemma bind_store_ptr a v : mapped a 8 = true ->
    bind (store_ptr a v) k st = k tt (set_mem st (store_le 8 (gc_mem st) a v)).
  Proof. intros H. apply bind_Ok. now apply store_Ok. Qed.

Lemma bind_MARK_CHUNK a c : mapped a 4 = true ->
    bind (MARK_CHUNK a c) k st =
    k tt (set_mem st (store_le 4 (gc_mem st) a (Z.lor (size_bits (load_le 4 (gc_mem st) a)) c))).
  Proof. intros H. apply bind_Ok. now apply MARK_CHUNK_Ok. Qed.
End BindStores.

Lemma set_mem_mem st m : gc_mem (set_mem st m) = m.
Proof. reflexivity. Qed.

Lemma set_mem_set_mem st m m' : set_mem (set_mem st m) m' = set_mem st m'.
Proof. reflexivity. Qed.

Lemma major_hi_set_mem st m : major_hi (set_mem st m) = major_hi st.
Proof. reflexivity. Qed.

Lemma major_lo_set_mem st m : major_lo (set_mem st m) = major_lo st.
Proof. reflexivity. Qed.

#[export] Hint Rewrite set_mem_mem set_mem_set_mem major_hi_set_mem major_lo_set_mem : gcrw.

(** Discharge a [mapped] side condition from bounds in the context. *)
Ltac solve_mapped :=
  apply mapped_true; unfold NULL_PAGE, USER_TOP in *; lia.
