(* ===== verification/Roots.v ===== *)
(** * Root registry (gc.c lines 18-76, gc.h lines 52-60)

    The table [gc_refs] of address ranges [begin, end) that both
    collections scan, with its counter [gc_ref_count].  The two loops of
    [gc_add_ref] and the loop of [gc_remove_ref] are the monadic search
    [find_ref]; [first_ref] is the same search as a pure function of
    the table, and [find_ref_Ok] says they agree, so that every theorem
    about the registry is proved on the pure search. *)

From stdpp Require Import base decidable numbers.
From Stdlib Require Import ZArith Lia Bool.
From S2P Require Import Prelude Memory Layout.

Open Scope Z_scope.
Open Scope gc_monad_scope.

(** [begin >= refs[i][0] && end <= refs[i][1]]: the test both
    [gc_add_ref] and [gc_remove_ref] use to match an entry. *)
Definition covers (b e : Z) (r : Z * Z) : bool := (fst r <=? b) && (e <=? snd r).

(** An empty slot: [refs[i][0] == 0]. *)
Definition empty_slot (r : Z * Z) : bool := fst r =? 0.

(** [for (i = start; i < start + n; i++) if (test(refs[i])) ...]:
    the index of the first entry passing [test], if any. *)
Fixpoint find_ref (n : nat) (i : Z) (test : Z * Z -> bool) : M (option Z) :=
  match n with
  | O => ret None
  | S n' => r <- refs_get i ;; if test r then ret (Some i) else find_ref n' (i + 1) test
  end.

(** The same search on the table itself. *)
Fixpoint first_ref (n : nat) (i : Z) (test : Z * Z -> bool) (refs : Z -> Z * Z) : option Z :=
  match n with
  | O => None
  | S n' => if test (refs i) then Some i else first_ref n' (i + 1) test refs
  end.

(** [set_ref_block] (lines 18-22). *)
Definition set_ref_block (i b e : Z) : M unit := refs_set i (b, e).

(** [if(begin > end){ swap }]. *)
Definition order_range (b e : Z) : Z * Z := if e <? b then (e, b) else (b, e).

(** [gc_add_ref] (lines 24-51). *)
Definition gc_add_ref (b0 e0 : Z) : M unit :=
  if b0 =? e0 then ret tt else
  let b := fst (order_range b0 e0) in
  let e := snd (order_range b0 e0) in
  rc <- gets gc_ref_count ;;
  found <- find_ref (Z.to_nat rc) 0 (covers b e) ;;
  match found with
  | Some _ => ret tt
  | None =>
      slot <- find_ref (Z.to_nat rc) 0 empty_slot ;;
      match slot with
      | Some i => set_ref_block i b e
      | None => set_ref_count (rc + 1) ;; set_ref_block rc b e
      end
  end.

(** [gc_remove_ref] (lines 53-76).  The loop stops one entry short of
    the count; the index it leaves in [i] is [rc - 1], or [0] when the
    loop does not run; the entry found there decrements the count
    instead of being cleared. *)
Definition gc_remove_ref (b0 e0 : Z) : M unit :=
  if b0 =? e0 then ret tt else
  let b := fst (order_range b0 e0) in
  let e := snd (order_range b0 e0) in
  rc <- gets gc_ref_count ;;
  found <- find_ref (Z.to_nat (rc - 1)) 0 (covers b e) ;;
  match found with
  | Some i => r <- refs_get i ;; refs_set i (0, snd r)
  | None =>
      let i := Z.max 0 (rc - 1) in
      r <- refs_get i ;;
      if covers b e r then set_ref_count (rc - 1) else ret tt
  end.

(** [gc_add_single_ref] and [gc_remove_single_ref] (gc.h lines 52-60):
    both call [gc_add_ref] on the one-word range at [ref]. *)
Definition gc_add_single_ref (ref : Z) : M unit := gc_add_ref ref (ref + PTR_SIZE).
Definition gc_remove_single_ref (ref : Z) : M unit := gc_add_ref ref (ref + PTR_SIZE).

(** The traversal of every root slot, shared by [darken_roots] (lines
    168-179), [mark_minor] (lines 198-211) and [backpatch_refs] (lines
    228-247):
    [for (counter = 0; counter < gc->gc_ref_count; counter++)
       for (ref = gc->gc_refs[counter][0]; ref < gc->gc_refs[counter][1]; ref++)
         if (ref != 0) body(ref);]
    [ref] is a [void**], so [ref++] advances it by [PTR_SIZE] bytes; the
    bound [gc_refs[counter][1]] is read again at every test.  [n] bounds
    the number of tests of each loop. *)
Fixpoint for_slots (body : Z -> M unit) (n : nat) (counter ref : Z) : M unit :=
  match n with
  | O => fail OutOfFuel
  | S n' =>
      r <- refs_get counter ;;
      if ref <? snd r then
        (if ref =? 0 then ret tt else body ref) ;;
        for_slots body n' counter (ref + PTR_SIZE)
      else ret tt
  end.

Fixpoint for_roots (body : Z -> M unit) (fuel n : nat) (counter : Z) : M unit :=
  match n with
  | O => fail OutOfFuel
  | S n' =>
      rc <- gets gc_ref_count ;;
      if counter <? rc then
        r <- refs_get counter ;;
        for_slots body fuel counter (fst r) ;;
        for_roots body fuel n' (counter + 1)
      else ret tt
  end.

Definition for_root_slots (body : Z -> M unit) (fuel : nat) : M unit := for_roots body fuel fuel 0.

(** Registries whose traversal reads only mappable slots: the count is
    a number of entries of the array, and every non-empty range lies
    above the null page. *)
Definition roots_ok (st : collector) : Prop :=
  (0 <= gc_ref_count st <= GC_MAX_REFS) /\
  (forall k, 0 <= k < gc_ref_count st -> fst (gc_refs st k) < snd (gc_refs st k) ->
    NULL_PAGE <= fst (gc_refs st k) /\ snd (gc_refs st k) + PTR_SIZE <= USER_TOP).

(** Fuel enough for the traversal: more than the number of entries and
    than the number of slots of any range. *)
Definition roots_fuel (st : collector) (fuel : nat) : Prop :=
  (Z.to_nat (gc_ref_count st) < fuel)%nat /\
  (forall k, 0 <= k < gc_ref_count st ->
    (Z.to_nat ((snd (gc_refs st k) - fst (gc_refs st k) + 7) / 8) < fuel)%nat).

(** The slots the traversal reads: [r] is a word of the counted range
    [c], at a multiple of [PTR_SIZE] from its begin address. *)
Definition root_slot_of (st : collector) (c r : Z) : Prop :=
  (0 <= c < gc_ref_count st) /\ (fst (gc_refs st c) <= r < snd (gc_refs st c)) /\
  ((r - fst (gc_refs st c)) mod PTR_SIZE = 0).

(** The registry invariant the code relies on: the count is a valid
    number of entries of the array. *)
Definition registry_wf (st : collector) : Prop := 0 <= gc_ref_count st <= GC_MAX_REFS.

(** An entry [i] registers the range [b, e): it is among the counted
    entries and it is not an emptied slot. *)
Definition registered (st : collector) (b e : Z) : Prop :=
  exists i, 0 <= i < gc_ref_count st /\ fst (gc_refs st i) <> 0 /\ covers b e (gc_refs st i) = true.

(** A full table: every entry holds the range [1, 2). *)
Definition full_registry_gc : collector :=
  {| gc_mem := fun _ => 0; gc_base := 65536; gc_free_chunk := 0; gc_ref_count := GC_MAX_REFS;
     gc_backpatch := fun _ => 0; gc_refs := fun _ => (1, 2) |}.

(** ** The search loops. *)
Section Search.
Context (test : Z * Z -> bool).

Lemma find_ref_Ok n : forall i st, 0 <= i -> i + Z.of_nat n <= GC_MAX_REFS ->
    find_ref n i test st = Ok (first_ref n i test (gc_refs st), st).
  Proof.
    induction n as [|n IH]; intros i st Hi Hn; [reflexivity|].
    cbn [find_ref first_ref]. unfold bind, refs_get.
    replace ((0 <=? i) && (i <? GC_MAX_REFS)) with true
      by (symmetry; apply andb_true_iff; split; [apply Z.leb_le|apply Z.ltb_lt]; lia).
    destruct (test (gc_refs st i)); [reflexivity|]. apply IH; lia.
  Qed.

Lemma first_ref_Some n : forall i refs j,
    first_ref n i test refs = Some j -> i <= j < i + Z.of_nat n /\ test (refs j) = true.
  Proof.
    induction n as [|n IH]; intros i refs j H; cbn [first_ref] in H; [discriminate|].
    destruct (test (refs i)) eqn:T.
    - injection H as <-. split; [lia|exact T].
    - apply IH in H as [H1 H2]. split; [lia|exact H2].
  Qed.

Lemma first_ref_None n : forall i refs j,
    first_ref n i test refs = None -> i <= j < i + Z.of_nat n -> test (refs j) = false.
  Proof.
    induction n as [|n IH]; intros i refs j H Hj; cbn [first_ref] in H; [lia|].
    destruct (test (refs i)) eqn:T; [discriminate|].
    destruct (Z.eq_dec j i) as [->|]; [exact T|]. apply (IH (i + 1)); auto; lia.
  Qed.

Lemma first_ref_complete n i refs j :
    i <= j < i + Z.of_nat n -> test (refs j) = true -> exists k, first_ref n i test refs = Some k.
  Proof.
    intros Hj T. destruct (first_ref n i test refs) as [k|] eqn:E; [eauto|].
    rewrite (first_ref_None n i refs j E Hj) in T. discriminate.
  Qed.
End Search.

Lemma order_range_spec b e : order_range b e = (Z.min b e, Z.max b e).
Proof. unfold order_range. destruct (Z.ltb_spec e b); f_equal; lia. Qed.

Lemma covers_self b e : covers b e (b, e) = true.
Proof. unfold covers. simpl. now rewrite !Z.leb_refl. Qed.

Lemma refs_set_Ok i r st : 0 <= i < GC_MAX_REFS ->
  exists st', refs_set i r st = Ok (tt, st') /\ gc_refs st' i = r /\
    (forall j, j <> i -> gc_refs st' j = gc_refs st j) /\
    gc_ref_count st' = gc_ref_count st /\ gc_mem st' = gc_mem st.
Proof.
  intros Hi. unfold refs_set.
  replace ((0 <=? i) && (i <? GC_MAX_REFS)) with true
    by (symmetry; apply andb_true_iff; split; [apply Z.leb_le|apply Z.ltb_lt]; lia).
  eexists. split; [reflexivity|]. simpl. rewrite Z.eqb_refl.
  split; [reflexivity|]. split; [|split; reflexivity].
  intros j Hj. now rewrite (proj2 (Z.eqb_neq j i) Hj).
Qed.

#[export] Hint Resolve covers_self : gcdb.

(** ** Behaviour of [gc_add_ref]. *)
Section AddRef.
Context (st : collector) (b e : Z).
Hypothesis Hwf : registry_wf st.
Hypothesis Hne : b <> e.

Let lo := Z.min b e.
Let hi := Z.max b e.

  (** The code past the early return, with the two searches evaluated. *)
Lemma gc_add_ref_unfold :
    gc_add_ref b e st =
    match first_ref (Z.to_nat (gc_ref_count st)) 0 (covers lo hi) (gc_refs st) with
    | Some _ => Ok (tt, st)
    | None =>
        match first_ref (Z.to_nat (gc_ref_count st)) 0 empty_slot (gc_refs st) with
        | Some i => set_ref_block i lo hi st
        | None => (set_ref_count (gc_ref_count st + 1) ;; set_ref_block (gc_ref_count st) lo hi) st
        end
    end.
  Proof.
    unfold gc_add_ref. rewrite (proj2 (Z.eqb_neq b e) Hne), order_range_spec.
    cbv [fst snd]. unfold bind at 1, gets. unfold bind at 1.
    unfold registry_wf in Hwf.
    rewrite find_ref_Ok by lia.
    destruct (first_ref _ 0 (covers _ _) _); [reflexivity|].
    unfold bind at 1. rewrite find_ref_Ok by lia.
    destruct (first_ref _ 0 empty_slot _); reflexivity.
  Qed.

  (** A range already covered by a counted entry is not added again. *)
Lemma gc_add_ref_covered :
    (exists i, 0 <= i < gc_ref_count st /\ covers lo hi (gc_refs st i) = true) ->
    gc_add_ref b e st = Ok (tt, st).
  Proof.
    intros (i & Hi & Hc). rewrite gc_add_ref_unfold.
    destruct (first_ref_complete (covers lo hi) (Z.to_nat (gc_ref_count st)) 0 (gc_refs st) i)
      as [k ->]; [lia|exact Hc|reflexivity].
  Qed.

  (** Below capacity, [gc_add_ref] succeeds, keeps memory, grows the
      count by at most one, and leaves an entry covering the range. *)
Lemma gc_add_ref_Ok :
    gc_ref_count st < GC_MAX_REFS ->
    exists st', gc_add_ref b e st = Ok (tt, st') /\ gc_mem st' = gc_mem st /\
      gc_ref_count st <= gc_ref_count st' <= gc_ref_count st + 1 /\
      exists i, 0 <= i < gc_ref_count st' /\ covers lo hi (gc_refs st' i) = true.
  Proof.
    intros Hcap. unfold registry_wf in Hwf. rewrite gc_add_ref_unfold.
    destruct (first_ref _ 0 (covers lo hi) _) as [k|] eqn:F.
    - apply first_ref_Some in F. exists st. repeat split; [lia|lia|]. exists k. split; [lia|tauto].
    - destruct (first_ref _ 0 empty_slot _) as [k|] eqn:G.
      + apply first_ref_Some in G. unfold set_ref_block.
        destruct (refs_set_Ok k (lo, hi) st ltac:(lia)) as (st' & E & R & _ & C & Mm).
        exists st'. rewrite E. repeat split; [exact Mm|lia|lia|].
        exists k. rewrite R, C. split; [lia|apply covers_self].
      + unfold bind, set_ref_count, modify, set_ref_block.
        match goal with |- context [refs_set ?i ?r ?s1] =>
          destruct (refs_set_Ok i r s1) as (st' & E & R & _ & C & Mm); [cbn; lia|] end.
        rewrite E. exists st'. cbn in C, Mm.
        split; [reflexivity|]. split; [exact Mm|]. split; [lia|].
        exists (gc_ref_count st). rewrite R, C. split; [cbn; lia|apply covers_self].
  Qed.
End AddRef.

Lemma covers_true_iff b e r : covers b e r = true <-> fst r <= b /\ e <= snd r.
Proof. unfold covers. rewrite andb_true_iff, !Z.leb_le. tauto. Qed.

(** ** Symbolic execution of the registry code.

    [run_registry] unfolds the registry operations of a sequence and
    evaluates it on a state whose counter is known, deciding every
    comparison of the goal by [lia] or, when the hypotheses do not fix
    its value, splitting on it. *)
Ltac decide_cmp :=
  match goal with
  | |- context [?a =? ?b] =>
      first [rewrite (proj2 (Z.eqb_eq a b)) by lia | rewrite (proj2 (Z.eqb_neq a b)) by lia]
  | |- context [?a <? ?b] =>
      first [rewrite (proj2 (Z.ltb_lt a b)) by lia | rewrite (proj2 (Z.ltb_ge a b)) by lia]
  | |- context [?a <=? ?b] =>
      first [rewrite (proj2 (Z.leb_le a b)) by lia | rewrite (proj2 (Z.leb_gt a b)) by lia]
  end.

Ltac split_cmp :=
  match goal with
  | |- context [?a <=? ?b] => destruct (Z.leb_spec a b)
  | |- context [?a <? ?b] => destruct (Z.ltb_spec a b)
  | |- context [?a =? ?b] => destruct (Z.eqb_spec a b)
  end; try (exfalso; lia).

Ltac run_registry :=
  unfold gc_add_single_ref, gc_remove_single_ref, gc_add_ref, gc_remove_ref, order_range,
    bind, gets, set_ref_count, modify, set_ref_block, refs_set, refs_get, ret, covers, empty_slot;
  repeat (cbv -[Z.leb Z.ltb Z.eqb]; first [decide_cmp | split_cmp]).

(** ** The traversal of the root slots. *)
Lemma refs_get_Ok st i : 0 <= i < GC_MAX_REFS -> refs_get i st = Ok (gc_refs st i, st).
Proof.
  intros H. unfold refs_get.
  rewrite (proj2 (Z.leb_le 0 i)), (proj2 (Z.ltb_lt i _)) by lia. reflexivity.
Qed.

Section RootWalk.
Context (body : Z -> M unit) (I : collector -> Prop) (st0 : collector) (fuel : nat).
Context (Q : Z -> collector -> Prop).
Hypothesis HI : forall st, I st -> gc_ref_count st = gc_ref_count st0 /\ gc_refs st = gc_refs st0.
Hypothesis Hbody : forall st ref, I st -> (exists c, root_slot_of st0 c ref) ->
  NULL_PAGE <= ref -> ref + PTR_SIZE <= USER_TOP ->
  exists st', body ref st = Ok (tt, st') /\ I st'.
(** [Q r]: a fact about the slot [r] that visiting it establishes and
    later visits keep. *)
Hypothesis Hq : forall st ref st', I st -> (exists c, root_slot_of st0 c ref) ->
  body ref st = Ok (tt, st') -> Q ref st'.
Hypothesis Hstable : forall st ref st' r, I st -> NULL_PAGE <= ref -> ref + PTR_SIZE <= USER_TOP ->
  body ref st = Ok (tt, st') -> Q r st -> Q r st'.
Hypothesis Hok : roots_ok st0.
Hypothesis Hfuel : roots_fuel st0 fuel.

Lemma for_slots_visit k n : forall ref st,
  0 <= k < gc_ref_count st0 -> I st ->
  (ref < snd (gc_refs st0 k) -> NULL_PAGE <= ref) ->
  snd (gc_refs st0 k) + PTR_SIZE <= USER_TOP \/ fst (gc_refs st0 k) >= snd (gc_refs st0 k) ->
  (fst (gc_refs st0 k) <= ref) -> (ref - fst (gc_refs st0 k)) mod PTR_SIZE = 0 ->
  (Z.to_nat ((snd (gc_refs st0 k) - ref + 7) / 8) < n)%nat ->
  exists st', for_slots body n k ref st = Ok (tt, st') /\ I st' /\
    (forall r, Q r st -> Q r st') /\
    (forall r, ref <= r < snd (gc_refs st0 k) -> (r - ref) mod PTR_SIZE = 0 -> Q r st').
Proof.
  destruct Hok as [Hrc _].
  induction n as [|n IH]; intros ref st Hk Hst Hnull Htop Hlo Hmod Hn; [lia|].
  destruct (HI st Hst) as [Ec Er]. cbn [for_slots].
  rewrite (bind_Ok _ _ _ _ _ (refs_get_Ok st k ltac:(unfold GC_MAX_REFS in *; lia))), Er.
  destruct (Z.ltb_spec ref (snd (gc_refs st0 k))) as [Hlt|Hge];
    [|exists st; split; [reflexivity|]; split; [exact Hst|]; split; [auto|intros; lia]].
  assert (Hz : (ref =? 0) = false) by (apply Z.eqb_neq; unfold NULL_PAGE in *; lia).
  rewrite Hz.
  destruct (Hbody st ref Hst (ex_intro _ k (conj Hk (conj (conj Hlo Hlt) Hmod))) ltac:(lia)
              ltac:(unfold PTR_SIZE in *; lia)) as (st' & E & Hst').
  rewrite (bind_Ok _ _ _ _ _ E).
  assert (Hq' : (snd (gc_refs st0 k) - (ref + 8) + 7) / 8 = (snd (gc_refs st0 k) - ref + 7) / 8 - 1).
  { replace (snd (gc_refs st0 k) - (ref + 8) + 7) with ((snd (gc_refs st0 k) - ref + 7) + (-1) * 8) by lia.
    rewrite Z.div_add by lia. lia. }
  assert (1 <= (snd (gc_refs st0 k) - ref + 7) / 8) by (apply Z.div_le_lower_bound; lia).
  destruct (IH (ref + PTR_SIZE) st') as (st'' & E'' & Hst'' & Hpres & Hcov);
    auto; unfold PTR_SIZE in *; try lia;
    [replace (ref + 8 - fst (gc_refs st0 k)) with (ref - fst (gc_refs st0 k) + 1 * 8) by lia;
     rewrite Z.mod_add; lia|].
  exists st''. split; [exact E''|]. split; [exact Hst''|].
  split; [intros r Hr; apply Hpres; exact (Hstable st ref st' r Hst ltac:(lia) ltac:(unfold PTR_SIZE in *; lia) E Hr)|].
  intros r Hr Hm. destruct (Z.eq_dec r ref) as [->|Hne].
  - apply Hpres. apply (Hq st ref st' Hst); [exists k; split; [exact Hk|split; [lia|exact Hmod]]|exact E].
  - apply Hcov; [|rewrite <- Hm; replace (r - ref) with (r - (ref + 8) + 1 * 8) by lia;
                   rewrite Z.mod_add; lia].
    pose proof (Z.div_mod (r - ref) 8 ltac:(lia)). rewrite Hm in *. lia.
Qed.

Lemma for_roots_visit n : forall counter st, 0 <= counter -> I st ->
  (Z.to_nat (gc_ref_count st0 - counter) < n)%nat ->
  exists st', for_roots body fuel n counter st = Ok (tt, st') /\ I st' /\
    (forall r, Q r st -> Q r st') /\
    (forall c r, counter <= c < gc_ref_count st0 -> fst (gc_refs st0 c) <= r < snd (gc_refs st0 c) ->
       (r - fst (gc_refs st0 c)) mod PTR_SIZE = 0 -> Q r st').
Proof.
  destruct Hok as [Hrc Hent]. destruct Hfuel as [_ Hf].
  induction n as [|n IH]; intros counter st H0 Hst Hn; [lia|].
  destruct (HI st Hst) as [Ec Er]. cbn [for_roots]. rewrite bind_gets, Ec.
  destruct (Z.ltb_spec counter (gc_ref_count st0)) as [Hlt|Hge];
    [|exists st; split; [reflexivity|]; split; [exact Hst|]; split; [auto|intros; lia]].
  rewrite (bind_Ok _ _ _ _ _ (refs_get_Ok st counter ltac:(unfold GC_MAX_REFS in *; lia))), Er.
  assert (Htop : snd (gc_refs st0 counter) + PTR_SIZE <= USER_TOP \/
                 fst (gc_refs st0 counter) >= snd (gc_refs st0 counter)).
  { destruct (Z.ltb_spec (fst (gc_refs st0 counter)) (snd (gc_refs st0 counter))) as [Hl|Hl];
      [left; apply (Hent counter ltac:(lia) Hl)|right; lia]. }
  destruct (for_slots_visit counter fuel (fst (gc_refs st0 counter)) st ltac:(lia) Hst
              (fun Hl => proj1 (Hent counter ltac:(lia) Hl)) Htop ltac:(lia)
              ltac:(rewrite Z.sub_diag; reflexivity) (Hf counter ltac:(lia)))
    as (st' & E & Hst' & Hp' & Hc').
  rewrite (bind_Ok _ _ _ _ _ E).
  destruct (IH (counter + 1) st') as (st'' & E'' & Hst'' & Hp'' & Hc''); auto; try lia.
  exists st''. split; [exact E''|]. split; [exact Hst''|]. split; [auto|].
  intros c r Hc Hr Hm. destruct (Z.eq_dec c counter) as [->|Hne]; [apply Hp'', Hc'; auto|apply (Hc'' c r); auto; lia].
Qed.

(** The traversal of all root slots ends with the invariant kept and
    [Q] established for every slot of every counted range. *)
Lemma for_root_slots_visit : I st0 ->
  exists st', for_root_slots body fuel st0 = Ok (tt, st') /\ I st' /\
    forall c r, root_slot_of st0 c r -> Q r st'.
Proof.
  intros H. destruct (for_roots_visit fuel 0 st0) as (st' & E & Hst' & _ & Hc); [lia|exact H| |].
  - destruct Hfuel as [Hn _]. replace (gc_ref_count st0 - 0) with (gc_ref_count st0) by lia. exact Hn.
  - exists st'. split; [exact E|]. split; [exact Hst'|]. intros c r (Hc1 & Hr & Hm). apply (Hc c r); auto; lia.
Qed.

End RootWalk.

(** The traversal of all root slots ends with the invariant kept. *)
Lemma for_root_slots_inv body I st0 fuel :
  (forall st, I st -> gc_ref_count st = gc_ref_count st0 /\ gc_refs st = gc_refs st0) ->
  (forall st ref, I st -> NULL_PAGE <= ref -> ref + PTR_SIZE <= USER_TOP ->
     exists st', body ref st = Ok (tt, st') /\ I st') ->
  roots_ok st0 -> roots_fuel st0 fuel ->
  I st0 -> exists st', for_root_slots body fuel st0 = Ok (tt, st') /\ I st'.
Proof.
  intros HI Hbody Hok Hfuel H.
  destruct (for_root_slots_visit body I st0 fuel (fun _ _ => True)) as (st' & E & Hst' & _);
    [auto|intros st ref Hst _; apply Hbody, Hst|auto..].
  exists st'. auto.
Qed.

(** The traversal of an empty registry reads the count and stops. *)
Lemma for_root_slots_none body fuel st :
  gc_ref_count st <= 0 -> (1 <= fuel)%nat -> for_root_slots body fuel st = Ok (tt, st).
Proof.
  intros Hrc Hf. destruct fuel as [|f]; [lia|]. unfold for_root_slots. cbn [for_roots].
  rewrite bind_gets, (proj2 (Z.ltb_ge _ _)) by lia. reflexivity.
Qed.

(** The traversal of a registry of one one-word range visits that
    slot once; its result is the body's, when the body keeps the
    registry. *)
Section OneRoot.
Context (body : Z -> M unit) (fuel : nat) (st : collector) (s : Z).
Hypothesis Hrc : gc_ref_count st = 1.
Hypothesis Hr : gc_refs st 0 = (s, s + PTR_SIZE).
Hypothesis Hs : s <> 0.
Hypothesis Hf : (2 <= fuel)%nat.

Lemma for_root_slots_single_step :
  for_root_slots body fuel st =
    bind (body s) (fun _ => bind (for_slots body (Nat.pred fuel) 0 (s + PTR_SIZE))
                              (fun _ => for_roots body fuel (Nat.pred fuel) 1)) st.
Proof.
  destruct fuel as [|[|f]]; [lia|lia|]. unfold for_root_slots. cbn [for_roots Nat.pred].
  rewrite bind_gets, Hrc. cbn [Z.ltb Z.compare]. cbn iota.
  rewrite (bind_Ok _ _ _ _ _ (refs_get_Ok st 0 ltac:(unfold GC_MAX_REFS; lia))), Hr.
  cbn [fst for_slots]. rewrite bind_assoc.
  rewrite (bind_Ok _ _ _ _ _ (refs_get_Ok st 0 ltac:(unfold GC_MAX_REFS; lia))), Hr. cbn [snd].
  rewrite (proj2 (Z.ltb_lt _ _)) by (unfold PTR_SIZE; lia).
  rewrite (proj2 (Z.eqb_neq _ _)) by exact Hs. rewrite bind_assoc. reflexivity.
Qed.

Lemma for_root_slots_single_Ok st' :
  body s st = Ok (tt, st') -> gc_ref_count st' = 1 -> gc_refs st' 0 = gc_refs st 0 ->
  for_root_slots body fuel st = Ok (tt, st').
Proof.
  intros Hb Hrc' Hr'. rewrite for_root_slots_single_step, (bind_Ok _ _ _ _ _ Hb).
  destruct fuel as [|[|f]]; [lia|lia|]. cbn [Nat.pred for_slots for_roots].
  rewrite bind_assoc, (bind_Ok _ _ _ _ _ (refs_get_Ok st' 0 ltac:(unfold GC_MAX_REFS; lia))), Hr', Hr.
  cbn [snd]. rewrite Z.ltb_irrefl, bind_ret_l, bind_gets, Hrc'. reflexivity.
Qed.

Lemma for_root_slots_single_Fail e :
  body s st = Fail e -> for_root_slots body fuel st = Fail e.
Proof. intros Hb. rewrite for_root_slots_single_step. exact (bind_Fail _ _ _ _ Hb). Qed.
End OneRoot.

(** ** Properties of the registry. *)

(** C28. Below capacity, [gc_add_ref] on a non-empty range succeeds,
    leaves memory alone, keeps the registry invariant, and afterwards a
    counted entry covers the range (with its bounds put in order). *)
Theorem gc_add_ref_registers st b e :
  registry_wf st -> gc_ref_count st < GC_MAX_REFS -> b <> e ->
  exists st', gc_add_ref b e st = Ok (tt, st') /\ registry_wf st' /\ gc_mem st' = gc_mem st /\
    exists i, 0 <= i < gc_ref_count st' /\ covers (Z.min b e) (Z.max b e) (gc_refs st' i) = true.
Proof.
  intros Hwf Hcap Hne.
  destruct (gc_add_ref_Ok st b e Hwf Hne Hcap) as (st' & E & Mm & C & Hi).
  exists st'. unfold registry_wf in *. repeat split; auto; lia.
Qed.

(** C29. Adding a range twice is the same as adding it once. *)
Theorem gc_add_ref_idempotent st b e st' :
  registry_wf st -> gc_ref_count st < GC_MAX_REFS -> b <> e ->
  gc_add_ref b e st = Ok (tt, st') -> gc_add_ref b e st' = Ok (tt, st').
Proof.
  intros Hwf Hcap Hne E.
  destruct (gc_add_ref_Ok st b e Hwf Hne Hcap) as (st1 & E1 & _ & C & Hi).
  rewrite E in E1. injection E1 as <-.
  apply gc_add_ref_covered; [unfold registry_wf in *; lia|exact Hne|exact Hi].
Qed.

(** C25. With all [GC_MAX_REFS] entries counted, none covering the new
    range and none emptied, [gc_add_ref] writes [gc_refs[GC_MAX_REFS]],
    one past the end of the array: there is no capacity check. *)
Theorem gc_add_ref_full_overflows st b e :
  gc_ref_count st = GC_MAX_REFS -> b <> e ->
  (forall i, 0 <= i < GC_MAX_REFS ->
     covers (Z.min b e) (Z.max b e) (gc_refs st i) = false /\ empty_slot (gc_refs st i) = false) ->
  gc_add_ref b e st = Fail (OutOfBounds GC_MAX_REFS).
Proof.
  intros Hrc Hne Hall. rewrite gc_add_ref_unfold by (first [exact Hne | unfold registry_wf, GC_MAX_REFS in *; lia]).
  assert (Hn : Z.of_nat (Z.to_nat (gc_ref_count st)) = GC_MAX_REFS)
    by (rewrite Hrc; reflexivity).
  destruct (first_ref (Z.to_nat (gc_ref_count st)) 0 (covers (Z.min b e) (Z.max b e)) (gc_refs st))
    as [k|] eqn:F.
  { apply first_ref_Some in F as [Fk Fc].
    rewrite (proj1 (Hall k ltac:(lia))) in Fc. discriminate. }
  destruct (first_ref (Z.to_nat (gc_ref_count st)) 0 empty_slot (gc_refs st)) as [k|] eqn:G.
  { apply first_ref_Some in G as [Gk Gc].
    rewrite (proj2 (Hall k ltac:(lia))) in Gc. discriminate. }
  unfold bind, set_ref_count, modify, set_ref_block, refs_set. cbn [gc_ref_count].
  rewrite Hrc. reflexivity.
Qed.

(** C17. Removing an entry only zeroes its begin address and keeps its
    end, and the containment test of [gc_add_ref] then matches the
    emptied slot: after registering two ranges and removing the first,
    registering the first again does nothing, and no live entry covers
    it any more. *)
Theorem remove_then_readd_lost st b1 e1 b2 e2 :
  gc_ref_count st = 0 -> 0 < b1 < e1 -> 0 < b2 < e2 ->
  ~ (b2 <= b1 /\ e1 <= e2) -> ~ (b1 <= b2 /\ e2 <= e1) ->
  exists st', (gc_add_ref b1 e1 ;; gc_add_ref b2 e2 ;; gc_remove_ref b1 e1 ;; gc_add_ref b1 e1) st
              = Ok (tt, st') /\ ~ registered st' b1 e1.
Proof.
  destruct st as [m base fc rc bp refs]; cbn [gc_ref_count]; intros -> H1 H2 C12 C21.
  eexists. split; [run_registry; reflexivity|].
  intros (i & Hi & Hf & Hc). cbn [gc_ref_count gc_refs] in Hi, Hf, Hc.
  rewrite covers_true_iff in Hc.
  assert (i = 0 \/ i = 1) as [-> | ->] by lia; cbn in Hf, Hc; lia.
Qed.

(** C24. Removing the last entry decrements the count without clearing
    the entry, and the final check of [gc_remove_ref] reads entry 0 even
    when the count is 0: removing a range twice drives the count to -1,
    and the next [gc_add_ref] writes [gc_refs[-1]]. *)
Theorem remove_twice_underflow st b e b' e' :
  gc_ref_count st = 0 -> 0 < b < e -> b' <> e' ->
  exists st', (gc_add_ref b e ;; gc_remove_ref b e ;; gc_remove_ref b e) st = Ok (tt, st') /\
    gc_ref_count st' = -1 /\ gc_add_ref b' e' st' = Fail (OutOfBounds (-1)).
Proof.
  destruct st as [m base fc rc bp refs]; cbn [gc_ref_count]; intros -> H1 H2.
  eexists. split; [run_registry; reflexivity|]. split; [reflexivity|].
  run_registry; reflexivity.
Qed.

(** C27. [gc_remove_single_ref] calls [gc_add_ref]: removing a
    registered single-word root leaves the registry as it is. *)
Theorem remove_single_ref_keeps_root st ref st' :
  registry_wf st -> gc_ref_count st < GC_MAX_REFS ->
  gc_add_single_ref ref st = Ok (tt, st') -> gc_remove_single_ref ref st' = Ok (tt, st').
Proof.
  intros Hwf Hcap E. unfold gc_add_single_ref, gc_remove_single_ref in *.
  destruct (gc_add_ref_Ok st ref (ref + PTR_SIZE) Hwf ltac:(unfold PTR_SIZE; lia) Hcap)
    as (st1 & E1 & _ & C & Hi).
  rewrite E in E1. injection E1 as <-.
  apply gc_add_ref_covered; [unfold registry_wf in *; lia|unfold PTR_SIZE; lia|exact Hi].
Qed.

(** ** Witnesses of the registry properties. *)

Lemma gc_add_ref_registers_witness :
  registry_wf sample_gc /\ gc_ref_count sample_gc < GC_MAX_REFS /\ 4096 <> 4104 /\
  exists st', gc_add_ref 4096 4104 sample_gc = Ok (tt, st') /\ registry_wf st' /\
    gc_mem st' = gc_mem sample_gc /\
    exists i, 0 <= i < gc_ref_count st' /\ covers (Z.min 4096 4104) (Z.max 4096 4104) (gc_refs st' i) = true.
Proof.
  assert (W : registry_wf sample_gc) by (unfold registry_wf, GC_MAX_REFS; simpl; lia).
  split; [exact W|]. split; [reflexivity|]. split; [lia|].
  apply gc_add_ref_registers; [exact W|reflexivity|lia].
Defined.

Lemma gc_add_ref_idempotent_witness :
  exists st', gc_add_ref 4096 4104 sample_gc = Ok (tt, st') /\ gc_add_ref 4096 4104 st' = Ok (tt, st').
Proof.
  exists (final_state (gc_add_ref 4096 4104) sample_gc). split; [vm_compute; reflexivity|].
  apply (gc_add_ref_idempotent sample_gc); [unfold registry_wf, GC_MAX_REFS; simpl; lia|reflexivity|lia|vm_compute; reflexivity].
Defined.

Lemma gc_add_ref_full_overflows_witness :
  gc_ref_count full_registry_gc = GC_MAX_REFS /\
  gc_add_ref 4096 4104 full_registry_gc = Fail (OutOfBounds GC_MAX_REFS).
Proof.
  split; [reflexivity|]. apply gc_add_ref_full_overflows; [reflexivity|lia|].
  intros i _. split; reflexivity.
Defined.

Lemma remove_then_readd_lost_witness :
  exists st', (gc_add_ref 4096 4104 ;; gc_add_ref 8192 8200 ;; gc_remove_ref 4096 4104 ;;
               gc_add_ref 4096 4104) sample_gc = Ok (tt, st') /\ ~ registered st' 4096 4104.
Proof. apply remove_then_readd_lost; [reflexivity|lia|lia|lia|lia]. Defined.

Lemma remove_twice_underflow_witness :
  exists st', (gc_add_ref 4096 4104 ;; gc_remove_ref 4096 4104 ;; gc_remove_ref 4096 4104) sample_gc
              = Ok (tt, st') /\
    gc_ref_count st' = -1 /\ gc_add_ref 4096 4104 st' = Fail (OutOfBounds (-1)).
Proof. apply remove_twice_underflow; [reflexivity|lia|lia]. Defined.

Lemma remove_single_ref_keeps_root_witness :
  exists st', gc_add_single_ref 4096 sample_gc = Ok (tt, st') /\
    gc_remove_single_ref 4096 st' = Ok (tt, st').
Proof.
  exists (final_state (gc_add_single_ref 4096) sample_gc). split; [vm_compute; reflexivity|].
  apply (remove_single_ref_keeps_root sample_gc); [unfold registry_wf, GC_MAX_REFS; simpl; lia|reflexivity|vm_compute; reflexivity].
Defined.

