(* ===== verification/MajorAlloc.v ===== *)
(** * Old-generation allocator (gc.c lines 92-100 and 133-158)

    [find_major_chunk] walks the implicit chunk list of the major arena
    to the chunk containing an address; [gc_major_alloc] walks it to
    choose a chunk, recolors it white and writes a header for the
    remainder.  Both loops run on fuel: [OutOfFuel] is a walk that does
    not end (a chunk of size 0 is never left).

    The arena is related to an abstract list of chunks by [heap_repr]:
    [(s, c)] is a chunk of [s] bytes (header included) and color [c],
    and the chunks tile the arena from [major_lo] to [major_hi].  The
    theorems give the result of both routines on a tiled arena in terms
    of that list. *)

From stdpp Require Import base decidable numbers.
From Stdlib Require Import ZArith Lia Bool List.
From S2P Require Import Prelude Memory Layout.

Import ListNotations.
Open Scope Z_scope.
Open Scope gc_monad_scope.

(** ** [find_major_chunk] (lines 92-100).

    The condition of the [for] loop is
    [!(ptr >= curr && ptr < curr + CHUNK_SIZE(curr)) && curr < end],
    evaluated left to right with short-circuit; the step adds
    [CHUNK_SIZE(curr)]. *)
Fixpoint find_major_loop (fuel : nat) (ptr curr : Z) : M Z :=
  match fuel with
  | O => fail OutOfFuel
  | S f =>
      inside <- (if curr <=? ptr then s <- CHUNK_SIZE curr ;; ret (ptr <? curr + s)
                 else ret false) ;;
      hi <- gets major_hi ;;
      if negb inside && (curr <? hi)
      then s <- CHUNK_SIZE curr ;; find_major_loop f ptr (curr + s)
      else ret curr
  end.

Definition find_major_chunk (fuel : nat) (ptr : Z) : M Z :=
  lo <- gets major_lo ;;
  curr <- find_major_loop fuel ptr lo ;;
  hi <- gets major_hi ;;
  if curr <? hi then ret curr else ret 0.

(** ** [gc_major_alloc] (lines 133-158).

    The loop breaks at the first chunk that is not free or is smaller
    than the request ([size] is an [int] compared with an [unsigned
    int], hence [wrap32]); it then takes the chunk where it stopped. *)
Fixpoint major_alloc_scan (fuel : nat) (size curr : Z) : M Z :=
  match fuel with
  | O => fail OutOfFuel
  | S f =>
      hi <- gets major_hi ;;
      if curr <? hi then
        fl <- CHUNK_FLAGS curr ;;
        if negb (fl =? color_val GC_FREE) then ret curr else
        s <- CHUNK_SIZE curr ;;
        if s <? wrap32 size then ret curr
        else major_alloc_scan f size (curr + s)
      else ret curr
  end.

(** The header-inclusive size of a request: [(int) WITH_HEADER(ALIGN(size))]. *)
Definition request_size (size : Z) : Z := to_int32 (WITH_HEADER (ALIGN size)).

Definition gc_major_alloc (fuel : nat) (size0 : Z) : M Z :=
  if size0 =? 0 then ret 0 else
  let size := request_size size0 in
  lo <- gets major_lo ;;
  curr <- major_alloc_scan fuel size lo ;;
  hi <- gets major_hi ;;
  if hi <=? curr then ret 0 else
  prev_size <- CHUNK_SIZE curr ;;
  set_FLAGS curr prev_size ;;
  MARK_CHUNK curr (color_val GC_WHITE) ;;
  set_FLAGS (curr + size) (prev_size - size) ;;
  ret (WITH_HEADER curr).

(** ** Abstract view of the arena. *)

(** A header word with size [s] and color [c]. *)
Definition header (s : Z) (c : gc_color) : Z := s + color_val c.

(** The chunks [l] tile the memory [m] from [a] to [hi]. *)
Fixpoint heap_repr (m : mem) (a hi : Z) (l : list (Z * gc_color)) : Prop :=
  match l with
  | [] => a = hi
  | (s, c) :: l' =>
      load_le 4 m a = header s c /\ 0 < s < 2 ^ 32 /\ s mod 4 = 0 /\ heap_repr m (a + s) hi l'
  end.

(** The collector sits where every address of its arenas, and of the
    32-bit offsets past their end, can be mapped. *)
Definition placed (st : collector) : Prop :=
  NULL_PAGE <= gc_base st /\ major_hi st + 2 ^ 32 <= USER_TOP.

(** The chunk where the allocator's walk stops: the first one that is
    not free or is smaller than [req], as an offset from the arena start
    with its size; [None] when every chunk is free and large enough. *)
Fixpoint alloc_stop (req : Z) (a : Z) (l : list (Z * gc_color)) : option (Z * Z) :=
  match l with
  | [] => None
  | (s, c) :: l' =>
      if negb (bool_decide (c = GC_FREE)) || (s <? req) then Some (a, s)
      else alloc_stop req (a + s) l'
  end.

(** The chunk of [l], starting at [a], that contains [p]. *)
Fixpoint chunk_containing (p a : Z) (l : list (Z * gc_color)) : option Z :=
  match l with
  | [] => None
  | (s, _) :: l' => if (a <=? p) && (p <? a + s) then Some a else chunk_containing p (a + s) l'
  end.

(** A chunk the allocator's walk passes over: free and at least [req] bytes. *)
Definition fits (req : Z) (x : Z * gc_color) : Prop := snd x = GC_FREE /\ req <= fst x.

(** The bytes the chunks [l] span. *)
Fixpoint span (l : list (Z * gc_color)) : Z :=
  match l with [] => 0 | x :: l' => fst x + span l' end.

(** Memory holding the headers of the chunks [l] from [a] on; the
    arenas of the witnesses are built with it. *)
Fixpoint write_chunks (m : mem) (a : Z) (l : list (Z * gc_color)) : mem :=
  match l with
  | [] => m
  | (s, c) :: l' => write_chunks (store_le 4 m a (header s c)) (a + s) l'
  end.

Definition arena_gc (l : list (Z * gc_color)) : collector :=
  set_mem sample_gc (write_chunks (gc_mem sample_gc) (major_lo sample_gc) l).

(** A two-chunk arena: a 20-byte white chunk, then the rest free. *)
Definition two_chunks : list (Z * gc_color) := [(20, GC_WHITE); (GC_MAJHEAP_SIZE - 20, GC_FREE)].

(** ** Lemmas on the abstract view. *)
Section HeapView.

Lemma header_decode s c : 0 <= s -> s mod 4 = 0 ->
    size_bits (header s c) = s /\ flag_bits (header s c) = color_val c.
  Proof.
    intros Hs Hm. assert (Hc : 0 <= color_val c < 4) by (destruct c; simpl; lia).
    unfold header. assert (Hq : s = 4 * (s / 4)) by (pose proof (Z.div_mod s 4); lia).
    set (q := s / 4) in Hq. rewrite Hq.
    rewrite size_bits_eq, flag_bits_eq, mod4_mul4 by lia. split; [|reflexivity].
    replace ((4 * q + color_val c) / 4) with q by (apply Z.div_unique with (color_val c); lia).
    reflexivity.
  Qed.

Lemma heap_repr_span m l : forall a b, heap_repr m a b l -> b = a + span l.
  Proof.
    induction l as [|[s c] l IH]; intros a b H; cbn [heap_repr span fst] in *; [lia|].
    destruct H as (_ & _ & _ & H). apply IH in H. lia.
  Qed.

Lemma span_nonneg m l : forall a b, heap_repr m a b l -> a <= b.
  Proof.
    induction l as [|[s c] l IH]; intros a b H; cbn [heap_repr span fst] in *; [lia|].
    destruct H as (_ & Hs & _ & H). apply IH in H. lia.
  Qed.

Lemma heap_repr_app m l1 l2 : forall a c,
    heap_repr m a c (l1 ++ l2) <-> exists b, heap_repr m a b l1 /\ heap_repr m b c l2.
  Proof.
    induction l1 as [|[s k] l1 IH]; intros a c; simpl.
    - split; [eauto|]. intros (b & -> & H). exact H.
    - rewrite IH. split.
      + intros (H1 & H2 & H3 & b & H4 & H5). exists b. split; [|exact H5].
        split; [exact H1|]. split; [exact H2|]. split; [exact H3|exact H4].
      + intros (b & (H1 & H2 & H3 & H4) & H5).
        split; [exact H1|]. split; [exact H2|]. split; [exact H3|]. exists b. split; assumption.
  Qed.

  (** The headers of a tiling lie inside it: memory changed elsewhere
      leaves it a tiling. *)
Lemma heap_repr_ext m m' l : forall a b, heap_repr m a b l ->
    (forall x, a <= x < b -> m' x = m x) -> heap_repr m' a b l.
  Proof.
    induction l as [|[s c] l IH]; intros a b H E; cbn [heap_repr] in *; [exact H|].
    destruct H as (H1 & H2 & H3 & H4). pose proof (span_nonneg _ _ _ _ H4).
    split; [|split; [exact H2|split; [exact H3|]]].
    - rewrite <- H1. apply load_le_ext. intros x Hx. apply E.
      assert (s >= 4) by (pose proof (Z.div_mod s 4); lia). lia.
    - apply IH; [exact H4|]. intros x Hx. apply E. lia.
  Qed.

Lemma alloc_stop_None req l : forall a, alloc_stop req a l = None -> Forall (fits req) l.
  Proof.
    induction l as [|[s c] l IH]; intros a H; simpl in *; [constructor|].
    destruct (negb (bool_decide (c = GC_FREE)) || (s <? req)) eqn:E; [discriminate|].
    apply orb_false_iff in E as [E1 E2]. apply negb_false_iff, bool_decide_eq_true in E1.
    apply Z.ltb_ge in E2. constructor; [split; simpl; auto; lia|]. eapply IH; eauto.
  Qed.

Lemma alloc_stop_Some req l : forall a b s, alloc_stop req a l = Some (b, s) ->
    exists pre c post, l = pre ++ (s, c) :: post /\ Forall (fits req) pre /\
      (c <> GC_FREE \/ s < req) /\ b = a + span pre.
  Proof.
    induction l as [|[s0 c0] l IH]; intros a b s H; simpl in *; [discriminate|].
    destruct (negb (bool_decide (c0 = GC_FREE)) || (s0 <? req)) eqn:E.
    - injection H as <- <-. exists [], c0, l. split; [reflexivity|]. split; [constructor|].
      split; [|simpl; lia].
      apply orb_true_iff in E as [E|E]; [left|right].
      + intros ->. simpl in E. discriminate.
      + now apply Z.ltb_lt.
    - apply IH in H as (pre & c & post & -> & F & Hc & ->).
      apply orb_false_iff in E as [E1 E2]. apply negb_false_iff, bool_decide_eq_true in E1.
      apply Z.ltb_ge in E2.
      exists ((s0, c0) :: pre), c, post. split; [reflexivity|].
      split; [constructor; [split; simpl; auto; lia|exact F]|]. split; [exact Hc|simpl; lia].
  Qed.

End HeapView.

(** ** The walk of [gc_major_alloc]. *)
Section Scan.
Context (st : collector) (req : Z).
Hypothesis Hpl : placed st.

  (** The walk passes over a run of fitting chunks one step each. *)
Lemma scan_skip pre : forall a b fuel,
    heap_repr (gc_mem st) a b pre -> Forall (fits (wrap32 req)) pre ->
    NULL_PAGE <= a -> b <= major_hi st -> (length pre <= fuel)%nat ->
    major_alloc_scan fuel req a st = major_alloc_scan (fuel - length pre) req b st.
  Proof.
    unfold placed in Hpl.
    induction pre as [|[s c] pre IH]; intros a b fuel H F Ha Hb Hf.
    - cbn [heap_repr] in H. subst. now rewrite Nat.sub_0_r.
    - destruct fuel as [|f]; [cbn [length] in Hf; lia|].
      cbn [heap_repr] in H. destruct H as (H1 & H2 & H3 & H4).
      inversion F as [|? ? [Fc Fs] F']; subst. cbn [fst snd] in Fc, Fs. subst c.
      pose proof (span_nonneg _ _ _ _ H4).
      destruct (header_decode s GC_FREE ltac:(lia) H3) as [Ds Df].
      cbn [major_alloc_scan]. rewrite bind_gets.
      rewrite (proj2 (Z.ltb_lt a (major_hi st))) by lia.
      rewrite bind_CHUNK_FLAGS by solve_mapped. rewrite H1, Df. cbn [negb color_val Z.eqb].
      rewrite bind_CHUNK_SIZE by solve_mapped. rewrite H1, Ds.
      rewrite (proj2 (Z.ltb_ge s (wrap32 req))) by lia.
      rewrite (IH (a + s) b f); [reflexivity|auto..]; [lia|cbn [length] in Hf; lia].
  Qed.

  (** The walk stops at a chunk that is not free or is too small. *)
Lemma scan_stop b s c f :
    load_le 4 (gc_mem st) b = header s c -> 0 < s < 2 ^ 32 -> s mod 4 = 0 ->
    (c <> GC_FREE \/ s < wrap32 req) -> NULL_PAGE <= b < major_hi st ->
    major_alloc_scan (S f) req b st = Ok (b, st).
  Proof.
    unfold placed in Hpl. intros H1 H2 H3 Hc Hb.
    destruct (header_decode s c ltac:(lia) H3) as [Ds Df].
    cbn [major_alloc_scan]. rewrite bind_gets.
    rewrite (proj2 (Z.ltb_lt b (major_hi st))) by lia.
    rewrite bind_CHUNK_FLAGS by solve_mapped. rewrite H1, Df.
    destruct c; cbn [negb color_val Z.eqb]; try reflexivity.
    rewrite bind_CHUNK_SIZE by solve_mapped. rewrite H1, Ds.
    destruct Hc as [Hc|Hc]; [congruence|].
    now rewrite (proj2 (Z.ltb_lt s (wrap32 req))) by lia.
  Qed.

  (** The walk ends at the end of the arena. *)
Lemma scan_end f : major_alloc_scan (S f) req (major_hi st) st = Ok (major_hi st, st).
  Proof. cbn [major_alloc_scan]. rewrite bind_gets. now rewrite Z.ltb_irrefl. Qed.

  (** The result of the walk over a tiled arena. *)
Lemma major_alloc_scan_spec l fuel :
    heap_repr (gc_mem st) (major_lo st) (major_hi st) l -> (length l < fuel)%nat ->
    major_alloc_scan fuel req (major_lo st) st =
    Ok (match alloc_stop (wrap32 req) (major_lo st) l with Some (b, _) => b | None => major_hi st end, st).
  Proof.
    intros H Hf. pose proof Hpl as Hp. unfold placed in Hp.
    destruct (alloc_stop (wrap32 req) (major_lo st) l) as [[b s]|] eqn:E.
    - apply alloc_stop_Some in E as (pre & c & post & -> & F & Hc & ->).
      apply heap_repr_app in H as (b & Hpre & Hpost).
      pose proof (heap_repr_span _ _ _ _ Hpre) as ->.
      cbn [heap_repr] in Hpost. destruct Hpost as (H1 & H2 & H3 & H4).
      pose proof (span_nonneg _ _ _ _ H4). pose proof (span_nonneg _ _ _ _ Hpre).
      rewrite length_app in Hf. cbn [length] in Hf.
      rewrite (scan_skip pre (major_lo st) (major_lo st + span pre) fuel); auto;
        try (unfold major_lo, major_hi, GC_MINHEAP_SIZE, GC_MAJHEAP_SIZE in *; lia).
      destruct (fuel - length pre)%nat as [|f] eqn:Ef; [exfalso; lia|].
      apply scan_stop with s c; auto.
      unfold major_lo, major_hi, GC_MINHEAP_SIZE, GC_MAJHEAP_SIZE in *. lia.
    - apply alloc_stop_None in E.
      rewrite (scan_skip l (major_lo st) (major_hi st) fuel); auto;
        try (unfold major_lo, major_hi, GC_MINHEAP_SIZE, GC_MAJHEAP_SIZE in *; lia).
      destruct (fuel - length l)%nat as [|f] eqn:Ef; [exfalso; lia|].
      apply scan_end.
  Qed.
End Scan.

Lemma size_bits_mul4 s : 0 <= s -> s mod 4 = 0 -> size_bits s = s.
Proof.
  intros. pose proof (header_decode s GC_FREE H H0) as [D _].
  unfold header in D. cbn [color_val] in D. now rewrite Z.add_0_r in D.
Qed.

(** A positive request that does not overflow [int] becomes a
    header-inclusive size of at least 8 bytes, a multiple of four. *)
Lemma request_size_bounds n : 0 < n <= 2 ^ 31 - 8 ->
  request_size n = ALIGN n + 4 /\ 8 <= request_size n < 2 ^ 31 /\ request_size n mod 4 = 0.
Proof.
  intros Hn. destruct (ALIGN_round n ltac:(lia)) as [Hm Hb].
  unfold request_size, WITH_HEADER, INT_SIZE.
  rewrite to_int32_small by (unfold int32_range; lia).
  split; [reflexivity|]. pose proof (Z.div_mod (ALIGN n) 4). split; [lia|].
  rewrite Zplus_mod, Hm. reflexivity.
Qed.

(** Once the walk has stopped inside the arena at a chunk of size [s],
    [gc_major_alloc] rewrites two headers and returns the payload. *)
Lemma gc_major_alloc_stop st fuel n a s c :
  placed st -> 0 < n <= 2 ^ 31 - 8 ->
  major_alloc_scan fuel (request_size n) (major_lo st) st = Ok (a, st) ->
  major_lo st <= a < major_hi st ->
  load_le 4 (gc_mem st) a = header s c -> 0 <= s < 2 ^ 32 -> s mod 4 = 0 ->
  gc_major_alloc fuel n st =
  Ok (a + 4, set_mem st (store_le 4 (store_le 4 (store_le 4 (gc_mem st) a s) a (Z.lor s 1))
                                 (a + request_size n) (s - request_size n))).
Proof.
  intros Hpl Hn Hscan Ha H1 H2 H3. destruct (request_size_bounds n Hn) as (_ & Hr & Hr4).
  pose proof Hpl as Hp. unfold placed in Hp.
  destruct (header_decode s c ltac:(lia) H3) as [Ds Df].
  unfold gc_major_alloc. rewrite (proj2 (Z.eqb_neq n 0)) by lia.
  cbv zeta. rewrite bind_gets, (bind_Ok _ _ _ _ _ Hscan), bind_gets.
  unfold major_lo, major_hi, GC_MINHEAP_SIZE, GC_MAJHEAP_SIZE in *.
  rewrite (proj2 (Z.leb_gt _ a)) by lia.
  rewrite bind_CHUNK_SIZE by solve_mapped. rewrite H1, Ds.
  rewrite bind_set_FLAGS by solve_mapped.
  rewrite bind_MARK_CHUNK by solve_mapped. rewrite set_mem_mem.
  rewrite load_store_le_same. change (2 ^ (8 * Z.of_nat 4)) with (2 ^ 32).
  rewrite (Z.mod_small s), size_bits_mul4 by lia.
  rewrite bind_set_FLAGS by solve_mapped. rewrite !set_mem_mem, !set_mem_set_mem.
  reflexivity.
Qed.

(** The whole of [gc_major_alloc] on a tiled arena: no chunk stops the
    walk and the result is null, or the walk stops at chunk [(a, s)]:
    its header is rewritten to size [s] and color white, a header of
    [s - req] is written [req] bytes further, and [a + 4] is returned. *)
Lemma gc_major_alloc_Ok st l fuel n :
  placed st -> heap_repr (gc_mem st) (major_lo st) (major_hi st) l -> (length l < fuel)%nat ->
  0 < n <= 2 ^ 31 - 8 ->
  gc_major_alloc fuel n st =
  match alloc_stop (request_size n) (major_lo st) l with
  | None => Ok (0, st)
  | Some (a, s) =>
      Ok (a + 4, set_mem st (store_le 4 (store_le 4 (store_le 4 (gc_mem st) a s) a (Z.lor s 1))
                                     (a + request_size n) (s - request_size n)))
  end.
Proof.
  intros Hpl H Hf Hn. destruct (request_size_bounds n Hn) as (_ & Hr & Hr4).
  pose proof (major_alloc_scan_spec st (request_size n) Hpl l fuel H Hf) as Hscan.
  rewrite wrap32_small in Hscan by lia.
  destruct (alloc_stop (request_size n) (major_lo st) l) as [[a s]|] eqn:E.
  - apply alloc_stop_Some in E as (pre & c & post & -> & F & Hc & ->).
    apply heap_repr_app in H as (b & Hpre & Hpost).
    pose proof (heap_repr_span _ _ _ _ Hpre) as ->.
    cbn [heap_repr] in Hpost. destruct Hpost as (H1 & H2 & H3 & H4).
    pose proof (span_nonneg _ _ _ _ H4). pose proof (span_nonneg _ _ _ _ Hpre).
    apply gc_major_alloc_stop with c; auto; lia.
  - unfold gc_major_alloc. rewrite (proj2 (Z.eqb_neq n 0)) by lia.
    cbv zeta. rewrite bind_gets, (bind_Ok _ _ _ _ _ Hscan), bind_gets.
    now rewrite Z.leb_refl.
Qed.

(** Arithmetic on arena addresses. *)
Ltac arena_lia :=
  unfold placed, major_lo, major_hi, GC_MINHEAP_SIZE, GC_MAJHEAP_SIZE, NULL_PAGE, USER_TOP in *;
  cbn [set_mem gc_base gc_mem] in *; lia.

(** The header of the chosen chunk after [gc_major_alloc]: size [s], white. *)
Lemma alloc_header_after m a s r v :
  0 <= s < 2 ^ 32 -> s mod 4 = 0 -> (r >= 4 \/ r <= - 4) ->
  load_le 4 (store_le 4 (store_le 4 (store_le 4 m a s) a (Z.lor s 1)) (a + r) v) a = header s GC_WHITE.
Proof.
  intros Hs Hm Hr. rewrite load_store_le_disjoint by (simpl; lia).
  rewrite load_store_le_same. change (2 ^ (8 * Z.of_nat 4)) with (2 ^ 32).
  replace s with (4 * (s / 4)) at 1 by (pose proof (Z.div_mod s 4); lia).
  rewrite lor_mul4_small by lia. unfold header. cbn [color_val].
  rewrite Z.mod_small; pose proof (Z.div_mod s 4); lia.
Qed.

(** The stores of [gc_major_alloc] all lie at or after the chosen chunk. *)
Lemma alloc_stores_outside m a s r v x :
  x < a -> 0 <= r ->
  store_le 4 (store_le 4 (store_le 4 m a s) a (Z.lor s 1)) (a + r) v x = m x.
Proof. intros. rewrite !store_le_outside by (simpl; lia). reflexivity. Qed.

(** Decomposition of a successful, non-null allocation. *)
Lemma gc_major_alloc_nonnull st l fuel n p st' :
  placed st -> heap_repr (gc_mem st) (major_lo st) (major_hi st) l -> (length l < fuel)%nat ->
  0 < n <= 2 ^ 31 - 8 -> gc_major_alloc fuel n st = Ok (p, st') -> p <> 0 ->
  exists pre s c post, l = pre ++ (s, c) :: post /\ p = major_lo st + span pre + 4 /\
    Forall (fits (request_size n)) pre /\ (c <> GC_FREE \/ s < request_size n) /\
    heap_repr (gc_mem st) (major_lo st) (major_lo st + span pre) pre /\
    load_le 4 (gc_mem st) (major_lo st + span pre) = header s c /\ 0 < s < 2 ^ 32 /\ s mod 4 = 0 /\
    major_lo st + span pre + s <= major_hi st /\
    st' = set_mem st (store_le 4 (store_le 4 (store_le 4 (gc_mem st) (p - 4) s) (p - 4) (Z.lor s 1))
                        (p - 4 + request_size n) (s - request_size n)).
Proof.
  intros Hpl H Hf Hn E Hp. rewrite (gc_major_alloc_Ok st l fuel n Hpl H Hf Hn) in E.
  destruct (alloc_stop (request_size n) (major_lo st) l) as [[a s]|] eqn:A.
  2:{ injection E as <- _. congruence. }
  injection E as <- <-.
  apply alloc_stop_Some in A as (pre & c & post & -> & F & Hc & ->).
  apply heap_repr_app in H as (b & Hpre & Hpost).
  pose proof (heap_repr_span _ _ _ _ Hpre) as ->.
  cbn [heap_repr] in Hpost. destruct Hpost as (H1 & H2 & H3 & H4).
  pose proof (span_nonneg _ _ _ _ H4).
  exists pre, s, c, post. repeat (split; [first [reflexivity|assumption|lia]|]).
  replace (major_lo st + span pre + 4 - 4) with (major_lo st + span pre) by lia. reflexivity.
Qed.

(** ** Properties of the old-generation allocator. *)

(** C21. [gc_major_alloc] refines a walk over the abstract chunk list: on a
    tiled arena it terminates, and it returns null when every chunk is
    free and large enough, or else rewrites the header of the first
    chunk that is not free or too small to size [s] and white, writes a
    header [s - req] [req] bytes further, and returns that chunk. *)
Theorem gc_major_alloc_refines st l fuel n :
  placed st -> heap_repr (gc_mem st) (major_lo st) (major_hi st) l -> (length l < fuel)%nat ->
  0 < n <= 2 ^ 31 - 8 ->
  gc_major_alloc fuel n st =
  match alloc_stop (request_size n) (major_lo st) l with
  | None => Ok (0, st)
  | Some (a, s) =>
      Ok (a + 4, set_mem st (store_le 4 (store_le 4 (store_le 4 (gc_mem st) a s) a (Z.lor s 1))
                                     (a + request_size n) (s - request_size n)))
  end.
Proof. apply gc_major_alloc_Ok. Qed.

(** C3. The allocation loop breaks at the first chunk that is not free
    or is too small, and takes that chunk: a non-null result is never a
    free chunk large enough for the request (every chunk before it is),
    and the chunk is recolored white with its old size. *)
Theorem gc_major_alloc_takes_unfit_chunk st l fuel n p st' :
  placed st -> heap_repr (gc_mem st) (major_lo st) (major_hi st) l -> (length l < fuel)%nat ->
  0 < n <= 2 ^ 31 - 8 -> gc_major_alloc fuel n st = Ok (p, st') -> p <> 0 ->
  exists pre s c post, l = pre ++ (s, c) :: post /\ p = major_lo st + span pre + 4 /\
    Forall (fits (request_size n)) pre /\ (c <> GC_FREE \/ s < request_size n) /\
    CHUNK_FLAGS (p - 4) st' = Ok (color_val GC_WHITE, st') /\ CHUNK_SIZE (p - 4) st' = Ok (s, st').
Proof.
  intros Hpl H Hf Hn E Hp.
  destruct (gc_major_alloc_nonnull st l fuel n p st' Hpl H Hf Hn E Hp)
    as (pre & s & c & post & Hl & -> & F & Hc & Hpre & H1 & H2 & H3 & Hle & ->).
  destruct (request_size_bounds n Hn) as (_ & Hr & _).
  pose proof Hpl as Hp'. unfold placed in Hp'. pose proof (span_nonneg _ _ _ _ Hpre).
  destruct (header_decode s GC_WHITE ltac:(lia) H3) as [Ds Df].
  exists pre, s, c, post. do 4 (split; [assumption || reflexivity|]).
  assert (Hm : mapped (major_lo st + span pre + 4 - 4) 4 = true)
    by (unfold major_lo, major_hi, GC_MINHEAP_SIZE, GC_MAJHEAP_SIZE in *; solve_mapped).
  unfold CHUNK_FLAGS, CHUNK_SIZE, FLAGS.
  rewrite !(bind_Ok _ _ _ _ _ (load_Ok _ 4 _ Hm)).
  rewrite set_mem_mem, alloc_header_after, Ds, Df by lia. split; reflexivity.
Qed.

(** [gc_major_alloc] on an arena that is one free chunk. *)
Lemma alloc_fresh_null st fuel n :
  placed st -> load_le 4 (gc_mem st) (major_lo st) = header GC_MAJHEAP_SIZE GC_FREE ->
  (1 < fuel)%nat -> 0 < n <= GC_MAJHEAP_SIZE - 8 ->
  gc_major_alloc fuel n st = Ok (0, st).
Proof.
  intros Hpl H Hf Hn. unfold GC_MAJHEAP_SIZE in Hn.
  rewrite (gc_major_alloc_Ok st [(GC_MAJHEAP_SIZE, GC_FREE)] fuel n Hpl); [|cbn; unfold major_lo, major_hi, GC_MAJHEAP_SIZE in *; repeat split; auto; lia|cbn; lia|lia].
  destruct (request_size_bounds n ltac:(lia)) as (E & _).
  destruct (ALIGN_round n ltac:(lia)) as [_ Hb].
  cbn [alloc_stop]. rewrite (proj2 (Z.ltb_ge _ _)) by (unfold GC_MAJHEAP_SIZE; lia). reflexivity.
Qed.

(** C18. On an arena that is one free chunk spanning all of it, every
    request that fits returns null: the loop walks past the suitable
    chunk to the end of the arena. *)
Theorem gc_major_alloc_fresh_arena_null st fuel n :
  placed st -> load_le 4 (gc_mem st) (major_lo st) = header GC_MAJHEAP_SIZE GC_FREE ->
  (1 < fuel)%nat -> 0 < n <= GC_MAJHEAP_SIZE - 8 ->
  gc_major_alloc fuel n st = Ok (0, st).
Proof. exact (alloc_fresh_null st fuel n). Qed.

(** C4. The chunk [gc_major_alloc] hands out stays the place where the
    next walk stops, since it is now white: two successive allocations
    of the same size return the same address. *)
Theorem gc_major_alloc_aliases st l fuel n p st1 :
  placed st -> heap_repr (gc_mem st) (major_lo st) (major_hi st) l -> (length l < fuel)%nat ->
  0 < n <= 2 ^ 31 - 8 -> gc_major_alloc fuel n st = Ok (p, st1) -> p <> 0 ->
  exists st2, gc_major_alloc fuel n st1 = Ok (p, st2).
Proof.
  intros Hpl H Hf Hn E Hp.
  destruct (gc_major_alloc_nonnull st l fuel n p st1 Hpl H Hf Hn E Hp)
    as (pre & s & c & post & -> & -> & F & Hc & Hpre & H1 & H2 & H3 & Hle & ->).
  destruct (request_size_bounds n Hn) as (_ & Hr & _).
  pose proof Hpl as Hp'. unfold placed in Hp'. pose proof (span_nonneg _ _ _ _ Hpre).
  rewrite length_app in Hf. cbn [length] in Hf.
  set (a := major_lo st + span pre) in *. replace (a + 4 - 4) with a by lia.
  set (st1 := set_mem st _).
  assert (Hpl1 : placed st1) by exact Hpl.
  assert (Hrep1 : heap_repr (gc_mem st1) (major_lo st1) a pre).
  { apply (heap_repr_ext (gc_mem st)); [exact Hpre|]. intros x Hx.
    apply alloc_stores_outside; lia. }
  assert (Hhd1 : load_le 4 (gc_mem st1) a = header s GC_WHITE) by (apply alloc_header_after; lia).
  assert (Hscan : major_alloc_scan fuel (request_size n) (major_lo st1) st1 = Ok (a, st1)).
  { rewrite (scan_skip st1 (request_size n) Hpl1 pre (major_lo st1) a fuel Hrep1);
      [|rewrite wrap32_small by lia; exact F|unfold st1 in *; arena_lia
       |unfold st1 in *; arena_lia|lia].
    destruct (fuel - length pre)%nat as [|f] eqn:Ef; [exfalso; lia|].
    apply scan_stop with s GC_WHITE; auto;
      first [lia | (left; discriminate) | (unfold st1 in *; arena_lia)]. }
  eexists. apply (gc_major_alloc_stop st1 fuel n a s GC_WHITE); auto; try lia.
  unfold st1 in *; arena_lia.
Qed.

(** ** The walk of [find_major_chunk]. *)
Section Find.
Context (st : collector) (p : Z).
Hypothesis Hpl : placed st.

Lemma find_major_loop_run l : forall a fuel,
    heap_repr (gc_mem st) a (major_hi st) l -> NULL_PAGE <= a ->
    find_major_loop fuel p a st =
      Ok (match chunk_containing p a l with Some b => b | None => major_hi st end, st) \/
    ((fuel <= length l)%nat /\ find_major_loop fuel p a st = Fail OutOfFuel).
  Proof.
    pose proof Hpl as Hp. unfold placed in Hp.
    induction l as [|[s c] l IH]; intros a fuel H Ha;
      (destruct fuel as [|f]; [right; split; [lia|reflexivity]|]);
      cbn [find_major_loop chunk_containing].
    - cbn [heap_repr] in H. subst a. left.
      destruct (Z.leb_spec (major_hi st) p).
      + rewrite bind_assoc, bind_CHUNK_SIZE by (unfold major_hi in *; solve_mapped).
        rewrite bind_ret_l, bind_gets, Z.ltb_irrefl, andb_false_r. reflexivity.
      + rewrite bind_ret_l, bind_gets, Z.ltb_irrefl, andb_false_r. reflexivity.
    - cbn [heap_repr] in H. destruct H as (H1 & H2 & H3 & H4).
      pose proof (span_nonneg _ _ _ _ H4).
      destruct (header_decode s c ltac:(lia) H3) as [Ds _].
      assert (Hm : mapped a 4 = true) by (unfold major_hi in *; solve_mapped).
      assert (Hstep : find_major_loop f p (a + s) st =
                Ok (match chunk_containing p (a + s) l with Some b => b | None => major_hi st end, st) \/
              ((S f <= length ((s, c) :: l))%nat /\ find_major_loop f p (a + s) st = Fail OutOfFuel)).
      { destruct (IH (a + s) f H4 ltac:(lia)) as [E|[Hf E]]; [left; exact E|right; cbn; split; [lia|exact E]]. }
      destruct (Z.leb_spec a p).
      + rewrite bind_assoc, bind_CHUNK_SIZE by exact Hm. rewrite H1, Ds.
        rewrite bind_ret_l, bind_gets.
        destruct (Z.ltb_spec p (a + s)); cbn [negb andb].
        * left. reflexivity.
        * rewrite (proj2 (Z.ltb_lt a _)) by lia.
          rewrite bind_CHUNK_SIZE by exact Hm. rewrite H1, Ds. exact Hstep.
      + rewrite bind_ret_l, bind_gets. cbn [negb andb].
        rewrite (proj2 (Z.ltb_lt a _)) by lia.
        rewrite bind_CHUNK_SIZE by exact Hm. rewrite H1, Ds. exact Hstep.
  Qed.

Lemma find_major_loop_spec l : forall a fuel,
    heap_repr (gc_mem st) a (major_hi st) l -> NULL_PAGE <= a -> (length l < fuel)%nat ->
    find_major_loop fuel p a st =
    Ok (match chunk_containing p a l with Some b => b | None => major_hi st end, st).
  Proof.
    intros a fuel H Ha Hf. destruct (find_major_loop_run l a fuel H Ha) as [E|[Hf' _]]; [exact E|lia].
  Qed.

Lemma chunk_containing_bounds l : forall a b, chunk_containing p a l = Some b ->
    forall hi, heap_repr (gc_mem st) a hi l -> a <= b < hi.
  Proof.
    induction l as [|[s c] l IH]; intros a b E hi H; cbn [chunk_containing heap_repr] in *;
      [discriminate|].
    destruct H as (_ & H2 & _ & H4). pose proof (span_nonneg _ _ _ _ H4).
    destruct ((a <=? p) && (p <? a + s)) eqn:T.
    - injection E as <-. lia.
    - apply IH with (hi := hi) in E; auto. lia.
  Qed.

  (** On a tiled arena, [find_major_chunk] returns the chunk containing
      the address, or null when no chunk does. *)
Lemma find_major_chunk_Ok l fuel :
    heap_repr (gc_mem st) (major_lo st) (major_hi st) l -> (length l < fuel)%nat ->
    find_major_chunk fuel p st =
    Ok (match chunk_containing p (major_lo st) l with Some b => b | None => 0 end, st).
  Proof.
    intros H Hf. pose proof Hpl as Hp. unfold placed in Hp.
    unfold find_major_chunk. rewrite bind_gets.
    rewrite (bind_Ok _ _ _ _ _ (find_major_loop_spec l (major_lo st) fuel H
               ltac:(unfold major_lo, GC_MINHEAP_SIZE in *; lia) Hf)).
    rewrite bind_gets.
    destruct (chunk_containing p (major_lo st) l) as [b|] eqn:E.
    - apply chunk_containing_bounds with (hi := major_hi st) in E; [|exact H].
      now rewrite (proj2 (Z.ltb_lt _ _)) by lia.
    - now rewrite Z.ltb_irrefl.
  Qed.

  (** With any fuel, [find_major_chunk] on a tiled arena gives the
      chunk containing the address, null, or runs out of fuel. *)
Lemma find_major_chunk_run l fuel :
    heap_repr (gc_mem st) (major_lo st) (major_hi st) l ->
    find_major_chunk fuel p st =
      Ok (match chunk_containing p (major_lo st) l with Some b => b | None => 0 end, st) \/
    find_major_chunk fuel p st = Fail OutOfFuel.
  Proof.
    intros H. destruct (le_lt_dec fuel (length l)) as [Hf|Hf]; [|left; apply find_major_chunk_Ok; auto].
    pose proof Hpl as Hp. unfold placed in Hp.
    destruct (find_major_loop_run l (major_lo st) fuel H ltac:(unfold major_lo, GC_MINHEAP_SIZE in *; lia))
      as [E|[_ E]].
    - left. unfold find_major_chunk. rewrite bind_gets, (bind_Ok _ _ _ _ _ E), bind_gets.
      destruct (chunk_containing p (major_lo st) l) as [b|] eqn:C.
      + apply chunk_containing_bounds with (hi := major_hi st) in C; [|exact H].
        now rewrite (proj2 (Z.ltb_lt _ _)) by lia.
      + now rewrite Z.ltb_irrefl.
    - right. unfold find_major_chunk. rewrite bind_gets. unfold bind at 1. now rewrite E.
  Qed.

  (** A chunk of size 0 that does not contain [p] is never left. *)
Lemma find_major_loop_stuck a fuel :
    NULL_PAGE <= a < major_hi st -> size_bits (load_le 4 (gc_mem st) a) = 0 ->
    find_major_loop fuel p a st = Fail OutOfFuel.
  Proof.
    pose proof Hpl as Hp. unfold placed in Hp. intros Ha H0.
    assert (Hm : mapped a 4 = true) by (unfold major_hi in *; solve_mapped).
    induction fuel as [|f IH]; [reflexivity|]. cbn [find_major_loop].
    assert (E : bind (if a <=? p then s <- CHUNK_SIZE a ;; ret (p <? a + s) else ret false)
                  (fun inside => hi <- gets major_hi ;;
                     if negb inside && (a <? hi) then s <- CHUNK_SIZE a ;; find_major_loop f p (a + s)
                     else ret a) st
               = bind (CHUNK_SIZE a) (fun s => find_major_loop f p (a + s)) st).
    { destruct (Z.leb_spec a p).
      - rewrite bind_assoc, bind_CHUNK_SIZE by exact Hm. rewrite H0, Z.add_0_r.
        rewrite bind_ret_l, bind_gets, (proj2 (Z.ltb_ge p a)) by lia. cbn [negb andb].
        now rewrite (proj2 (Z.ltb_lt a _)) by lia.
      - rewrite bind_ret_l, bind_gets. cbn [negb andb].
        now rewrite (proj2 (Z.ltb_lt a _)) by lia. }
    rewrite E, bind_CHUNK_SIZE, H0, Z.add_0_r by exact Hm. exact IH.
  Qed.
End Find.

(** C23. On a tiled arena, [find_major_chunk] terminates and returns the
    chunk that contains the address, or null when none does (an address
    outside the arena included). *)
Theorem find_major_chunk_finds st l fuel p :
  placed st -> heap_repr (gc_mem st) (major_lo st) (major_hi st) l -> (length l < fuel)%nat ->
  find_major_chunk fuel p st =
  Ok (match chunk_containing p (major_lo st) l with Some b => b | None => 0 end, st).
Proof. intros Hpl. apply find_major_chunk_Ok, Hpl. Qed.

(** C20. When the first header of the arena has size 0 (the arena as
    [gc_new] leaves zeroed memory: nothing writes an initial free chunk)
    [find_major_chunk] does not terminate, whatever address it is given. *)
Theorem find_major_chunk_zero_diverges st fuel p :
  placed st -> size_bits (load_le 4 (gc_mem st) (major_lo st)) = 0 ->
  find_major_chunk fuel p st = Fail OutOfFuel.
Proof.
  intros Hpl H0. pose proof Hpl as Hp. unfold placed in Hp.
  unfold find_major_chunk. rewrite bind_gets. unfold bind at 1.
  rewrite (find_major_loop_stuck st p Hpl); [reflexivity| |exact H0].
  unfold major_lo, major_hi, GC_MINHEAP_SIZE, GC_MAJHEAP_SIZE in *. lia.
Qed.

(** ** Witnesses of the allocator properties. *)

Lemma placed_arena l : placed (arena_gc l).
Proof. unfold placed, arena_gc, major_hi, GC_MINHEAP_SIZE, GC_MAJHEAP_SIZE, NULL_PAGE, USER_TOP. cbn. lia. Qed.

Lemma two_chunks_repr :
  heap_repr (gc_mem (arena_gc two_chunks)) (major_lo (arena_gc two_chunks))
            (major_hi (arena_gc two_chunks)) two_chunks.
Proof. vm_compute. repeat split; try reflexivity; discriminate. Qed.

Lemma gc_major_alloc_refines_witness :
  gc_major_alloc 3 10 (arena_gc two_chunks) =
  match alloc_stop (request_size 10) (major_lo (arena_gc two_chunks)) two_chunks with
  | None => Ok (0, arena_gc two_chunks)
  | Some (a, s) =>
      Ok (a + 4, set_mem (arena_gc two_chunks)
               (store_le 4 (store_le 4 (store_le 4 (gc_mem (arena_gc two_chunks)) a s) a (Z.lor s 1))
                  (a + request_size 10) (s - request_size 10)))
  end.
Proof.
  apply gc_major_alloc_refines; [apply placed_arena|apply two_chunks_repr|cbn; lia|lia].
Defined.

Lemma gc_major_alloc_takes_unfit_chunk_witness :
  exists p st', gc_major_alloc 3 10 (arena_gc two_chunks) = Ok (p, st') /\ p <> 0 /\
  exists pre s c post, two_chunks = pre ++ (s, c) :: post /\
    p = major_lo (arena_gc two_chunks) + span pre + 4 /\
    Forall (fits (request_size 10)) pre /\ (c <> GC_FREE \/ s < request_size 10) /\
    CHUNK_FLAGS (p - 4) st' = Ok (color_val GC_WHITE, st') /\ CHUNK_SIZE (p - 4) st' = Ok (s, st').
Proof.
  exists (major_lo sample_gc + 4), (final_state (gc_major_alloc 3 10) (arena_gc two_chunks)).
  assert (E : gc_major_alloc 3 10 (arena_gc two_chunks) =
              Ok (major_lo sample_gc + 4, final_state (gc_major_alloc 3 10) (arena_gc two_chunks)))
    by (vm_compute; reflexivity).
  split; [exact E|]. split; [vm_compute; discriminate|].
  apply (gc_major_alloc_takes_unfit_chunk _ two_chunks 3 10);
    [apply placed_arena|apply two_chunks_repr|cbn; lia|lia|exact E|vm_compute; discriminate].
Defined.

Lemma gc_major_alloc_fresh_arena_null_witness :
  gc_major_alloc 2 10 (arena_gc [(GC_MAJHEAP_SIZE, GC_FREE)]) = Ok (0, arena_gc [(GC_MAJHEAP_SIZE, GC_FREE)]).
Proof.
  apply gc_major_alloc_fresh_arena_null;
    [apply placed_arena|vm_compute; reflexivity|lia|unfold GC_MAJHEAP_SIZE; lia].
Defined.

Lemma gc_major_alloc_aliases_witness :
  exists p st1, gc_major_alloc 3 10 (arena_gc two_chunks) = Ok (p, st1) /\ p <> 0 /\
  exists st2, gc_major_alloc 3 10 st1 = Ok (p, st2).
Proof.
  exists (major_lo sample_gc + 4), (final_state (gc_major_alloc 3 10) (arena_gc two_chunks)).
  assert (E : gc_major_alloc 3 10 (arena_gc two_chunks) =
              Ok (major_lo sample_gc + 4, final_state (gc_major_alloc 3 10) (arena_gc two_chunks)))
    by (vm_compute; reflexivity).
  split; [exact E|]. split; [vm_compute; discriminate|].
  apply (gc_major_alloc_aliases (arena_gc two_chunks) two_chunks 3 10);
    [apply placed_arena|apply two_chunks_repr|cbn; lia|lia|exact E|vm_compute; discriminate].
Defined.

Lemma find_major_chunk_finds_witness :
  find_major_chunk 3 (major_lo sample_gc + 30) (arena_gc two_chunks) =
  Ok (match chunk_containing (major_lo sample_gc + 30) (major_lo (arena_gc two_chunks)) two_chunks
      with Some b => b | None => 0 end, arena_gc two_chunks).
Proof. apply find_major_chunk_finds; [apply placed_arena|apply two_chunks_repr|cbn; lia]. Defined.

Lemma find_major_chunk_zero_diverges_witness :
  find_major_chunk 5 (major_lo sample_gc) sample_gc = Fail OutOfFuel.
Proof.
  apply find_major_chunk_zero_diverges; [|vm_compute; reflexivity].
  unfold placed, major_hi, GC_MINHEAP_SIZE, GC_MAJHEAP_SIZE, NULL_PAGE, USER_TOP. cbn. lia.
Defined.
