(* ===== verification/Arena.v ===== *)
(** * The two loops that walk the heap, and the frame of a recoloring

    Two [for] loops recur in the collector: the walk over the chunks of
    the major arena, [for (curr = start; cond; curr = curr + CHUNK_SIZE(curr))]
    (gc.c lines 95, 141, 184, 274), and the walk over the pointer-sized
    fields of a chunk, [for (i = 0; i < PTR_INDEX(CHUNK_SIZE(chunk)); i++)]
    (gc.c lines 81, 106, 216).  [for_chunks] and [for_fields] are those
    loops, with the body as a parameter; both re-read the header at every
    iteration, as the C code does.

    A collection only rewrites chunk headers.  [headers_only hs st st']
    says that [st'] differs from [st] at most in the header words at the
    addresses [hs]; [recolor] is the effect on the abstract chunk list.
    The main lemma, [for_chunks_recolor], runs a chunk walk whose body
    recolors the chunk it is given over a whole tiled arena. *)

From stdpp Require Import base decidable numbers.
From Stdlib Require Import ZArith Lia Bool List.
From S2P Require Import Prelude Memory Layout MajorAlloc.

Import ListNotations.
Open Scope Z_scope.
Open Scope gc_monad_scope.

(** [for (curr = start; cont(curr, end); curr = curr + CHUNK_SIZE(curr)) body(curr);]
    where [end] is the end of the major arena, with at most [n] tests of
    the condition. *)
Fixpoint for_chunks (cont : Z -> Z -> bool) (body : Z -> M unit) (n : nat) (curr : Z) : M unit :=
  match n with
  | O => fail OutOfFuel
  | S n' =>
      hi <- gets major_hi ;;
      if cont curr hi then
        body curr ;;
        s <- CHUNK_SIZE curr ;;
        for_chunks cont body n' (curr + s)
      else ret tt
  end.

(** [for (; i < PTR_INDEX(CHUNK_SIZE(chunk)); i++) body(i);] with at most
    [n] tests of the condition. *)
Fixpoint for_fields (body : Z -> M unit) (chunk : Z) (n : nat) (i : Z) : M unit :=
  match n with
  | O => fail OutOfFuel
  | S n' =>
      s <- CHUNK_SIZE chunk ;;
      if i <? PTR_INDEX s then body i ;; for_fields body chunk n' (i + 1)
      else ret tt
  end.

(** The header addresses of the chunks [l] laid out from [a]. *)
Fixpoint starts (a : Z) (l : list (Z * gc_color)) : list Z :=
  match l with
  | [] => []
  | (s, _) :: l' => a :: starts (a + s) l'
  end.

(** [x] is a byte of none of the header words at [hs]. *)
Definition off_headers (hs : list Z) (x : Z) : Prop := Forall (fun h => x < h \/ h + 4 <= x) hs.

(** [st'] is [st] with at most the header words at [hs] rewritten. *)
Definition headers_only (hs : list Z) (st st' : collector) : Prop :=
  st' = set_mem st (gc_mem st') /\ forall x, off_headers hs x -> gc_mem st' x = gc_mem st x.

(** The chunk list with every color mapped by [g]. *)
Definition recolor (g : gc_color -> gc_color) (l : list (Z * gc_color)) : list (Z * gc_color) :=
  map (fun x => (fst x, g (snd x))) l.

(** [P] holds of every chunk of [l] laid out from [a], at its address. *)
Fixpoint chunks_sat (P : Z -> Z * gc_color -> Prop) (a : Z) (l : list (Z * gc_color)) : Prop :=
  match l with
  | [] => True
  | x :: l' => P a x /\ chunks_sat P (a + fst x) l'
  end.

(** Discharge [mapped] for an address inside the major arena. *)
Ltac arena_mapped :=
  apply mapped_true; unfold placed, major_lo, major_hi, GC_MINHEAP_SIZE, GC_MAJHEAP_SIZE in *;
  cbn [set_mem gc_base gc_mem] in *; lia.

(** ** The frame relation. *)
Section Frame.

Lemma off_headers_app h1 h2 x : off_headers (h1 ++ h2) x <-> off_headers h1 x /\ off_headers h2 x.
Proof. apply Forall_app. Qed.

Lemma set_mem_eta st : set_mem st (gc_mem st) = st.
Proof. now destruct st. Qed.

Lemma headers_only_refl hs st : headers_only hs st st.
Proof. split; [symmetry; apply set_mem_eta|reflexivity]. Qed.

Lemma headers_only_trans hs st1 st2 st3 :
  headers_only hs st1 st2 -> headers_only hs st2 st3 -> headers_only hs st1 st3.
Proof.
  intros [E1 F1] [E2 F2]. split.
  - rewrite E2, E1. reflexivity.
  - intros x Hx. rewrite F2, F1 by exact Hx. reflexivity.
Qed.

Lemma headers_only_mono hs hs' st st' :
  incl hs hs' -> headers_only hs st st' -> headers_only hs' st st'.
Proof.
  intros I [E F]. split; [exact E|]. intros x Hx. apply F.
  unfold off_headers in *. rewrite Forall_forall in *. auto.
Qed.

(** A store of one header word. *)
Lemma headers_only_store st a v :
  headers_only [a] st (set_mem st (store_le 4 (gc_mem st) a v)).
Proof.
  split; [reflexivity|]. intros x Hx. apply store_le_outside.
  inversion Hx; subst. cbn. lia.
Qed.

Lemma headers_only_base hs st st' : headers_only hs st st' ->
  gc_base st' = gc_base st /\ major_lo st' = major_lo st /\ major_hi st' = major_hi st /\
  gc_ref_count st' = gc_ref_count st /\ gc_refs st' = gc_refs st /\ (placed st' <-> placed st).
Proof. intros [E _]. rewrite E. unfold placed, major_lo, major_hi. cbn. repeat split; tauto. Qed.

End Frame.

(** ** Tilings and their headers. *)
Section Tiling.

Lemma starts_app a l1 l2 : starts a (l1 ++ l2) = starts a l1 ++ starts (a + span l1) l2.
Proof.
  revert a. induction l1 as [|[s c] l1 IH]; intros a; cbn [starts app span fst].
  - now rewrite Z.add_0_r.
  - rewrite IH. do 3 f_equal. lia.
Qed.

Lemma span_app l1 l2 : span (l1 ++ l2) = span l1 + span l2.
Proof. induction l1 as [|x l1 IH]; cbn [app span]; lia. Qed.

Lemma span_recolor g l : span (recolor g l) = span l.
Proof. unfold recolor. induction l as [|x l IH]; [reflexivity|]. simpl. now rewrite IH. Qed.

Lemma recolor_app g l1 l2 : recolor g (l1 ++ l2) = recolor g l1 ++ recolor g l2.
Proof. apply map_app. Qed.

Lemma starts_recolor g l a : starts a (recolor g l) = starts a l.
Proof.
  revert a. induction l as [|[s c] l IH]; intros a; cbn; [reflexivity|]. now rewrite IH.
Qed.

Lemma chunk_size_ge4 s : 0 < s -> s mod 4 = 0 -> 4 <= s.
Proof. intros. pose proof (Z.div_mod s 4). lia. Qed.

(** Every header of a tiling lies inside it. *)
Lemma starts_inside m l : forall a b, heap_repr m a b l ->
  Forall (fun h => a <= h /\ h + 4 <= b) (starts a l).
Proof.
  induction l as [|[s c] l IH]; intros a b H; cbn [starts heap_repr] in *; [constructor|].
  destruct H as (_ & H2 & H3 & H4). pose proof (span_nonneg _ _ _ _ H4).
  pose proof (chunk_size_ge4 s ltac:(lia) H3).
  constructor; [lia|]. eapply Forall_impl; [|exact (IH _ _ H4)]. cbn. lia.
Qed.

(** The bytes of a chunk after its header are bytes of no header. *)
Lemma chunk_body_off_headers m lo hi pre s c post x :
  heap_repr m lo hi (pre ++ (s, c) :: post) ->
  lo + span pre + 4 <= x < lo + span pre + s ->
  off_headers (starts lo (pre ++ (s, c) :: post)) x.
Proof.
  intros H Hx. apply heap_repr_app in H as (b & Hpre & Hpost).
  pose proof (heap_repr_span _ _ _ _ Hpre) as ->.
  cbn [heap_repr] in Hpost. destruct Hpost as (_ & _ & _ & Hpost).
  rewrite starts_app. apply off_headers_app. split.
  - eapply Forall_impl; [|exact (starts_inside _ _ _ _ Hpre)]. cbn. lia.
  - cbn [starts]. constructor; [lia|].
    eapply Forall_impl; [|exact (starts_inside _ _ _ _ Hpost)]. cbn. lia.
Qed.

(** Rewriting the header of one chunk, with its size kept, recolors it. *)
Lemma heap_repr_recolor_at m m' lo hi pre s c c' post :
  heap_repr m lo hi (pre ++ (s, c) :: post) ->
  (forall x, x < lo + span pre \/ lo + span pre + 4 <= x -> m' x = m x) ->
  load_le 4 m' (lo + span pre) = header s c' ->
  heap_repr m' lo hi (pre ++ (s, c') :: post).
Proof.
  intros H E Hh. apply heap_repr_app in H as (b & Hpre & Hpost).
  pose proof (heap_repr_span _ _ _ _ Hpre) as Eb. subst b.
  cbn [heap_repr] in Hpost. destruct Hpost as (H1 & H2 & H3 & H4).
  pose proof (chunk_size_ge4 s ltac:(lia) H3).
  apply heap_repr_app. exists (lo + span pre). split.
  - apply (heap_repr_ext m); [exact Hpre|]. intros x Hx. apply E. lia.
  - cbn [heap_repr]. split; [exact Hh|]. split; [exact H2|]. split; [exact H3|].
    apply (heap_repr_ext m); [exact H4|]. pose proof (span_nonneg _ _ _ _ H4).
    intros x Hx. apply E. lia.
Qed.

Lemma chunk_containing_Some p l : forall a b, chunk_containing p a l = Some b ->
  exists pre s c post, l = pre ++ (s, c) :: post /\ b = a + span pre /\ b <= p < b + s.
Proof.
  induction l as [|[s c] l IH]; intros a b E; cbn [chunk_containing] in E; [discriminate|].
  destruct ((a <=? p) && (p <? a + s)) eqn:T.
  - injection E as <-. apply andb_true_iff in T as [T1 T2].
    apply Z.leb_le in T1. apply Z.ltb_lt in T2.
    exists [], s, c, l. cbn. repeat split; lia.
  - apply IH in E as (pre & s' & c' & post & -> & -> & Hb).
    exists ((s, c) :: pre), s', c', post. cbn [app span fst]. repeat split; lia.
Qed.

Lemma chunks_sat_app P l1 l2 : forall a,
  chunks_sat P a (l1 ++ l2) <-> chunks_sat P a l1 /\ chunks_sat P (a + span l1) l2.
Proof.
  induction l1 as [|x l1 IH]; intros a; cbn [app chunks_sat span].
  - rewrite Z.add_0_r. tauto.
  - rewrite IH. rewrite Z.add_assoc. tauto.
Qed.

End Tiling.

(** ** A chunk walk whose body recolors the chunk it visits. *)
Section Walk.
Context (st0 : collector) (l : list (Z * gc_color)).
Context (cont : Z -> Z -> bool) (body : Z -> M unit) (g : gc_color -> gc_color).
Context (P : Z -> Z * gc_color -> Prop).
Hypothesis Hpl : placed st0.
Hypothesis Hcont : forall a hi, NULL_PAGE <= a -> cont a hi = (a <? hi).
Hypothesis Hbody : forall st pre s c post,
  headers_only (starts (major_lo st0) l) st0 st ->
  starts (major_lo st0) (pre ++ (s, c) :: post) = starts (major_lo st0) l ->
  heap_repr (gc_mem st) (major_lo st0) (major_hi st0) (pre ++ (s, c) :: post) ->
  P (major_lo st0 + span pre) (s, c) ->
  exists st', body (major_lo st0 + span pre) st = Ok (tt, st') /\
    headers_only [major_lo st0 + span pre] st st' /\
    load_le 4 (gc_mem st') (major_lo st0 + span pre) = header s (g c).

Lemma for_chunks_from todo : forall done st n,
  l = done ++ todo ->
  headers_only (starts (major_lo st0) l) st0 st ->
  heap_repr (gc_mem st) (major_lo st0) (major_hi st0) (recolor g done ++ todo) ->
  chunks_sat P (major_lo st0 + span done) todo ->
  (length todo < n)%nat ->
  exists st1, for_chunks cont body n (major_lo st0 + span done) st = Ok (tt, st1) /\
    headers_only (starts (major_lo st0) l) st0 st1 /\
    heap_repr (gc_mem st1) (major_lo st0) (major_hi st0) (recolor g l).
Proof.
  pose proof Hpl as Hp. unfold placed in Hp.
  induction todo as [|[s c] todo IH]; intros done st n El Hst Hrep Hsat Hn;
    (destruct n as [|n]; [cbn [length] in Hn; lia|]); cbn [for_chunks];
    destruct (headers_only_base _ _ _ Hst) as (_ & Elo & Ehi & _);
    rewrite bind_gets, Ehi.
  - rewrite app_nil_r in Hrep, El. subst l.
    pose proof (heap_repr_span _ _ _ _ Hrep) as Eh. rewrite span_recolor in Eh.
    pose proof (span_nonneg _ _ _ _ Hrep).
    rewrite Hcont, (proj2 (Z.ltb_ge _ (major_hi st0))) by arena_lia.
    exists st. split; [reflexivity|split; assumption].
  - pose proof Hrep as Hrep'. apply heap_repr_app in Hrep' as (b & Hpre & Hpost).
    pose proof (heap_repr_span _ _ _ _ Hpre) as Eb. rewrite span_recolor in Eb. subst b.
    cbn [heap_repr] in Hpost. destruct Hpost as (H1 & H2 & H3 & H4).
    pose proof (span_nonneg _ _ _ _ H4). pose proof (span_nonneg _ _ _ _ Hpre).
    rewrite Hcont, (proj2 (Z.ltb_lt (major_lo st0 + span done) _)) by arena_lia.
    cbn [chunks_sat fst] in Hsat. destruct Hsat as [HP Hsat].
    destruct (Hbody st (recolor g done) s c todo Hst) as (st' & Eb & Hh & Hhd);
      [rewrite El, !starts_app, starts_recolor, span_recolor; reflexivity|exact Hrep
      |rewrite span_recolor; exact HP|].
    rewrite span_recolor in Eb, Hh, Hhd.
    rewrite (bind_Ok _ _ _ _ _ Eb).
    rewrite bind_CHUNK_SIZE by arena_mapped.
    rewrite Hhd. destruct (header_decode s (g c) ltac:(lia) H3) as [Ds _]. rewrite Ds.
    replace (major_lo st0 + span done + s) with (major_lo st0 + span (done ++ [(s, c)]))
      by (rewrite span_app; cbn [span fst]; lia).
    apply IH.
    + rewrite El, <- app_assoc. reflexivity.
    + apply headers_only_trans with st; [exact Hst|].
      apply (headers_only_mono [major_lo st0 + span done]); [|exact Hh].
      intros x [<-|[]]. rewrite El, starts_app. apply in_or_app. right. left. reflexivity.
    + rewrite recolor_app, <- app_assoc. cbn [recolor map fst snd app].
      apply (heap_repr_recolor_at (gc_mem st) _ _ _ _ s c); [exact Hrep| |];
        rewrite span_recolor; [|exact Hhd].
      intros x Hx. apply (proj2 Hh). constructor; [lia|constructor].
    + rewrite span_app. cbn [span fst]. rewrite Z.add_0_r, Z.add_assoc. exact Hsat.
    + cbn [length] in Hn. lia.
Qed.

(** Over a whole tiled arena, the walk terminates and recolors every
    chunk by [g], rewriting nothing but headers. *)
Lemma for_chunks_recolor n :
  heap_repr (gc_mem st0) (major_lo st0) (major_hi st0) l ->
  chunks_sat P (major_lo st0) l -> (length l < n)%nat ->
  exists st1, for_chunks cont body n (major_lo st0) st0 = Ok (tt, st1) /\
    headers_only (starts (major_lo st0) l) st0 st1 /\
    heap_repr (gc_mem st1) (major_lo st0) (major_hi st0) (recolor g l).
Proof.
  intros Hrep Hsat Hn.
  destruct (for_chunks_from l [] st0 n) as (st1 & E & H); auto.
  - apply headers_only_refl.
  - cbn [span]. rewrite Z.add_0_r. exact Hsat.
  - exists st1. cbn [span] in E. rewrite Z.add_0_r in E. auto.
Qed.

End Walk.

(** ** A field walk whose body changes nothing. *)
Lemma for_fields_noop body chunk st s n : forall i,
  mapped chunk 4 = true -> size_bits (load_le 4 (gc_mem st) chunk) = s ->
  (forall j, i <= j < PTR_INDEX s -> body j st = Ok (tt, st)) ->
  (Z.to_nat (PTR_INDEX s - i) < n)%nat ->
  for_fields body chunk n i st = Ok (tt, st).
Proof.
  induction n as [|n IH]; intros i Hm Hs Hb Hn; [lia|]. cbn [for_fields].
  rewrite bind_CHUNK_SIZE, Hs by exact Hm.
  destruct (Z.ltb_spec i (PTR_INDEX s)); [|reflexivity].
  rewrite (bind_Ok _ _ _ _ _ (Hb i ltac:(lia))).
  apply IH; auto; [intros j Hj; apply Hb; lia|lia].
Qed.

(** ** One header rewritten inside a tiling. *)
Lemma start_in_starts lo pre s c post : In (lo + span pre) (starts lo (pre ++ (s, c) :: post)).
Proof. rewrite starts_app. apply in_or_app. right. left. reflexivity. Qed.

Lemma heap_repr_headers_only_at st st' lo hi pre s c c' post :
  heap_repr (gc_mem st) lo hi (pre ++ (s, c) :: post) ->
  headers_only [lo + span pre] st st' -> load_le 4 (gc_mem st') (lo + span pre) = header s c' ->
  heap_repr (gc_mem st') lo hi (pre ++ (s, c') :: post).
Proof.
  intros H [_ F] Hh. apply (heap_repr_recolor_at (gc_mem st) _ _ _ _ s c); auto.
  intros x Hx. apply F. constructor; [lia|constructor].
Qed.

(** The header of a chunk of a tiling, and its bounds. *)
Lemma heap_repr_at m lo hi pre s c post :
  heap_repr m lo hi (pre ++ (s, c) :: post) ->
  load_le 4 m (lo + span pre) = header s c /\ 0 < s < 2 ^ 32 /\ s mod 4 = 0 /\
  lo <= lo + span pre /\ lo + span pre + s <= hi.
Proof.
  intros H. apply heap_repr_app in H as (b & Hpre & Hpost).
  pose proof (heap_repr_span _ _ _ _ Hpre) as ->. pose proof (span_nonneg _ _ _ _ Hpre).
  cbn [heap_repr] in Hpost. destruct Hpost as (H1 & H2 & H3 & H4).
  pose proof (span_nonneg _ _ _ _ H4). repeat split; auto; lia.
Qed.

(** ** What a header-only rewrite keeps. *)
Lemma headers_only_load hs st st' n x :
  headers_only hs st st' -> (forall y, x <= y < x + Z.of_nat n -> off_headers hs y) ->
  load_le n (gc_mem st') x = load_le n (gc_mem st) x.
Proof. intros [_ F] H. apply load_le_ext. intros y Hy. apply F, H, Hy. Qed.

Lemma chunks_sat_True a l : chunks_sat (fun _ _ => True) a l.
Proof. revert a. induction l; cbn; auto. Qed.

(** ** Combining per-chunk facts. *)
Lemma chunks_sat_Forall2 (R : Z * gc_color -> Z * gc_color -> Prop) P Q l1 l2 :
  Forall2 R l1 l2 -> (forall x y, R x y -> fst y = fst x) ->
  (forall a x y, R x y -> P a x -> Q a y) ->
  forall a, chunks_sat P a l1 -> chunks_sat Q a l2.
Proof.
  intros H HR HPQ. induction H as [|x y l1 l2 Hxy _ IH]; intros a Hs; cbn in *; [exact I|].
  destruct Hs as [Hx Hs]. split; [eauto|]. rewrite (HR x y Hxy). auto.
Qed.

Lemma chunks_sat_and P Q a l :
  chunks_sat P a l -> chunks_sat Q a l -> chunks_sat (fun a x => P a x /\ Q a x) a l.
Proof. revert a. induction l; cbn; intuition. Qed.

(** The body of every chunk of a tiling is off its headers. *)
Lemma chunks_sat_bodies m lo hi l :
  heap_repr m lo hi l ->
  chunks_sat (fun a x => forall y, a + 4 <= y < a + fst x -> off_headers (starts lo l) y) lo l.
Proof.
  intros H. assert (G : forall rest pre, l = pre ++ rest ->
    chunks_sat (fun a x => forall y, a + 4 <= y < a + fst x -> off_headers (starts lo l) y)
                (lo + span pre) rest).
  { induction rest as [|[s c] rest IH]; intros pre E; cbn [chunks_sat]; [exact I|].
    split.
    - intros y Hy. rewrite E in H |- *. exact (chunk_body_off_headers _ _ _ _ _ _ _ _ H Hy).
    - replace (lo + span pre + fst (s, c)) with (lo + span (pre ++ [(s, c)]))
        by (rewrite span_app; cbn; lia).
      apply IH. rewrite E, <- app_assoc. reflexivity. }
  specialize (G l [] eq_refl). cbn [span] in G. rewrite Z.add_0_r in G. exact G.
Qed.

(** An address inside a chunk of a tiling is found in that chunk. *)
Lemma chunk_containing_at m lo hi pre s c post q :
  heap_repr m lo hi (pre ++ (s, c) :: post) -> lo + span pre <= q < lo + span pre + s ->
  chunk_containing q lo (pre ++ (s, c) :: post) = Some (lo + span pre).
Proof.
  revert lo. induction pre as [|[s0 c0] pre IH]; intros lo H Hq; cbn [app chunk_containing span fst] in *.
  - rewrite Z.add_0_r in *. rewrite (proj2 (Z.leb_le _ _)), (proj2 (Z.ltb_lt _ _)) by lia. reflexivity.
  - cbn [heap_repr] in H. destruct H as (_ & H2 & _ & H4).
    pose proof H4 as H4'. apply heap_repr_app in H4' as (b & Hp & _).
    pose proof (heap_repr_span _ _ _ _ Hp). pose proof (span_nonneg _ _ _ _ Hp).
    rewrite (proj2 (Z.ltb_ge q _)) by lia. rewrite andb_false_r.
    rewrite (IH (lo + s0)); [f_equal; lia|exact H4|lia].
Qed.

(** Addresses outside the arena are off its headers. *)
Lemma off_headers_outside m lo hi l y :
  heap_repr m lo hi l -> y < lo \/ hi <= y -> off_headers (starts lo l) y.
Proof.
  intros H Hy. eapply Forall_impl; [|exact (starts_inside _ _ _ _ H)]. cbn. lia.
Qed.

(** A chunk walk standing on a chunk of size 0 whose body changes
    nothing never moves. *)
Lemma for_chunks_stuck cont body a st n :
  mapped a 4 = true -> cont a (major_hi st) = true -> body a st = Ok (tt, st) ->
  size_bits (load_le 4 (gc_mem st) a) = 0 ->
  for_chunks cont body n a st = Fail OutOfFuel.
Proof.
  intros Hm Hc Hb H0. induction n as [|n IH]; [reflexivity|]. cbn [for_chunks].
  rewrite bind_gets, Hc, (bind_Ok _ _ _ _ _ Hb), bind_CHUNK_SIZE, H0, Z.add_0_r by exact Hm.
  exact IH.
Qed.

(** ** A field walk whose body keeps an invariant. *)
Section FieldWalk.
Context (body : Z -> M unit) (chunk s : Z) (I : Z -> collector -> Prop).
Hypothesis Hsize : forall i st, I i st -> mapped chunk 4 = true /\ size_bits (load_le 4 (gc_mem st) chunk) = s.
Hypothesis Hbody : forall st i, I i st -> 0 <= i < PTR_INDEX s -> exists st', body i st = Ok (tt, st') /\ I (i + 1) st'.

(** The field walk from [i] with an invariant indexed by the next
    field: it ends with the invariant at an index past the last field. *)
Lemma for_fields_run n : forall i st, I i st -> 0 <= i ->
  (Z.to_nat (PTR_INDEX s - i) < n)%nat ->
  exists st' k, for_fields body chunk n i st = Ok (tt, st') /\ PTR_INDEX s <= k /\ I k st'.
Proof.
  induction n as [|n IH]; intros i st Hst Hi Hn; [lia|]. cbn [for_fields].
  destruct (Hsize i st Hst) as [Hm Hs]. rewrite bind_CHUNK_SIZE, Hs by exact Hm.
  destruct (Z.ltb_spec i (PTR_INDEX s)); [|exists st, i; auto].
  destruct (Hbody st i Hst ltac:(lia)) as (st' & E & Hst').
  rewrite (bind_Ok _ _ _ _ _ E). apply IH; auto; lia.
Qed.

End FieldWalk.

(** The field walk with an invariant of the state alone. *)
Lemma for_fields_inv body chunk s (I : collector -> Prop) n :
  (forall st, I st -> mapped chunk 4 = true /\ size_bits (load_le 4 (gc_mem st) chunk) = s) ->
  (forall st i, I st -> 0 <= i < PTR_INDEX s -> exists st', body i st = Ok (tt, st') /\ I st') ->
  forall i st, I st -> 0 <= i ->
  (Z.to_nat (PTR_INDEX s - i) < n)%nat ->
  exists st', for_fields body chunk n i st = Ok (tt, st') /\ I st'.
Proof.
  intros Hsize Hbody i st Hst Hi Hn.
  destruct (for_fields_run body chunk s (fun _ => I) (fun _ => Hsize) Hbody n i st Hst Hi Hn)
    as (st' & _ & E & _ & H). eauto.
Qed.

(** Recoloring the chunk of one decomposition of a list keeps every
    other decomposition, at the same offset, with its color or the new
    one. *)
Lemma decomp_recolor pre1 s1 c1 post1 pre2 s2 c2 post2 c' :
  pre1 ++ (s1, c1) :: post1 = pre2 ++ (s2, c2) :: post2 ->
  exists pre2' c2' post2', pre1 ++ (s1, c') :: post1 = pre2' ++ (s2, c2') :: post2' /\
    span pre2' = span pre2 /\ (c2' = c2 \/ c2' = c').
Proof.
  revert pre2. induction pre1 as [|x pre1 IH]; intros pre2 E; destruct pre2 as [|y pre2];
    cbn [app] in E; inversion E; subst.
  - exists [], c', post2. auto.
  - exists ((s1, c') :: pre2), c2, post2. cbn. auto.
  - exists [], c2, (pre1 ++ (s1, c') :: post1). cbn. auto.
  - destruct (IH pre2 H1) as (pre2' & c2' & post2' & E' & Hs & Hc).
    exists (y :: pre2'), c2', post2'. cbn [app span]. rewrite E', Hs. auto.
Qed.
