(* ===== verification/Major.v ===== *)
(** * Major collection (gc.c lines 102-114, 160-195, 270-285)

    [gc_major] darkens the chunks the roots point into ([darken_roots],
    [darken_chunk]: white becomes gray), walks the arena marking every
    gray chunk ([darken_major], [mark_major_chunk]), then walks it again
    freeing every chunk left white.

    The code writes [MARK_CHUNK(chunk, CHUNK_FLAGS(chunk) + GC_BLACK)] for
    a chunk that is gray (3) or white (1): the header is or-ed with 5 or
    3, so a gray chunk turns white and a white one gray.  The theorems
    of this file follow that through a whole collection.

    Fuel: one [fuel] bounds the iterations of every loop and the depth
    of the recursion of [mark_major_chunk]; [OutOfFuel] is a collection
    that does not terminate. *)

From stdpp Require Import base decidable numbers.
From Stdlib Require Import ZArith Lia Bool List.
From S2P Require Import Prelude Memory Layout Roots MajorAlloc Arena.

Import ListNotations.
Open Scope Z_scope.
Open Scope gc_monad_scope.

(** ** [mark_major_chunk] (lines 102-114). *)

(** The body of the field loop (lines 107-111): a field that is a
    pointer into the major arena has the chunk it points into marked. *)
Definition mark_major_field (mark : Z -> M unit) (fuel : nat) (chunk i : Z) : M unit :=
  p <- load_ptr (BITS_AT chunk i) ;;
  isref <- gets (fun st => REF_PTR_MAJ st p) ;;
  if isref then
    ptr <- load_ptr (BITS_AT chunk i) ;;
    ref <- find_major_chunk fuel ptr ;;
    mark ref
  else ret tt.

Fixpoint mark_major_chunk (fuel : nat) (chunk : Z) : M unit :=
  match fuel with
  | O => fail OutOfFuel
  | S f =>
      fl <- CHUNK_FLAGS chunk ;;
      if fl =? color_val GC_BLACK then ret tt else
      fl' <- CHUNK_FLAGS chunk ;;
      MARK_CHUNK chunk (fl' + color_val GC_BLACK) ;;
      for_fields (mark_major_field (mark_major_chunk f) fuel chunk) chunk fuel 0
  end.

(** ** [darken_chunk] (lines 160-166). *)
Definition darken_chunk (fuel : nat) (ptr : Z) : M unit :=
  curr <- find_major_chunk fuel ptr ;;
  if curr =? 0 then ret tt else
  fl <- CHUNK_FLAGS curr ;;
  if fl =? color_val GC_WHITE then MARK_CHUNK curr (color_val GC_GRAY) else ret tt.

(** ** [darken_roots] (lines 168-179): [darken_chunk(gc, *ref)] for
    every root slot. *)
Definition darken_slot (fuel : nat) (ref : Z) : M unit :=
  p <- load_ptr ref ;; darken_chunk fuel p.

Definition darken_roots (fuel : nat) : M unit := for_root_slots (darken_slot fuel) fuel.

(** ** [darken_major] (lines 181-195). *)
Definition darken_major_body (fuel : nat) (curr : Z) : M unit :=
  fl <- CHUNK_FLAGS curr ;;
  if fl =? color_val GC_GRAY then mark_major_chunk fuel curr else ret tt.

Definition darken_major (fuel : nat) : M unit :=
  lo <- gets major_lo ;;
  for_chunks (fun curr hi => negb (curr =? 0) && (curr <? hi)) (darken_major_body fuel) fuel lo.

(** ** [gc_major] (lines 270-285). *)
Definition sweep_body (curr : Z) : M unit :=
  fl <- CHUNK_FLAGS curr ;;
  if fl =? color_val GC_WHITE then MARK_CHUNK curr (color_val GC_FREE) else ret tt.

Definition gc_major (fuel : nat) : M unit :=
  darken_roots fuel ;;
  darken_major fuel ;;
  lo <- gets major_lo ;;
  for_chunks (fun curr hi => curr <? hi) sweep_body fuel lo.

(** ** The abstract effect of each phase on the colors. *)

(** [darken_major] on a chunk whose size has bit 2 set: or-ing 5 into
    a gray header gives [size | 1], a white one. *)
Definition after_darken_major (c : gc_color) : gc_color :=
  match c with GC_GRAY => GC_WHITE | c => c end.

Definition after_sweep (c : gc_color) : gc_color :=
  match c with GC_WHITE => GC_FREE | c => c end.

(** What a whole collection leaves: black stays black, all else is free. *)
Definition after_gc_major (c : gc_color) : gc_color :=
  match c with GC_BLACK => GC_BLACK | _ => GC_FREE end.

(** [darken_roots] may turn white chunks gray and changes nothing else. *)
Definition darkened (x y : Z * gc_color) : Prop :=
  fst y = fst x /\ (snd y = snd x \/ (snd x = GC_WHITE /\ snd y = GC_GRAY)).

(** A chunk none of whose fields is a pointer into the major arena. *)
Definition major_leaf (st : collector) (a : Z) (x : Z * gc_color) : Prop :=
  forall i, 0 <= i < PTR_INDEX (fst x) ->
    REF_PTR_MAJ st (load_le 8 (gc_mem st) (BITS_AT a i)) = false.

(** The invariant of [darken_roots]: the arena is a darkening of [l]
    and only headers were rewritten. *)
Definition darken_inv (st0 : collector) (l : list (Z * gc_color)) (st : collector) : Prop :=
  exists l1, Forall2 darkened l l1 /\ heap_repr (gc_mem st) (major_lo st0) (major_hi st0) l1 /\
    headers_only (starts (major_lo st0) l) st0 st.

(** What [darken_major] needs of a gray chunk: its size has bit 2 set,
    no field is a major pointer, and the field loop has fuel. *)
Definition markable (st : collector) (fuel : nat) (a : Z) (x : Z * gc_color) : Prop :=
  snd x = GC_GRAY -> fst x mod 8 = 4 /\ major_leaf st a x /\ (Z.to_nat (PTR_INDEX (fst x)) < fuel)%nat.

(** What [gc_major] needs of every chunk that may be marked (white or
    gray): its size has bit 2 set, it holds no major pointer, and the
    field loop has fuel. *)
Definition collectable (st : collector) (fuel : nat) (a : Z) (x : Z * gc_color) : Prop :=
  snd x = GC_WHITE \/ snd x = GC_GRAY ->
  fst x mod 8 = 4 /\ major_leaf st a x /\ (Z.to_nat (PTR_INDEX (fst x)) < fuel)%nat.

(** ** Concrete collectors of the witnesses.

    [rooted_gc]: the arena [two_chunks] (a white chunk of 20 bytes, the
    rest free) and one registered root, the word at [root_slot] below
    the collector, pointing to the payload of the white chunk. *)
Definition root_slot : Z := 8192.

Definition rooted_gc : collector :=
  {| gc_mem := store_le 8 (gc_mem (arena_gc two_chunks)) root_slot (major_lo sample_gc + 4);
     gc_base := gc_base sample_gc; gc_free_chunk := 0; gc_ref_count := 1;
     gc_backpatch := fun _ => 0;
     gc_refs := fun k => if k =? 0 then (root_slot, root_slot + PTR_SIZE) else (0, 0) |}.

(** [cycle_gc]: two white chunks of 20 bytes, each holding the address
    of the other's payload in its first field, then a free chunk. *)
Definition cycle_chunks : list (Z * gc_color) :=
  [(20, GC_WHITE); (20, GC_WHITE); (GC_MAJHEAP_SIZE - 40, GC_FREE)].

Definition cycle_gc : collector :=
  let st := arena_gc cycle_chunks in
  let a := major_lo st in
  set_mem st (store_le 8 (store_le 8 (gc_mem st) (a + 4) (a + 24)) (a + 24) (a + 4)).

(** [cleared_gc]: a registry whose only entry was emptied by
    [gc_remove_ref] (begin address 0, end kept). *)
Definition cleared_gc : collector :=
  {| gc_mem := gc_mem sample_gc; gc_base := gc_base sample_gc; gc_free_chunk := 0;
     gc_ref_count := 1; gc_backpatch := fun _ => 0;
     gc_refs := fun _ => (0, 2 * PTR_SIZE) |}.

(** ** Rewriting one header. *)
Section Recolor.
Context (st : collector) (a s : Z).
Hypothesis Hm : mapped a 4 = true.
Hypothesis Hs : 0 < s < 2 ^ 32.
Hypothesis Hs4 : s mod 4 = 0.

(** A store of a word that reads back as the header of size [s] and
    color [c'] only rewrites that header. *)
Lemma store_header v c' : v mod 2 ^ 32 = header s c' ->
  headers_only [a] st (set_mem st (store_le 4 (gc_mem st) a v)) /\
  load_le 4 (gc_mem (set_mem st (store_le 4 (gc_mem st) a v))) a = header s c'.
Proof.
  intros Hv. split; [apply headers_only_store|]. rewrite set_mem_mem, load_store_le_same. exact Hv.
Qed.

(** [MARK_CHUNK(a, c')] on a chunk of size [s] gives it color [c']. *)
Lemma MARK_CHUNK_recolor c c' : load_le 4 (gc_mem st) a = header s c ->
  exists st', MARK_CHUNK a (color_val c') st = Ok (tt, st') /\
    headers_only [a] st st' /\ load_le 4 (gc_mem st') a = header s c'.
Proof.
  intros H. eexists. split; [apply MARK_CHUNK_Ok, Hm|]. apply store_header.
  rewrite H. destruct (header_decode s c ltac:(lia) Hs4) as [-> _].
  assert (0 <= color_val c' < 4) by (destruct c'; cbn; lia).
  replace s with (4 * (s / 4)) at 1 by (pose proof (Z.div_mod s 4); lia).
  rewrite lor_mul4_small by lia.
  replace (4 * (s / 4)) with s by (pose proof (Z.div_mod s 4); lia).
  unfold header. apply Z.mod_small. pose proof (Z.div_mod s 4). lia.
Qed.

(** [MARK_CHUNK(a, GC_GRAY + GC_BLACK)] on a gray chunk whose size has
    bit 2 set makes it white. *)
Lemma MARK_CHUNK_gray_white : s mod 8 = 4 -> load_le 4 (gc_mem st) a = header s GC_GRAY ->
  exists st', MARK_CHUNK a (color_val GC_GRAY + color_val GC_BLACK) st = Ok (tt, st') /\
    headers_only [a] st st' /\ load_le 4 (gc_mem st') a = header s GC_WHITE.
Proof.
  intros H8 H. eexists. split; [apply MARK_CHUNK_Ok, Hm|]. apply store_header.
  rewrite H. cbn [color_val Z.add]. rewrite mark_header_5 by (unfold header; cbn; pose proof (Z.div_mod s 4); lia).
  unfold header. cbn [color_val].
  replace ((s + 3) / 8) with (s / 8); [pose proof (Z.div_mod s 8); lia|].
  apply Z.div_unique with (s mod 8 + 3); [lia|]. pose proof (Z.div_mod s 8). lia.
Qed.

End Recolor.

(** ** The darkening relation. *)
Section Darkened.

Lemma darkened_refl_list l : Forall2 darkened l l.
Proof. induction l; constructor; [split; auto|assumption]. Qed.

Lemma darkened_trans_list l1 l2 l3 :
  Forall2 darkened l1 l2 -> Forall2 darkened l2 l3 -> Forall2 darkened l1 l3.
Proof.
  intros H12. revert l3. induction H12 as [|x y l1 l2 Hxy _ IH]; intros l3 H23;
    inversion H23 as [|y' z ? l3' Hyz H23']; subst; constructor; [|auto].
  destruct Hxy as [E1 [C1|[C1 C2]]], Hyz as [E2 [C3|[C3 C4]]]; split;
    first [congruence | left; congruence | right; split; congruence].
Qed.

(** Graying the white chunk of a darkened list keeps it darkened. *)
Lemma darkened_gray l pre s post :
  Forall2 darkened l (pre ++ (s, GC_WHITE) :: post) ->
  Forall2 darkened l (pre ++ (s, GC_GRAY) :: post).
Proof.
  intros H. apply (darkened_trans_list _ _ _ H).
  apply Forall2_app; [apply darkened_refl_list|].
  constructor; [split; cbn; auto|apply darkened_refl_list].
Qed.

Lemma starts_darkened l1 l2 : Forall2 darkened l1 l2 -> forall a, starts a l2 = starts a l1.
Proof.
  induction 1 as [|[s c] [s' c'] l1 l2 [E _] _ IH]; intros a; cbn in *; [reflexivity|].
  subst s'. now rewrite IH.
Qed.

Lemma length_darkened l1 l2 : Forall2 darkened l1 l2 -> length l2 = length l1.
Proof. intros H. symmetry. exact (Forall2_length H). Qed.

(** After darkening, marking and sweeping, the colors are those of a
    whole collection. *)
Lemma after_phases l1 l2 : Forall2 darkened l1 l2 ->
  recolor after_sweep (recolor after_darken_major l2) = recolor after_gc_major l1.
Proof.
  induction 1 as [|[s c] [s' c'] l1 l2 [E H] _ IH]; cbn in *; [reflexivity|].
  unfold recolor in *. cbn. rewrite IH. subst s'.
  destruct H as [->|[-> ->]]; [destruct c|]; reflexivity.
Qed.

End Darkened.

(** ** Darkening. *)

(** [darken_chunk] on a tiled arena grays the white chunk containing the
    address, if any, and nothing else. *)
Lemma darken_chunk_spec st l1 fuel p :
  placed st -> heap_repr (gc_mem st) (major_lo st) (major_hi st) l1 -> (length l1 < fuel)%nat ->
  exists st' l2, darken_chunk fuel p st = Ok (tt, st') /\ Forall2 darkened l1 l2 /\
    heap_repr (gc_mem st') (major_lo st) (major_hi st) l2 /\
    headers_only (starts (major_lo st) l1) st st'.
Proof.
  intros Hpl H Hf. unfold darken_chunk.
  rewrite (bind_Ok _ _ _ _ _ (find_major_chunk_Ok st p Hpl l1 fuel H Hf)).
  destruct (chunk_containing p (major_lo st) l1) as [b|] eqn:E.
  2:{ exists st, l1. rewrite Z.eqb_refl. split; [reflexivity|].
      split; [apply darkened_refl_list|]. split; [exact H|apply headers_only_refl]. }
  apply chunk_containing_Some in E as (pre & s & c & post & -> & -> & Hb).
  destruct (heap_repr_at _ _ _ _ _ _ _ H) as (H1 & H2 & H3 & Hlo & Hhi).
  assert (Hm : mapped (major_lo st + span pre) 4 = true) by arena_mapped.
  rewrite (proj2 (Z.eqb_neq _ 0)) by arena_lia.
  rewrite bind_CHUNK_FLAGS by exact Hm. rewrite H1.
  destruct (header_decode s c ltac:(lia) H3) as [_ ->].
  destruct (decide (c = GC_WHITE)) as [->|Hc].
  - rewrite Z.eqb_refl.
    destruct (MARK_CHUNK_recolor st _ s Hm H2 H3 GC_WHITE GC_GRAY H1) as (st' & E & Hh & Hhd).
    exists st', (pre ++ (s, GC_GRAY) :: post). split; [exact E|].
    split; [apply darkened_gray, darkened_refl_list|].
    split; [eapply heap_repr_headers_only_at; eauto|].
    apply (headers_only_mono [major_lo st + span pre]); [|exact Hh].
    intros x [<-|[]]. apply start_in_starts.
  - rewrite (proj2 (Z.eqb_neq _ _)) by (destruct c; cbn; congruence).
    exists st, (pre ++ (s, c) :: post). split; [reflexivity|].
    split; [apply darkened_refl_list|]. split; [exact H|apply headers_only_refl].
Qed.

Lemma darken_roots_spec st0 l fuel :
  placed st0 -> heap_repr (gc_mem st0) (major_lo st0) (major_hi st0) l -> (length l < fuel)%nat ->
  roots_ok st0 -> roots_fuel st0 fuel ->
  exists st1, darken_roots fuel st0 = Ok (tt, st1) /\ darken_inv st0 l st1.
Proof.
  intros Hpl H Hf Hok Hfuel. unfold darken_roots.
  apply (for_root_slots_inv (darken_slot fuel) (darken_inv st0 l) st0 fuel); auto.
  - intros st (l1 & _ & _ & Hh). destruct (headers_only_base _ _ _ Hh) as (_ & _ & _ & E1 & E2 & _).
    auto.
  - intros st ref (l1 & Hd & Hrep & Hh) Hr1 Hr2. unfold darken_slot.
    rewrite bind_load_ptr by (apply mapped_true; unfold PTR_SIZE in *; lia).
    destruct (headers_only_base _ _ _ Hh) as (_ & Elo & Ehi & _ & _ & Ep).
    rewrite <- Elo, <- Ehi in Hrep.
    destruct (darken_chunk_spec st l1 fuel (load_le 8 (gc_mem st) ref)) as (st' & l2 & E & Hd' & Hrep' & Hh');
      [apply Ep, Hpl|exact Hrep|rewrite (length_darkened _ _ Hd); exact Hf|].
    exists st'. split; [exact E|]. exists l2.
    split; [exact (darkened_trans_list _ _ _ Hd Hd')|].
    rewrite Elo, Ehi in Hrep'. split; [exact Hrep'|].
    apply headers_only_trans with st; [exact Hh|].
    rewrite Elo, (starts_darkened _ _ Hd) in Hh'. exact Hh'.
  - exists l. split; [apply darkened_refl_list|]. split; [exact H|apply headers_only_refl].
Qed.

(** ** Marking a gray chunk that holds no major pointer. *)

Lemma REF_PTR_MAJ_headers_only hs st st' p :
  headers_only hs st st' -> REF_PTR_MAJ st' p = REF_PTR_MAJ st p.
Proof. intros [E _]. rewrite E. reflexivity. Qed.

(** The fields of a chunk whose size has bit 2 set lie inside it. *)
Lemma field_inside a s i : s mod 8 = 4 -> 0 <= i < PTR_INDEX s ->
  a + 4 <= BITS_AT a i /\ BITS_AT a i + 8 <= a + s.
Proof.
  unfold BITS_AT, BITS, WITH_HEADER, INT_SIZE, PTR_INDEX, PTR_SIZE. intros H8 Hi.
  pose proof (Z.div_mod s 8). lia.
Qed.

(** Leafness survives header-only rewrites outside the chunk body. *)
Lemma major_leaf_transfer hs st st' a s c c' :
  headers_only hs st st' -> s mod 8 = 4 ->
  (forall y, a + 4 <= y < a + s -> off_headers hs y) ->
  major_leaf st a (s, c) -> major_leaf st' a (s, c').
Proof.
  intros Hh H8 Hoff Hl i Hi. cbn [fst] in *.
  rewrite (REF_PTR_MAJ_headers_only _ _ _ _ Hh), (headers_only_load _ _ _ _ _ Hh).
  - apply Hl, Hi.
  - intros y Hy. apply Hoff. pose proof (field_inside a s i H8 Hi). cbn in Hy. lia.
Qed.

Lemma mark_major_chunk_leaf st a s fuel :
  placed st -> NULL_PAGE <= a -> a + s <= major_hi st ->
  load_le 4 (gc_mem st) a = header s GC_GRAY -> 0 < s < 2 ^ 32 -> s mod 8 = 4 ->
  major_leaf st a (s, GC_GRAY) -> (Z.to_nat (PTR_INDEX s) < fuel)%nat ->
  exists st', mark_major_chunk fuel a st = Ok (tt, st') /\
    headers_only [a] st st' /\ load_le 4 (gc_mem st') a = header s GC_WHITE.
Proof.
  intros Hpl Ha Hhi H1 Hs H8 Hl Hf.
  assert (H4 : s mod 4 = 0) by (pose proof (Z.div_mod s 8); pose proof (Z.div_mod s 4);
    pose proof (Z.mod_pos_bound s 4); lia).
  assert (Hm : mapped a 4 = true) by arena_mapped.
  destruct fuel as [|f]; [lia|]. cbn [mark_major_chunk].
  destruct (header_decode s GC_GRAY ltac:(lia) H4) as [Ds Df].
  rewrite bind_CHUNK_FLAGS, H1, Df by exact Hm.
  change (color_val GC_GRAY =? color_val GC_BLACK) with false. cbv iota beta.
  rewrite bind_CHUNK_FLAGS, H1, Df by exact Hm.
  destruct (MARK_CHUNK_gray_white st a s Hm Hs H4 H8 H1) as (st1 & E & Hh & Hhd).
  rewrite (bind_Ok _ _ _ _ _ E). exists st1. split; [|split; assumption].
  destruct (header_decode s GC_WHITE ltac:(lia) H4) as [Ds' _].
  apply (for_fields_noop _ _ _ s); [exact Hm|rewrite Hhd; exact Ds'| |lia].
  intros j Hj. unfold mark_major_field.
  destruct (field_inside a s j H8 Hj).
  rewrite bind_load_ptr by arena_mapped. rewrite bind_gets.
  rewrite (REF_PTR_MAJ_headers_only _ _ _ _ Hh), (headers_only_load _ _ _ _ _ Hh).
  - rewrite (Hl j Hj). reflexivity.
  - intros y Hy. constructor; [cbn in Hy; lia|constructor].
Qed.

(** ** The walks of [darken_major] and of the sweep. *)

Lemma darken_major_spec st1 l1 fuel :
  placed st1 -> heap_repr (gc_mem st1) (major_lo st1) (major_hi st1) l1 -> (length l1 < fuel)%nat ->
  chunks_sat (markable st1 fuel) (major_lo st1) l1 ->
  exists st2, darken_major fuel st1 = Ok (tt, st2) /\
    headers_only (starts (major_lo st1) l1) st1 st2 /\
    heap_repr (gc_mem st2) (major_lo st1) (major_hi st1) (recolor after_darken_major l1).
Proof.
  intros Hpl H Hf Hsat. unfold darken_major. rewrite bind_gets.
  apply (for_chunks_recolor st1 l1 _ _ after_darken_major (markable st1 fuel)); auto.
  - intros a hi Ha. rewrite (proj2 (Z.eqb_neq a 0)) by (unfold NULL_PAGE in *; lia). reflexivity.
  - intros st pre s c post Hst Hstarts Hrep HP.
    destruct (headers_only_base _ _ _ Hst) as (_ & Elo & Ehi & _ & _ & Ep).
    destruct (heap_repr_at _ _ _ _ _ _ _ Hrep) as (H1 & H2 & H3 & Hlo & Hhi).
    assert (Hm : mapped (major_lo st1 + span pre) 4 = true) by arena_mapped.
    unfold darken_major_body. rewrite bind_CHUNK_FLAGS, H1 by exact Hm.
    destruct (header_decode s c ltac:(lia) H3) as [_ ->].
    destruct (decide (c = GC_GRAY)) as [->|Hc].
    + rewrite Z.eqb_refl. destruct (HP eq_refl) as (H8 & Hl & Hfl). cbn [fst] in *.
      apply mark_major_chunk_leaf; auto; [apply Ep, Hpl|arena_lia|congruence|].
      apply (major_leaf_transfer (starts (major_lo st1) l1) st1 st _ s GC_GRAY GC_GRAY); auto.
      intros y Hy. rewrite <- Hstarts. exact (chunk_body_off_headers _ _ _ _ _ _ _ _ Hrep Hy).
    + rewrite (proj2 (Z.eqb_neq _ _)) by (destruct c; cbn; congruence).
      exists st. split; [reflexivity|]. split; [apply headers_only_refl|].
      rewrite H1. destruct c; [reflexivity|reflexivity|reflexivity|congruence].
Qed.

Lemma sweep_spec st2 l2 fuel :
  placed st2 -> heap_repr (gc_mem st2) (major_lo st2) (major_hi st2) l2 -> (length l2 < fuel)%nat ->
  exists st3, for_chunks (fun curr hi => curr <? hi) sweep_body fuel (major_lo st2) st2 = Ok (tt, st3) /\
    headers_only (starts (major_lo st2) l2) st2 st3 /\
    heap_repr (gc_mem st3) (major_lo st2) (major_hi st2) (recolor after_sweep l2).
Proof.
  intros Hpl H Hf.
  apply (for_chunks_recolor st2 l2 _ _ after_sweep (fun _ _ => True)); auto using chunks_sat_True.
  intros st pre s c post Hst _ Hrep _.
  destruct (headers_only_base _ _ _ Hst) as (_ & Elo & Ehi & _ & _ & Ep).
  destruct (heap_repr_at _ _ _ _ _ _ _ Hrep) as (H1 & H2 & H3 & Hlo & Hhi).
  assert (Hm : mapped (major_lo st2 + span pre) 4 = true) by arena_mapped.
  unfold sweep_body. rewrite bind_CHUNK_FLAGS, H1 by exact Hm.
  destruct (header_decode s c ltac:(lia) H3) as [_ ->].
  destruct (decide (c = GC_WHITE)) as [->|Hc].
  - rewrite Z.eqb_refl. exact (MARK_CHUNK_recolor st _ s Hm H2 H3 GC_WHITE GC_FREE H1).
  - rewrite (proj2 (Z.eqb_neq _ _)) by (destruct c; cbn; congruence).
    exists st. split; [reflexivity|]. split; [apply headers_only_refl|].
    rewrite H1. destruct c; [reflexivity|congruence|reflexivity|reflexivity].
Qed.

Lemma markable_after_darken st0 st1 l l1 fuel :
  heap_repr (gc_mem st0) (major_lo st0) (major_hi st0) l ->
  headers_only (starts (major_lo st0) l) st0 st1 -> Forall2 darkened l l1 ->
  chunks_sat (collectable st0 fuel) (major_lo st0) l ->
  chunks_sat (markable st1 fuel) (major_lo st0) l1.
Proof.
  intros H Hh Hd Hc.
  pose proof (chunks_sat_and _ _ _ _ Hc (chunks_sat_bodies _ _ _ _ H)) as Hs.
  refine (chunks_sat_Forall2 darkened _ _ l l1 Hd _ _ _ Hs).
  - intros x y [E _]. exact E.
  - intros a [s c] [s' c'] [E Hcol] [Hx Hb] Hg. cbn [fst snd] in *. subst s' c'.
    assert (Hwg : c = GC_WHITE \/ c = GC_GRAY) by (destruct Hcol as [->|[-> _]]; auto).
    destruct (Hx Hwg) as (H8 & Hl & Hf). split; [exact H8|]. split; [|exact Hf].
    exact (major_leaf_transfer _ _ _ a s c GC_GRAY Hh H8 Hb Hl).
Qed.

(** The whole of [gc_major] on a tiled arena whose collectable chunks
    hold no major pointer. *)
Lemma gc_major_spec st0 l fuel :
  placed st0 -> heap_repr (gc_mem st0) (major_lo st0) (major_hi st0) l -> (length l < fuel)%nat ->
  roots_ok st0 -> roots_fuel st0 fuel -> chunks_sat (collectable st0 fuel) (major_lo st0) l ->
  exists st', gc_major fuel st0 = Ok (tt, st') /\
    headers_only (starts (major_lo st0) l) st0 st' /\
    heap_repr (gc_mem st') (major_lo st0) (major_hi st0) (recolor after_gc_major l).
Proof.
  intros Hpl H Hf Hok Hfuel Hc.
  destruct (darken_roots_spec st0 l fuel Hpl H Hf Hok Hfuel) as (st1 & E1 & l1 & Hd & H1 & Hh1).
  destruct (headers_only_base _ _ _ Hh1) as (_ & Elo1 & Ehi1 & _ & _ & Ep1).
  pose proof (length_darkened _ _ Hd) as Hlen.
  destruct (darken_major_spec st1 l1 fuel) as (st2 & E2 & Hh2 & H2);
    [apply Ep1, Hpl|rewrite Elo1, Ehi1; exact H1|lia|
     rewrite Elo1; exact (markable_after_darken st0 st1 l l1 fuel H Hh1 Hd Hc)|].
  rewrite Elo1, (starts_darkened _ _ Hd) in Hh2. rewrite Elo1, Ehi1 in H2.
  destruct (headers_only_base _ _ _ Hh2) as (_ & Elo2 & Ehi2 & _ & _ & Ep2).
  destruct (sweep_spec st2 (recolor after_darken_major l1) fuel) as (st3 & E3 & Hh3 & H3);
    [apply Ep2, Ep1, Hpl|rewrite Elo2, Ehi2, Elo1, Ehi1; exact H2
     |unfold recolor; rewrite length_map; lia|].
  rewrite Elo2, Elo1, starts_recolor, (starts_darkened _ _ Hd) in Hh3.
  rewrite Elo2, Elo1, Ehi2, Ehi1, (after_phases _ _ Hd) in H3.
  exists st3. split.
  - unfold gc_major. rewrite (bind_Ok _ _ _ _ _ E1), (bind_Ok _ _ _ _ _ E2), bind_gets.
    exact E3.
  - split; [|exact H3]. apply headers_only_trans with st1; [exact Hh1|].
    apply headers_only_trans with st2; assumption.
Qed.

(** ** A chunk whose first field points into itself. *)

Lemma REF_PTR_MAJ_inside st q :
  major_lo st <= q < major_hi st -> q mod 2 = 0 -> REF_PTR_MAJ st q = true.
Proof.
  intros Hq H2. unfold REF_PTR_MAJ, MEM_TAG, POINTS_MAJOR. rewrite land1, H2.
  rewrite (proj2 (Z.leb_le _ _)), (proj2 (Z.ltb_lt _ _)) by lia. reflexivity.
Qed.

(** The field loop of a chunk whose first field points into a chunk of
    the tiling calls [mark_major_chunk] on that chunk first; if that
    call runs out of fuel, so does the loop. *)
Lemma cycle_field_loop st L px sx cx postx py sy cy posty q f :
  placed st -> heap_repr (gc_mem st) (major_lo st) (major_hi st) L ->
  L = px ++ (sx, cx) :: postx -> L = py ++ (sy, cy) :: posty ->
  sx mod 8 = 4 -> 12 <= sx ->
  load_le 8 (gc_mem st) (major_lo st + span px + 4) = q ->
  major_lo st + span py <= q < major_lo st + span py + sy -> q mod 2 = 0 ->
  mark_major_chunk f (major_lo st + span py) st = Fail OutOfFuel ->
  for_fields (mark_major_field (mark_major_chunk f) (S f) (major_lo st + span px))
             (major_lo st + span px) (S f) 0 st = Fail OutOfFuel.
Proof.
  intros Hpl H Lx Ly H8 H12 Hq Hin H2 Hrec.
  pose proof H as Hx. rewrite Lx in Hx.
  destruct (heap_repr_at _ _ _ _ _ _ _ Hx) as (H1 & Hs & H4 & Hlo & Hhi).
  set (a := major_lo st + span px) in *.
  assert (Hm : mapped a 4 = true) by (unfold a in *; arena_mapped).
  cbn [for_fields]. rewrite bind_CHUNK_SIZE, H1 by exact Hm.
  destruct (header_decode sx cx ltac:(lia) H4) as [-> _].
  rewrite (proj2 (Z.ltb_lt 0 _))
    by (unfold PTR_INDEX, PTR_SIZE; apply Z.div_str_pos; lia).
  unfold mark_major_field. replace (BITS_AT a 0) with (a + 4)
    by (unfold BITS_AT, BITS, WITH_HEADER, INT_SIZE; lia).
  pose proof H as Hy. rewrite Ly in Hy.
  destruct (heap_repr_at _ _ _ _ _ _ _ Hy) as (_ & _ & _ & Hloy & Hhiy).
  rewrite bind_assoc, bind_load_ptr by (unfold a in *; arena_mapped). rewrite Hq.
  rewrite bind_assoc, bind_gets, REF_PTR_MAJ_inside by lia.
  rewrite bind_assoc, bind_load_ptr by (unfold a in *; arena_mapped). rewrite Hq.
  rewrite bind_assoc.
  destruct (find_major_chunk_run st q Hpl _ (S f) H) as [E|E]; rewrite ?(bind_Ok _ _ _ _ _ E).
  - rewrite Ly, (chunk_containing_at _ _ _ _ _ _ _ _ Hy Hin).
    unfold bind at 1. now rewrite Hrec.
  - unfold bind at 1. now rewrite E.
Qed.

(** Marking either chunk of such a cycle runs out of fuel. *)
Lemma mark_cycle_loop fuel : forall st L px sx cx postx py sy cy posty qx qy,
  placed st -> heap_repr (gc_mem st) (major_lo st) (major_hi st) L ->
  L = px ++ (sx, cx) :: postx -> L = py ++ (sy, cy) :: posty ->
  (cx = GC_WHITE \/ cx = GC_GRAY) -> (cy = GC_WHITE \/ cy = GC_GRAY) ->
  sx mod 8 = 4 -> sy mod 8 = 4 -> 12 <= sx -> 12 <= sy ->
  load_le 8 (gc_mem st) (major_lo st + span px + 4) = qx ->
  major_lo st + span py <= qx < major_lo st + span py + sy -> qx mod 2 = 0 ->
  load_le 8 (gc_mem st) (major_lo st + span py + 4) = qy ->
  major_lo st + span px <= qy < major_lo st + span px + sx -> qy mod 2 = 0 ->
  mark_major_chunk fuel (major_lo st + span px) st = Fail OutOfFuel.
Proof.
  induction fuel as [|f IH];
    intros st L px sx cx postx py sy cy posty qx qy Hpl H Lx Ly Hcx Hcy H8x H8y H12x H12y
           Hqx Hinx H2x Hqy Hiny H2y; [reflexivity|].
  pose proof H as Hx. rewrite Lx in Hx.
  destruct (heap_repr_at _ _ _ _ _ _ _ Hx) as (H1 & Hs & H4 & Hlo & Hhi).
  assert (Hm : mapped (major_lo st + span px) 4 = true) by arena_mapped.
  cbn [mark_major_chunk]. rewrite bind_CHUNK_FLAGS, H1 by exact Hm.
  destruct (header_decode sx cx ltac:(lia) H4) as [_ Df]. rewrite Df.
  assert (Hnb : (color_val cx =? color_val GC_BLACK) = false) by (destruct Hcx as [->| ->]; reflexivity).
  rewrite Hnb, bind_CHUNK_FLAGS, H1, Df by exact Hm.
  assert (Hmark : exists c' st1, MARK_CHUNK (major_lo st + span px) (color_val cx + color_val GC_BLACK) st
                                 = Ok (tt, st1) /\ (c' = GC_WHITE \/ c' = GC_GRAY) /\
                    headers_only [major_lo st + span px] st st1 /\
                    load_le 4 (gc_mem st1) (major_lo st + span px) = header sx c').
  { destruct Hcx as [-> | ->].
    - destruct (MARK_CHUNK_recolor st _ sx Hm Hs H4 GC_WHITE GC_GRAY H1) as (st1 & E & Hh & Hd).
      exists GC_GRAY, st1. auto.
    - destruct (MARK_CHUNK_gray_white st _ sx Hm Hs H4 H8x H1) as (st1 & E & Hh & Hd).
      exists GC_WHITE, st1. auto. }
  destruct Hmark as (c' & st1 & E & Hc' & Hh & Hd). rewrite (bind_Ok _ _ _ _ _ E).
  destruct (headers_only_base _ _ _ Hh) as (_ & Elo & Ehi & _ & _ & Ep).
  assert (Hpl1 : placed st1) by (apply Ep, Hpl).
  set (L1 := px ++ (sx, c') :: postx).
  assert (H' : heap_repr (gc_mem st1) (major_lo st1) (major_hi st1) L1)
    by (rewrite Elo, Ehi; eapply heap_repr_headers_only_at; eauto).
  rewrite Lx in Ly.
  destruct (decomp_recolor px sx cx postx py sy cy posty c' Ly) as (py' & cy' & posty' & Ly' & Hsp & Hcy').
  assert (Hoff : forall z, major_lo st + span py + 4 <= z < major_lo st + span py + sy ->
                   z < major_lo st + span px \/ major_lo st + span px + 4 <= z).
  { intros z Hz. pose proof Hx as Hy. rewrite Ly in Hy.
    pose proof (chunk_body_off_headers _ _ _ _ _ _ _ _ Hy Hz) as Ho.
    rewrite <- Ly in Ho. unfold off_headers in Ho. rewrite Forall_forall in Ho.
    exact (Ho _ (start_in_starts _ _ _ _ _)). }
  assert (Hqx' : load_le 8 (gc_mem st1) (major_lo st1 + span px + 4) = qx).
  { rewrite Elo, (headers_only_load _ _ _ _ _ Hh); [exact Hqx|].
    intros z Hz. constructor; [cbn in Hz; lia|constructor]. }
  assert (Hqy' : load_le 8 (gc_mem st1) (major_lo st1 + span py' + 4) = qy).
  { rewrite Elo, Hsp, (headers_only_load _ _ _ _ _ Hh); [exact Hqy|].
    intros z Hz. constructor; [apply Hoff; cbn in Hz; lia|constructor]. }
  rewrite <- Elo.
  apply (cycle_field_loop st1 L1 px sx c' postx py' sy cy' posty' qx f Hpl1 H' eq_refl Ly' H8x H12x Hqx');
    [rewrite Elo, Hsp; exact Hinx|exact H2x|].
  apply (IH st1 L1 py' sy cy' posty' px sx c' postx qy qx Hpl1 H' Ly' eq_refl); auto;
    try (rewrite Elo; try rewrite Hsp; assumption).
  destruct Hcy' as [-> | ->]; assumption.
Qed.

(** C2. Two white or gray chunks whose first fields point into each
    other (or one chunk pointing into itself) are never finished by
    [mark_major_chunk]: marking flips a chunk between white and gray
    ([+ GC_BLACK] of gc.c line 105 never makes it black), and the field
    loop marks the other chunk, which marks the first again, for any
    fuel. *)
Theorem mark_major_chunk_cycle_diverges st L px sx cx postx py sy cy posty qx qy fuel :
  placed st -> heap_repr (gc_mem st) (major_lo st) (major_hi st) L ->
  L = px ++ (sx, cx) :: postx -> L = py ++ (sy, cy) :: posty ->
  (cx = GC_WHITE \/ cx = GC_GRAY) -> (cy = GC_WHITE \/ cy = GC_GRAY) ->
  sx mod 8 = 4 -> sy mod 8 = 4 -> 12 <= sx -> 12 <= sy ->
  load_le 8 (gc_mem st) (major_lo st + span px + 4) = qx ->
  major_lo st + span py <= qx < major_lo st + span py + sy -> qx mod 2 = 0 ->
  load_le 8 (gc_mem st) (major_lo st + span py + 4) = qy ->
  major_lo st + span px <= qy < major_lo st + span px + sx -> qy mod 2 = 0 ->
  mark_major_chunk fuel (major_lo st + span px) st = Fail OutOfFuel.
Proof. intros. eapply mark_cycle_loop; eauto. Qed.


(** ** Properties of the major collection. *)

(** C1. [gc_major] on a tiled arena whose white and gray chunks hold no
    pointer into the arena and have a size of 4 modulo 8 (bit 2 set, so
    that [+ GC_BLACK] turns gray into white without touching the size:
    the [collectable] hypothesis), with roots in mapped memory and
    enough fuel, terminates, rewrites nothing but headers, and
    leaves every chunk that was not black free, whatever the roots: a
    chunk darkened by a root is turned gray, then white by [+ GC_BLACK],
    then swept.  Black chunks stay black. *)
Theorem gc_major_frees_all_but_black st l fuel :
  placed st -> heap_repr (gc_mem st) (major_lo st) (major_hi st) l -> (length l < fuel)%nat ->
  roots_ok st -> roots_fuel st fuel -> chunks_sat (collectable st fuel) (major_lo st) l ->
  exists st', gc_major fuel st = Ok (tt, st') /\
    headers_only (starts (major_lo st) l) st st' /\
    heap_repr (gc_mem st') (major_lo st) (major_hi st) (recolor after_gc_major l).
Proof. apply gc_major_spec. Qed.

(** C5. A registry entry emptied by [gc_remove_ref] has begin address 0:
    [darken_roots] skips the slot at address 0 ([ref != 0] tests the
    slot address, not its contents), then dereferences the slot at
    address 8, so [gc_major] faults. *)
Theorem gc_major_cleared_root_segfaults st e fuel :
  0 < gc_ref_count st <= GC_MAX_REFS -> gc_refs st 0 = (0, e) -> PTR_SIZE < e -> (2 <= fuel)%nat ->
  gc_major fuel st = Fail (SegFault PTR_SIZE).
Proof.
  intros Hrc Hr He Hf. destruct fuel as [|[|f]]; [lia|lia|].
  unfold gc_major, darken_roots, for_root_slots. apply bind_Fail.
  cbn [for_roots]. rewrite bind_gets, (proj2 (Z.ltb_lt 0 _)) by lia.
  rewrite (bind_Ok _ _ _ _ _ (refs_get_Ok st 0 ltac:(unfold GC_MAX_REFS in *; lia))), Hr.
  cbn [fst]. apply bind_Fail. cbn [for_slots].
  rewrite (bind_Ok _ _ _ _ _ (refs_get_Ok st 0 ltac:(unfold GC_MAX_REFS in *; lia))), Hr.
  cbn [snd]. rewrite (proj2 (Z.ltb_lt 0 e)) by (unfold PTR_SIZE in *; lia).
  rewrite Z.eqb_refl, bind_ret_l. cbn [for_slots Z.add].
  rewrite (bind_Ok _ _ _ _ _ (refs_get_Ok st 0 ltac:(unfold GC_MAX_REFS in *; lia))), Hr.
  cbn [snd]. rewrite (proj2 (Z.ltb_lt _ e)) by exact He.
  apply bind_Fail. unfold darken_slot, load_ptr. apply bind_Fail.
  apply load_unmapped. reflexivity.
Qed.

(** C19. [gc_new] writes no header into the major arena: when the memory
    it gets holds a first header of size 0 that is not gray (zeroed
    memory, say), [gc_major] on the new collector never terminates. *)
Theorem gc_major_new_collector_diverges m base bp refs fuel :
  placed (gc_new m base bp refs) ->
  size_bits (load_le 4 m (base + GC_MINHEAP_SIZE)) = 0 ->
  flag_bits (load_le 4 m (base + GC_MINHEAP_SIZE)) <> color_val GC_GRAY ->
  gc_major fuel (gc_new m base bp refs) = Fail OutOfFuel.
Proof.
  intros Hpl H0 Hg. set (st := gc_new m base bp refs) in *.
  assert (Hm : mapped (major_lo st) 4 = true) by arena_mapped.
  destruct fuel as [|f]; [reflexivity|].
  unfold gc_major.
  assert (Er : darken_roots (S f) st = Ok (tt, st)) by reflexivity.
  rewrite (bind_Ok _ _ _ _ _ Er). unfold darken_major. rewrite bind_assoc, bind_gets.
  apply bind_Fail. apply for_chunks_stuck; [exact Hm| | |exact H0].
  - cbn [negb andb]. rewrite (proj2 (Z.eqb_neq _ 0)) by arena_lia.
    apply Z.ltb_lt. arena_lia.
  - unfold darken_major_body. rewrite bind_CHUNK_FLAGS by exact Hm.
    cbn [gc_mem st gc_new major_lo gc_base]. rewrite (proj2 (Z.eqb_neq _ _)) by exact Hg.
    reflexivity.
Qed.

(** ** Witnesses of the major-collection properties. *)

Lemma rooted_placed : placed rooted_gc.
Proof. unfold placed, major_hi, GC_MINHEAP_SIZE, GC_MAJHEAP_SIZE, NULL_PAGE, USER_TOP. cbn. lia. Qed.

Lemma rooted_repr :
  heap_repr (gc_mem rooted_gc) (major_lo rooted_gc) (major_hi rooted_gc) ([] ++ (20, GC_WHITE) :: [(GC_MAJHEAP_SIZE - 20, GC_FREE)]).
Proof. vm_compute. repeat split; try reflexivity; discriminate. Qed.

Lemma rooted_roots_ok : roots_ok rooted_gc.
Proof.
  split; [vm_compute; split; discriminate|].
  intros k Hk _. cbn in Hk. assert (k = 0) as -> by lia. vm_compute. split; discriminate.
Qed.

Lemma rooted_roots_fuel : roots_fuel rooted_gc 5.
Proof.
  split; [vm_compute; lia|]. intros k Hk. cbn in Hk. assert (k = 0) as -> by lia.
  vm_compute. lia.
Qed.

Lemma rooted_collectable :
  chunks_sat (collectable rooted_gc 5) (major_lo rooted_gc) ([] ++ (20, GC_WHITE) :: [(GC_MAJHEAP_SIZE - 20, GC_FREE)]).
Proof.
  cbn [app chunks_sat]. split; [|split; [|exact I]].
  - intros _. split; [reflexivity|]. split; [|vm_compute; lia].
    intros i Hi. cbn [fst] in Hi. change (PTR_INDEX 20) with 2 in Hi.
    assert (i = 0 \/ i = 1) as [-> | ->] by lia; vm_compute; reflexivity.
  - intros [H|H]; discriminate.
Qed.

Lemma gc_major_frees_all_but_black_witness :
  exists st', gc_major 5 rooted_gc = Ok (tt, st') /\
    headers_only (starts (major_lo rooted_gc) ([] ++ (20, GC_WHITE) :: [(GC_MAJHEAP_SIZE - 20, GC_FREE)]))
                 rooted_gc st' /\
    heap_repr (gc_mem st') (major_lo rooted_gc) (major_hi rooted_gc)
              (recolor after_gc_major ([] ++ (20, GC_WHITE) :: [(GC_MAJHEAP_SIZE - 20, GC_FREE)])).
Proof.
  apply gc_major_frees_all_but_black;
    [exact rooted_placed|exact rooted_repr|cbn; lia|exact rooted_roots_ok|exact rooted_roots_fuel
    |exact rooted_collectable].
Defined.


Lemma cycle_repr :
  heap_repr (gc_mem cycle_gc) (major_lo cycle_gc) (major_hi cycle_gc) cycle_chunks.
Proof. vm_compute. repeat split; try reflexivity; discriminate. Qed.

Lemma mark_major_chunk_cycle_diverges_witness :
  mark_major_chunk 10 (major_lo cycle_gc + span []) cycle_gc = Fail OutOfFuel.
Proof.
  assert (Hl : major_lo cycle_gc = 131072) by reflexivity.
  apply (mark_major_chunk_cycle_diverges cycle_gc cycle_chunks
           [] 20 GC_WHITE [(20, GC_WHITE); (GC_MAJHEAP_SIZE - 40, GC_FREE)]
           [(20, GC_WHITE)] 20 GC_WHITE [(GC_MAJHEAP_SIZE - 40, GC_FREE)]
           (major_lo cycle_gc + 24) (major_lo cycle_gc + 4) 10);
    try (left; reflexivity); try reflexivity; try exact cycle_repr;
    try (rewrite Hl; simpl span; lia); try (vm_compute; reflexivity); try lia.
  unfold placed, major_hi, GC_MINHEAP_SIZE, GC_MAJHEAP_SIZE, NULL_PAGE, USER_TOP; cbn; lia.
Defined.

Lemma gc_major_cleared_root_segfaults_witness : gc_major 2 cleared_gc = Fail (SegFault PTR_SIZE).
Proof.
  apply (gc_major_cleared_root_segfaults cleared_gc (2 * PTR_SIZE) 2);
    [change (gc_ref_count cleared_gc) with 1; unfold GC_MAX_REFS; lia|reflexivity|vm_compute; reflexivity|lia].
Defined.

Lemma gc_major_new_collector_diverges_witness :
  gc_major 5 (gc_new (fun _ => 0) 65536 (fun _ => 0) (fun _ => (0, 0))) = Fail OutOfFuel.
Proof.
  apply gc_major_new_collector_diverges;
    [unfold placed, major_hi, GC_MINHEAP_SIZE, GC_MAJHEAP_SIZE, NULL_PAGE, USER_TOP; cbn; lia
    |vm_compute; reflexivity|vm_compute; discriminate].
Defined.
