(* ===== verification/Minor.v ===== *)
(** * Nursery and minor collection (gc.c lines 78-90, 116-131, 197-268, 287-301)

    The nursery is [GC_MINCHUNKS] slots of [GC_MINCHUNK_SIZE] bytes;
    [gc_minor_alloc] hands out the slot [gc_free_chunk] and, when none is
    left, runs [gc_minor] and retries.  [gc_minor] marks the slots the
    roots reach ([mark_minor], [gc_mark_chunk]), promotes slots to the
    major arena ([copy_minor_heap]): it allocates a major chunk for every
    allocated slot, records it in [gc_backpatch], redirects roots
    ([backpatch_refs]) and fields ([backpatch_chunk]) to it, copies the
    slot, and finally empties the nursery.  [gc_alloc] tries the nursery
    first and the major arena second.

    One [fuel] bounds every loop of a routine and the depth of the
    recursions of [gc_mark_chunk] and [gc_minor_alloc]. *)

From stdpp Require Import base decidable numbers.
From Stdlib Require Import ZArith Lia Bool List.
From S2P Require Import Prelude Memory Layout Roots MajorAlloc Arena.

Import ListNotations.
Open Scope Z_scope.
Open Scope gc_monad_scope.

(** ** [gc_mark_chunk] (lines 78-90). *)

(** The body of its field loop (lines 82-88). *)
Definition mark_minor_field (mark : Z -> M unit) (chunk i : Z) : M unit :=
  p <- load_ptr (BITS_AT chunk i) ;;
  isref <- gets (fun st => REF_PTR_MIN st p) ;;
  if isref then
    ptr <- load_ptr (BITS_AT chunk i) ;;
    ref <- gets (fun st => MINOR_CHUNK st ptr) ;;
    m <- MARKED ref ;;
    if m then ret tt else mark ref
  else ret tt.

Fixpoint gc_mark_chunk (fuel : nat) (chunk : Z) : M unit :=
  match fuel with
  | O => fail OutOfFuel
  | S f =>
      MARK_CHUNK chunk 1 ;;
      for_fields (mark_minor_field (gc_mark_chunk f) chunk) chunk fuel 0
  end.

(** ** [mark_minor] (lines 197-211). *)

(** [memset(gc->gc_backpatch, 0, sizeof(gc->gc_backpatch))]. *)
Definition clear_backpatch : M unit :=
  modify (fun st => {| gc_mem := gc_mem st; gc_base := gc_base st;
                       gc_free_chunk := gc_free_chunk st; gc_ref_count := gc_ref_count st;
                       gc_backpatch := fun _ => 0; gc_refs := gc_refs st |}).

Definition mark_minor_slot (fuel : nat) (ref : Z) : M unit :=
  p <- load_ptr ref ;;
  isref <- gets (fun st => REF_PTR_MIN st p) ;;
  if isref then
    p' <- load_ptr ref ;;
    c <- gets (fun st => MINOR_CHUNK st p') ;;
    gc_mark_chunk fuel c
  else ret tt.

Definition mark_minor (fuel : nat) : M unit :=
  clear_backpatch ;; for_root_slots (mark_minor_slot fuel) fuel.

(** ** [backpatch_chunk] (lines 213-226).  [*BITS_AT(chunk, i) += new_ptr - ref]
    adds a byte offset to the field. *)
Definition backpatch_field (chunk i : Z) : M unit :=
  p <- load_ptr (BITS_AT chunk i) ;;
  isref <- gets (fun st => REF_PTR_MIN st p) ;;
  if isref then
    ptr <- load_ptr (BITS_AT chunk i) ;;
    ref <- gets (fun st => MINOR_CHUNK st ptr) ;;
    m <- MARKED ref ;;
    if m then
      off <- gets (fun st => CHUNK_OFFSET st ref) ;;
      new_ptr <- backpatch_get off ;;
      v <- load_ptr (BITS_AT chunk i) ;;
      store_ptr (BITS_AT chunk i) (v + (new_ptr - ref))
    else ret tt
  else ret tt.

Definition backpatch_chunk (fuel : nat) (chunk : Z) : M unit :=
  for_fields (backpatch_field chunk) chunk fuel 0.

(** ** [backpatch_refs] (lines 228-247): no [MEM_TAG] test, only
    [POINTS_MINOR]. *)
Definition backpatch_slot (ref : Z) : M unit :=
  p <- load_ptr ref ;;
  pm <- gets (fun st => POINTS_MINOR st p) ;;
  if pm then
    p' <- load_ptr ref ;;
    chunk <- gets (fun st => MINOR_CHUNK st p') ;;
    m <- MARKED chunk ;;
    if m then
      off <- gets (fun st => CHUNK_OFFSET st chunk) ;;
      new_ptr <- backpatch_get off ;;
      if new_ptr =? 0 then ret tt else
      v <- load_ptr ref ;;
      store_ptr ref (v + (new_ptr - chunk))
    else ret tt
  else ret tt.

Definition backpatch_refs (fuel : nat) : M unit := for_root_slots backpatch_slot fuel.

(** ** [copy_minor_heap] (lines 249-268). *)

(** First loop (lines 252-256): a major chunk for every allocated slot,
    marked or not.  [(int) WITH_HEADER(CHUNK_SIZE(chunk))] is passed to
    [gc_major_alloc], which adds a header again; [WITHOUT_HEADER] of its
    result is stored, [-4] for a null result. *)
Fixpoint promote_loop (fuel n : nat) (i : Z) : M unit :=
  match n with
  | O => fail OutOfFuel
  | S n' =>
      fc <- gets gc_free_chunk ;;
      if i <? fc then
        chunk <- gets (fun st => CHUNK_AT st i) ;;
        s <- CHUNK_SIZE chunk ;;
        a <- gc_major_alloc fuel (to_int32 (WITH_HEADER s)) ;;
        backpatch_set i (WITHOUT_HEADER a) ;;
        promote_loop fuel n' (i + 1)
      else ret tt
  end.

(** Second loop (lines 258-260): bounded by [gc_ref_count]. *)
Fixpoint backpatch_loop (fuel n : nat) (i : Z) : M unit :=
  match n with
  | O => fail OutOfFuel
  | S n' =>
      rc <- gets gc_ref_count ;;
      if i <? rc then
        chunk <- gets (fun st => CHUNK_AT st i) ;;
        backpatch_chunk fuel chunk ;;
        backpatch_loop fuel n' (i + 1)
      else ret tt
  end.

(** Third loop (lines 261-267): bounded by [gc_ref_count] as well. *)
Fixpoint copy_loop (n : nat) (i : Z) : M unit :=
  match n with
  | O => fail OutOfFuel
  | S n' =>
      rc <- gets gc_ref_count ;;
      if i <? rc then
        chunk <- gets (fun st => CHUNK_AT st i) ;;
        m <- MARKED chunk ;;
        (if m then
           new <- backpatch_get i ;;
           s <- CHUNK_SIZE chunk ;;
           gc_memcpy new chunk s
         else ret tt) ;;
        copy_loop n' (i + 1)
      else ret tt
  end.

Definition copy_minor_heap (fuel : nat) : M unit :=
  promote_loop fuel fuel 0 ;;
  backpatch_refs fuel ;;
  backpatch_loop fuel fuel 0 ;;
  copy_loop fuel 0.

(** ** [gc_minor] (lines 287-292). *)
Definition gc_minor (fuel : nat) : M unit :=
  mark_minor fuel ;;
  copy_minor_heap fuel ;;
  set_free_chunk 0.

(** ** [gc_minor_alloc] (lines 116-131). *)

(** The header-inclusive size of a nursery request: [(int) WITH_HEADER(ALIGN(size))]. *)
Definition minor_request (size : Z) : Z := to_int32 (WITH_HEADER (ALIGN size)).

Fixpoint gc_minor_alloc (fuel : nat) (size0 : Z) : M Z :=
  match fuel with
  | O => fail OutOfFuel
  | S f =>
      if size0 =? 0 then ret 0 else
      let size := minor_request size0 in
      if GC_MINCHUNK_SIZE <? size then ret 0 else
      fc <- gets gc_free_chunk ;;
      if GC_MINCHUNKS <=? fc then
        gc_minor fuel ;;
        gc_minor_alloc f (to_int32 (WITHOUT_HEADER size))
      else
        chunk <- gets (fun st => CHUNK_AT st fc) ;;
        set_FLAGS chunk (wrap32 size) ;;
        fc' <- gets gc_free_chunk ;;
        set_free_chunk (fc' + 1) ;;
        chunk' <- gets (fun st => CHUNK_AT st fc') ;;
        ret (BITS chunk')
  end.

(** ** [gc_alloc] (lines 294-301). *)
Definition gc_alloc (fuel : nat) (size : Z) : M Z :=
  p <- gc_minor_alloc fuel size ;;
  if p =? 0 then gc_major_alloc fuel size else ret p.

(** ** Concrete collectors of the examples.

    [client_root slot v st] is what a client does to root a value: store
    [v] in the word at [slot] and register it with [gc_add_single_ref].
    [two_objs l] is the arena [l] and two 16-byte objects allocated in
    the nursery, in slots 0 and 1. *)
Definition client_root (slot v : Z) (st : collector) : collector :=
  final_state (gc_add_single_ref slot) (set_mem st (store_le 8 (gc_mem st) slot v)).

Definition two_objs (l : list (Z * gc_color)) : collector :=
  final_state (gc_minor_alloc 2 16) (final_state (gc_minor_alloc 2 16) (arena_gc l)).

(** The arena [two_chunks], and a root to each object. *)
Definition promote_alias_gc : collector :=
  client_root 8200 (gc_base sample_gc + GC_MINCHUNK_SIZE + 4)
    (client_root 8192 (gc_base sample_gc + 4) (two_objs two_chunks)).

(** ** The nursery as slots.

    [slot_hdr st i] is the header word of slot [i].  A nursery is
    well formed when no slot header claims more than a slot; [unmarked]
    counts the slots whose mark bit is clear, the measure that bounds
    the recursion of [gc_mark_chunk]; [marks_only st st'] says [st'] is
    [st] with at most slot headers rewritten, every size kept and every
    mark kept. *)
Definition slot_hdr (st : collector) (i : Z) : Z := load_le 4 (gc_mem st) (CHUNK_AT st i).

Definition slot_starts (st : collector) : list Z :=
  map (fun k => CHUNK_AT st (Z.of_nat k)) (seq 0 (Z.to_nat GC_MINCHUNKS)).

Definition nursery_wf (st : collector) : Prop :=
  forall i, 0 <= i < GC_MINCHUNKS -> size_bits (slot_hdr st i) <= GC_MINCHUNK_SIZE.

(** [nursery_wf] as a check of the [GC_MINCHUNKS] headers. *)
Definition nursery_wfb (st : collector) : bool :=
  forallb (fun k => size_bits (slot_hdr st (Z.of_nat k)) <=? GC_MINCHUNK_SIZE)
          (seq 0 (Z.to_nat GC_MINCHUNKS)).

Definition slot_marked (st : collector) (i : Z) : bool := negb (mark_bit (slot_hdr st i) =? 0).

Fixpoint unmarked_upto (n : nat) (st : collector) : nat :=
  match n with
  | O => O
  | S n' => unmarked_upto n' st + (if slot_marked st (Z.of_nat n') then 0 else 1)
  end.

Definition unmarked (st : collector) : nat := unmarked_upto (Z.to_nat GC_MINCHUNKS) st.

Definition marks_only (st st' : collector) : Prop :=
  headers_only (slot_starts st) st st' /\
  forall i, 0 <= i < GC_MINCHUNKS ->
    size_bits (slot_hdr st' i) = size_bits (slot_hdr st i) /\
    (slot_marked st i = true -> slot_marked st' i = true).

(** ** [gc_minor_alloc] on a free slot. *)

Lemma ALIGN_int x : int32_range (x + 3) -> ALIGN x = x + 3 - (x + 3) mod 4.
Proof. intros H. unfold ALIGN. rewrite to_int32_small by exact H. apply land_lnot3. Qed.

(** With a slot left, [gc_minor_alloc] writes the request size into the
    slot header, counts the slot and returns its payload. *)
Lemma gc_minor_alloc_free_slot st fuel n :
  placed st -> n <> 0 -> minor_request n <= GC_MINCHUNK_SIZE ->
  0 <= gc_free_chunk st < GC_MINCHUNKS -> (0 < fuel)%nat ->
  gc_minor_alloc fuel n st =
  Ok (CHUNK_AT st (gc_free_chunk st) + 4,
      {| gc_mem := store_le 4 (gc_mem st) (CHUNK_AT st (gc_free_chunk st)) (wrap32 (minor_request n));
         gc_base := gc_base st; gc_free_chunk := gc_free_chunk st + 1;
         gc_ref_count := gc_ref_count st; gc_backpatch := gc_backpatch st; gc_refs := gc_refs st |}).
Proof.
  intros Hpl Hn Hr Hfc Hf. destruct fuel as [|f]; [lia|]. cbn [gc_minor_alloc].
  rewrite (proj2 (Z.eqb_neq n 0)) by exact Hn. cbv zeta.
  rewrite (proj2 (Z.ltb_ge _ _)) by exact Hr.
  rewrite bind_gets, (proj2 (Z.leb_gt _ _)) by lia. rewrite bind_gets.
  rewrite bind_set_FLAGS
    by (apply mapped_true; change GC_MINCHUNKS with 256 in *;
        unfold CHUNK_AT, GC_MINCHUNK_SIZE, GC_MINHEAP_SIZE in *; arena_lia).
  reflexivity.
Qed.

Lemma minor_request_pos n : 0 < n <= GC_MINCHUNK_SIZE - 4 ->
  minor_request n = ALIGN n + 4 /\ ALIGN n mod 4 = 0 /\ n <= ALIGN n <= n + 3.
Proof.
  unfold GC_MINCHUNK_SIZE. intros Hn. destruct (ALIGN_round n ltac:(lia)) as [Hm Hb].
  unfold minor_request, WITH_HEADER, INT_SIZE. rewrite to_int32_small by (unfold int32_range; lia).
  auto.
Qed.

Lemma minor_request_neg n : - 2 ^ 31 + 4 <= n <= -8 ->
  minor_request n = ALIGN n + 4 /\ ALIGN n mod 4 = 0 /\ n <= ALIGN n <= n + 3.
Proof.
  intros Hn. pose proof (Z.mod_pos_bound (n + 3) 4). pose proof (Z.div_mod (n + 3) 4).
  unfold minor_request, WITH_HEADER, INT_SIZE. rewrite ALIGN_int by (unfold int32_range; lia).
  rewrite to_int32_small by (unfold int32_range; lia).
  split; [reflexivity|]. split; [|lia].
  replace (n + 3 - (n + 3) mod 4) with (4 * ((n + 3) / 4)) by lia.
  rewrite Z.mul_comm. apply Z.mod_mul. lia.
Qed.

(** The header [gc_minor_alloc] writes, read back. *)
Lemma minor_header_read st a w : mapped a 4 = true -> 0 <= w < 2 ^ 32 -> w mod 4 = 0 ->
  CHUNK_SIZE a (set_mem st (store_le 4 (gc_mem st) a w)) =
    Ok (w, set_mem st (store_le 4 (gc_mem st) a w)) /\
  MARKED a (set_mem st (store_le 4 (gc_mem st) a w)) =
    Ok (false, set_mem st (store_le 4 (gc_mem st) a w)).
Proof.
  intros Hm Hw H4. unfold CHUNK_SIZE, MARKED, FLAGS.
  rewrite !(bind_Ok _ _ _ _ _ (load_Ok _ 4 a Hm)), set_mem_mem, load_store_le_same.
  change (2 ^ (8 * Z.of_nat 4)) with (2 ^ 32). rewrite Z.mod_small by exact Hw.
  rewrite size_bits_mul4 by lia. unfold mark_bit. rewrite land1.
  assert (E2 : w mod 2 = 0).
  { pose proof (Z.div_mod w 4). replace w with ((2 * (w / 4)) * 2) by lia. apply Z.mod_mul. lia. }
  rewrite E2. split; reflexivity.
Qed.

(** ** Properties of the nursery allocator. *)

(** C30. A request of 1 to [GC_MINCHUNK_SIZE - 4] bytes with a slot left
    gets the payload of slot [gc_free_chunk]: its header holds the
    aligned size plus the header, unmarked, the slot is counted, and no
    other byte changes. *)
Theorem gc_minor_alloc_slot st fuel n :
  placed st -> 0 < n <= GC_MINCHUNK_SIZE - 4 -> 0 <= gc_free_chunk st < GC_MINCHUNKS -> (0 < fuel)%nat ->
  exists st', gc_minor_alloc fuel n st = Ok (CHUNK_AT st (gc_free_chunk st) + 4, st') /\
    gc_free_chunk st' = gc_free_chunk st + 1 /\
    CHUNK_SIZE (CHUNK_AT st (gc_free_chunk st)) st' = Ok (ALIGN n + 4, st') /\
    MARKED (CHUNK_AT st (gc_free_chunk st)) st' = Ok (false, st') /\
    (forall x, x < CHUNK_AT st (gc_free_chunk st) \/ CHUNK_AT st (gc_free_chunk st) + 4 <= x ->
       gc_mem st' x = gc_mem st x).
Proof.
  intros Hpl Hn Hfc Hf. destruct (minor_request_pos n Hn) as (Er & Hm4 & Hb).
  unfold GC_MINCHUNK_SIZE in Hn. pose proof (Z.div_mod (ALIGN n) 4).
  rewrite (gc_minor_alloc_free_slot st fuel n Hpl) by (try rewrite Er; unfold GC_MINCHUNK_SIZE; lia).
  eexists. split; [reflexivity|]. split; [reflexivity|].
  assert (Hm : mapped (CHUNK_AT st (gc_free_chunk st)) 4 = true)
    by (apply mapped_true; change GC_MINCHUNKS with 256 in *;
        unfold CHUNK_AT, GC_MINCHUNK_SIZE, GC_MINHEAP_SIZE in *; arena_lia).
  rewrite Er, wrap32_small by lia.
  destruct (minor_header_read
                   {| gc_mem := gc_mem st; gc_base := gc_base st; gc_free_chunk := gc_free_chunk st + 1;
                    gc_ref_count := gc_ref_count st; gc_backpatch := gc_backpatch st;
                    gc_refs := gc_refs st |}
                   _ (ALIGN n + 4) Hm ltac:(lia) ltac:(rewrite Zplus_mod, Hm4; reflexivity))
    as [E1 E2].
  split; [exact E1|]. split; [exact E2|].
  intros x Hx. apply store_le_outside. cbn. lia.
Qed.

(** C26. A negative request is not rejected: [ALIGN] keeps it negative,
    the test [size > GC_MINCHUNK_SIZE] lets it through, and the slot is
    handed out with a header whose size, read as [unsigned int], is
    above [2^31]; the field loops of both collections then walk far past
    the slot. *)
Theorem gc_minor_alloc_negative_size st fuel n :
  placed st -> - 2 ^ 31 + 4 <= n <= -8 -> 0 <= gc_free_chunk st < GC_MINCHUNKS -> (0 < fuel)%nat ->
  exists st', gc_minor_alloc fuel n st = Ok (CHUNK_AT st (gc_free_chunk st) + 4, st') /\
    CHUNK_SIZE (CHUNK_AT st (gc_free_chunk st)) st' = Ok (2 ^ 32 + ALIGN n + 4, st') /\
    2 ^ 31 < 2 ^ 32 + ALIGN n + 4.
Proof.
  intros Hpl Hn Hfc Hf. destruct (minor_request_neg n Hn) as (Er & Hm4 & Hb).
  rewrite (gc_minor_alloc_free_slot st fuel n Hpl) by (try rewrite Er; unfold GC_MINCHUNK_SIZE; lia).
  eexists. split; [reflexivity|].
  assert (Hm : mapped (CHUNK_AT st (gc_free_chunk st)) 4 = true)
    by (apply mapped_true; change GC_MINCHUNKS with 256 in *;
        unfold CHUNK_AT, GC_MINCHUNK_SIZE, GC_MINHEAP_SIZE in *; arena_lia).
  assert (W : wrap32 (minor_request n) = 2 ^ 32 + ALIGN n + 4).
  { rewrite Er. unfold wrap32. rewrite <- (Z.mod_add _ 1 (2 ^ 32)) by lia.
    rewrite Z.mod_small by lia. lia. }
  rewrite W.
  destruct (minor_header_read
                   {| gc_mem := gc_mem st; gc_base := gc_base st; gc_free_chunk := gc_free_chunk st + 1;
                    gc_ref_count := gc_ref_count st; gc_backpatch := gc_backpatch st;
                    gc_refs := gc_refs st |}
                   _ (2 ^ 32 + ALIGN n + 4) Hm ltac:(lia)) as [E1 _].
  { pose proof (Z.div_mod (ALIGN n) 4). rewrite Hm4 in *.
    replace (2 ^ 32 + ALIGN n + 4) with ((2 ^ 30 + ALIGN n / 4 + 1) * 4) by lia. apply Z.mod_mul. lia. }
  split; [exact E1|lia].
Qed.

(** C31. [gc_alloc] sends a request too large for a nursery slot to
    [gc_major_alloc], on the unchanged state. *)
Theorem gc_alloc_large_goes_major st fuel n :
  GC_MINCHUNK_SIZE - 4 < n <= 2 ^ 31 - 8 -> (0 < fuel)%nat ->
  gc_alloc fuel n st = gc_major_alloc fuel n st.
Proof.
  intros Hn Hf. destruct fuel as [|f]; [lia|]. unfold gc_alloc. cbn [gc_minor_alloc].
  unfold GC_MINCHUNK_SIZE in *.
  destruct (ALIGN_round n ltac:(lia)) as [_ Hb].
  unfold minor_request, WITH_HEADER, INT_SIZE. rewrite to_int32_small by (unfold int32_range; lia).
  rewrite (proj2 (Z.eqb_neq n 0)) by lia. cbv zeta.
  rewrite (proj2 (Z.ltb_lt 256 _)) by lia. rewrite bind_ret_l. reflexivity.
Qed.

(** ** Witnesses of the nursery properties. *)

Lemma sample_placed : placed sample_gc.
Proof. unfold placed, major_hi, GC_MINHEAP_SIZE, GC_MAJHEAP_SIZE, NULL_PAGE, USER_TOP. cbn. lia. Qed.

Lemma gc_minor_alloc_slot_witness :
  exists st', gc_minor_alloc 1 16 sample_gc = Ok (CHUNK_AT sample_gc (gc_free_chunk sample_gc) + 4, st') /\
    gc_free_chunk st' = gc_free_chunk sample_gc + 1 /\
    CHUNK_SIZE (CHUNK_AT sample_gc (gc_free_chunk sample_gc)) st' = Ok (ALIGN 16 + 4, st') /\
    MARKED (CHUNK_AT sample_gc (gc_free_chunk sample_gc)) st' = Ok (false, st') /\
    (forall x, x < CHUNK_AT sample_gc (gc_free_chunk sample_gc) \/
               CHUNK_AT sample_gc (gc_free_chunk sample_gc) + 4 <= x ->
       gc_mem st' x = gc_mem sample_gc x).
Proof.
  apply gc_minor_alloc_slot;
    [exact sample_placed|unfold GC_MINCHUNK_SIZE; lia|vm_compute; split; [discriminate|reflexivity]|lia].
Defined.

Lemma gc_minor_alloc_negative_size_witness :
  exists st', gc_minor_alloc 1 (-100) sample_gc = Ok (CHUNK_AT sample_gc (gc_free_chunk sample_gc) + 4, st') /\
    CHUNK_SIZE (CHUNK_AT sample_gc (gc_free_chunk sample_gc)) st' = Ok (2 ^ 32 + ALIGN (-100) + 4, st') /\
    2 ^ 31 < 2 ^ 32 + ALIGN (-100) + 4.
Proof.
  apply gc_minor_alloc_negative_size;
    [exact sample_placed|lia|vm_compute; split; [discriminate|reflexivity]|lia].
Defined.

Lemma gc_alloc_large_goes_major_witness : gc_alloc 1 1000 sample_gc = gc_major_alloc 1 1000 sample_gc.
Proof. apply gc_alloc_large_goes_major; [unfold GC_MINCHUNK_SIZE; lia|lia]. Defined.

(** ** Slots and their marks. *)
Section Slots.

Lemma GC_MINCHUNKS_eq : GC_MINCHUNKS = 256.
Proof. reflexivity. Qed.

Lemma slot_mapped st i n : placed st -> 0 <= i < GC_MINCHUNKS -> 0 <= n <= GC_MINCHUNK_SIZE + 4 ->
  mapped (CHUNK_AT st i) n = true.
Proof.
  rewrite GC_MINCHUNKS_eq. intros Hpl Hi Hn. apply mapped_true;
    unfold CHUNK_AT, GC_MINCHUNK_SIZE in *; arena_lia.
Qed.

Lemma in_slot_starts st i : 0 <= i < GC_MINCHUNKS -> In (CHUNK_AT st i) (slot_starts st).
Proof.
  intros Hi. unfold slot_starts. apply in_map_iff. exists (Z.to_nat i).
  split; [rewrite Z2Nat.id by lia; reflexivity|]. apply in_seq. rewrite GC_MINCHUNKS_eq in *. lia.
Qed.

Lemma slot_hdr_disjoint st m j i v : i <> j ->
  load_le 4 (store_le 4 m (CHUNK_AT st j) v) (CHUNK_AT st i) = load_le 4 m (CHUNK_AT st i).
Proof.
  intros Hij. apply load_store_le_disjoint. unfold CHUNK_AT, GC_MINCHUNK_SIZE. cbn.
  assert (i < j \/ j < i) as [H|H] by lia; [right|left]; nia.
Qed.

Lemma slot_starts_base st st' : gc_base st' = gc_base st -> slot_starts st' = slot_starts st.
Proof. intros E. unfold slot_starts, CHUNK_AT. now rewrite E. Qed.

Lemma marks_only_base st st' : marks_only st st' ->
  gc_base st' = gc_base st /\ CHUNK_AT st' = CHUNK_AT st /\ (placed st' <-> placed st) /\
  gc_refs st' = gc_refs st /\ gc_ref_count st' = gc_ref_count st.
Proof.
  intros [Hh _]. destruct (headers_only_base _ _ _ Hh) as (Eb & _ & _ & Ec & Er & Ep).
  unfold CHUNK_AT. rewrite Eb. auto.
Qed.

Lemma marks_only_refl st : marks_only st st.
Proof. split; [apply headers_only_refl|]. intros i Hi. auto. Qed.

Lemma marks_only_trans st1 st2 st3 : marks_only st1 st2 -> marks_only st2 st3 -> marks_only st1 st3.
Proof.
  intros H12 H23. pose proof (marks_only_base _ _ H12) as (Eb & _).
  destruct H12 as [Hh12 P12], H23 as [Hh23 P23]. split.
  - rewrite (slot_starts_base _ _ Eb) in Hh23. exact (headers_only_trans _ _ _ _ Hh12 Hh23).
  - intros i Hi. destruct (P12 i Hi) as [S12 M12], (P23 i Hi) as [S23 M23]. split; [congruence|auto].
Qed.

Lemma marks_only_wf st st' : marks_only st st' -> nursery_wf st -> nursery_wf st'.
Proof. intros [_ P] Hwf i Hi. rewrite (proj1 (P i Hi)). exact (Hwf i Hi). Qed.

Lemma unmarked_upto_mono n st st' :
  (forall i, 0 <= i < Z.of_nat n -> slot_marked st i = true -> slot_marked st' i = true) ->
  (unmarked_upto n st' <= unmarked_upto n st)%nat.
Proof.
  induction n as [|n IH]; intros H; cbn [unmarked_upto]; [lia|].
  assert (IH' := IH ltac:(intros i Hi; apply H; lia)).
  destruct (slot_marked st (Z.of_nat n)) eqn:E.
  - rewrite (H (Z.of_nat n) ltac:(lia) E). lia.
  - destruct (slot_marked st' (Z.of_nat n)); lia.
Qed.

Lemma unmarked_upto_mark n st st' j :
  (forall i, 0 <= i < Z.of_nat n -> i <> j -> slot_marked st' i = slot_marked st i) ->
  0 <= j < Z.of_nat n -> slot_marked st j = false -> slot_marked st' j = true ->
  (unmarked_upto n st' + 1 = unmarked_upto n st)%nat.
Proof.
  induction n as [|n IH]; intros H Hj Hs Hs'; [lia|]. cbn [unmarked_upto].
  destruct (Z.eq_dec j (Z.of_nat n)) as [->|Hne].
  - rewrite Hs, Hs'.
    assert (E : unmarked_upto n st' = unmarked_upto n st).
    { apply Nat.le_antisymm; apply unmarked_upto_mono; intros i Hi M;
        first [rewrite H by lia; exact M | rewrite H in M by lia; exact M]. }
    lia.
  - rewrite (H (Z.of_nat n) ltac:(lia) ltac:(lia)).
    rewrite <- (IH ltac:(intros i Hi Hne'; apply H; lia) ltac:(lia) Hs Hs'). lia.
Qed.

End Slots.

(** ** Marking one slot: [MARK_CHUNK(chunk, 1)]. *)
Lemma mark_slot st j : placed st -> 0 <= j < GC_MINCHUNKS ->
  exists st1, MARK_CHUNK (CHUNK_AT st j) 1 st = Ok (tt, st1) /\ marks_only st st1 /\
    slot_marked st1 j = true /\
    (unmarked st1 + (if slot_marked st j then 0 else 1) = unmarked st)%nat /\
    (forall i, i <> j -> slot_hdr st1 i = slot_hdr st i).
Proof.
  intros Hpl Hj. pose proof (slot_mapped st j 4 Hpl Hj ltac:(unfold GC_MINCHUNK_SIZE; lia)) as Hm.
  eexists. split; [apply MARK_CHUNK_Ok, Hm|].
  set (h := load_le 4 (gc_mem st) (CHUNK_AT st j)).
  destruct (mark_header h 1 (load32_bound _ _) ltac:(lia)) as (E1 & E2 & E3).
  set (st1 := set_mem st (store_le 4 (gc_mem st) (CHUNK_AT st j) (Z.lor (size_bits h) 1))).
  assert (Hj1 : slot_hdr st1 j = size_bits h + 1).
  { unfold slot_hdr, st1. cbn [CHUNK_AT set_mem gc_base gc_mem].
    rewrite load_store_le_same. exact E1. }
  assert (Hi1 : forall i, i <> j -> slot_hdr st1 i = slot_hdr st i)
    by (intros i Hij; unfold slot_hdr; change (CHUNK_AT st1 i) with (CHUNK_AT st i);
        apply slot_hdr_disjoint, Hij).
  assert (Mj : slot_marked st1 j = true).
  { unfold slot_marked, mark_bit. rewrite Hj1, land1.
    rewrite flag_bits_eq in E3. rewrite <- Z.mod_mod_divide with (b := 4) by (try exists 2; lia).
    rewrite E3. reflexivity. }
  split; [split|split; [exact Mj|split; [|exact Hi1]]].
  - apply (headers_only_mono [CHUNK_AT st j]); [|apply headers_only_store].
    intros x [<-|[]]. apply in_slot_starts, Hj.
  - intros i Hi. destruct (Z.eq_dec i j) as [->|Hij].
    + rewrite Hj1, E2. split; [reflexivity|intros; exact Mj].
    + unfold slot_marked. rewrite (Hi1 i Hij). split; auto.
  - unfold unmarked. destruct (slot_marked st j) eqn:Mst.
    + rewrite Nat.add_0_r. apply Nat.le_antisymm; apply unmarked_upto_mono; intros i Hi M;
        (destruct (Z.eq_dec i j) as [->|Hij]; [congruence|]);
        unfold slot_marked in *; first [rewrite Hi1 by exact Hij; exact M | rewrite Hi1 in M by exact Hij; exact M].
    + apply (unmarked_upto_mark _ _ _ j); [| |exact Mst|exact Mj].
      * intros i _ Hij. unfold slot_marked. now rewrite Hi1.
      * rewrite GC_MINCHUNKS_eq in *. lia.
Qed.

Lemma field_mapped st j i : placed st -> 0 <= j < GC_MINCHUNKS -> 0 <= i < 32 ->
  mapped (BITS_AT (CHUNK_AT st j) i) 8 = true.
Proof.
  rewrite GC_MINCHUNKS_eq. intros Hpl Hj Hi. apply mapped_true;
    unfold BITS_AT, BITS, WITH_HEADER, INT_SIZE, PTR_SIZE, CHUNK_AT, GC_MINCHUNK_SIZE in *; arena_lia.
Qed.

Lemma MARKED_slot st j : placed st -> 0 <= j < GC_MINCHUNKS ->
  MARKED (CHUNK_AT st j) st = Ok (slot_marked st j, st).
Proof.
  intros Hpl Hj. unfold MARKED, FLAGS.
  rewrite (bind_Ok _ _ _ _ _ (load_Ok _ 4 _ (slot_mapped st j 4 Hpl Hj ltac:(unfold GC_MINCHUNK_SIZE; lia)))).
  reflexivity.
Qed.

Lemma PTR_INDEX_slot s : s <= GC_MINCHUNK_SIZE -> PTR_INDEX s <= 32.
Proof.
  unfold PTR_INDEX, PTR_SIZE, GC_MINCHUNK_SIZE. intros H.
  apply Z.div_le_upper_bound; lia.
Qed.

(** [gc_mark_chunk] on slot [j] of a well-formed nursery, with fuel above
    the number of unmarked slots by the length of the field loop: it
    returns, marks the slot, keeps every size and mark, rewrites only
    slot headers, and the number of unmarked slots does not grow. *)
Lemma gc_mark_chunk_run fuel : forall st j,
  placed st -> nursery_wf st -> 0 <= j < GC_MINCHUNKS ->
  (unmarked st + 34 <= fuel + (if slot_marked st j then 0 else 1))%nat ->
  exists st', gc_mark_chunk fuel (CHUNK_AT st j) st = Ok (tt, st') /\ marks_only st st' /\
    slot_marked st' j = true /\
    (unmarked st' + (if slot_marked st j then 0 else 1) <= unmarked st)%nat.
Proof.
  induction fuel as [|f IH]; intros st j Hpl Hwf Hj Hf; [destruct (slot_marked st j); lia|].
  cbn [gc_mark_chunk].
  destruct (mark_slot st j Hpl Hj) as (st1 & E1 & Hmo1 & Mj & U1 & _).
  rewrite (bind_Ok _ _ _ _ _ E1).
  set (s := size_bits (slot_hdr st j)).
  assert (Hs : PTR_INDEX s <= 32) by (apply PTR_INDEX_slot, Hwf, Hj).
  destruct (for_fields_inv (mark_minor_field (gc_mark_chunk f) (CHUNK_AT st j)) (CHUNK_AT st j) s
              (fun st' => marks_only st1 st' /\ (unmarked st' <= unmarked st1)%nat))
    with (n := S f) (i := 0) (st := st1) as (st2 & E2 & Hmo2 & U2).
  - intros st' [Hmo' _]. pose proof (marks_only_trans _ _ _ Hmo1 Hmo') as Hmo.
    split; [apply slot_mapped; auto; unfold GC_MINCHUNK_SIZE; lia|].
    destruct (marks_only_base _ _ Hmo) as (_ & Ec & _).
    unfold s. rewrite <- (proj1 (proj2 Hmo j Hj)). unfold slot_hdr. now rewrite Ec.
  - intros st' i [Hmo' U'] Hi. pose proof (marks_only_trans _ _ _ Hmo1 Hmo') as Hmo.
    destruct (marks_only_base _ _ Hmo) as (_ & Ec & Ep & _).
    assert (Hpl' : placed st') by (apply Ep, Hpl).
    unfold mark_minor_field.
    rewrite bind_load_ptr by (apply field_mapped; auto; lia). rewrite bind_gets.
    destruct (REF_PTR_MIN st' _) eqn:R; [|exists st'; auto].
    rewrite bind_load_ptr by (apply field_mapped; auto; lia). rewrite bind_gets.
    unfold REF_PTR_MIN in R. apply andb_true_iff in R as [_ R].
    destruct (MINOR_CHUNK_slot st' _ R) as (_ & Hk & Ek). cbv zeta in Hk, Ek.
    rewrite <- Ek, (bind_Ok _ _ _ _ _ (MARKED_slot st' _ Hpl' Hk)).
    set (k := CHUNK_OFFSET st' _) in *.
    destruct (slot_marked st' k) eqn:Mk; [exists st'; auto|].
    assert (Hk' : 0 <= k < GC_MINCHUNKS) by exact Hk.
    destruct (IH st' k Hpl' (marks_only_wf _ _ Hmo Hwf) Hk') as (st'' & E'' & Hmo'' & _ & U'');
      [rewrite Mk; destruct (slot_marked st j); lia|].
    rewrite Mk in U''. exists st''. split; [exact E''|].
    split; [exact (marks_only_trans _ _ _ Hmo' Hmo'')|lia].
  - split; [apply marks_only_refl|lia].
  - lia.
  - destruct (slot_marked st j); lia.
  - exists st2. split; [exact E2|]. split; [exact (marks_only_trans _ _ _ Hmo1 Hmo2)|].
    split; [exact (proj2 (proj2 Hmo2 j Hj) Mj)|lia].
Qed.

Lemma unmarked_upto_le n st : (unmarked_upto n st <= n)%nat.
Proof. induction n as [|n IH]; cbn [unmarked_upto]; [lia|]. destruct (slot_marked st _); lia. Qed.

Lemma unmarked_le st : (unmarked st <= 256)%nat.
Proof. apply unmarked_upto_le. Qed.

(** [clear_backpatch] touches neither memory nor registry. *)
Lemma clear_backpatch_Ok st :
  clear_backpatch st =
  Ok (tt, {| gc_mem := gc_mem st; gc_base := gc_base st; gc_free_chunk := gc_free_chunk st;
             gc_ref_count := gc_ref_count st; gc_backpatch := fun _ => 0; gc_refs := gc_refs st |}).
Proof. reflexivity. Qed.

(** ** Termination of the minor marking. *)

(** C14. [gc_mark_chunk] terminates: on a well-formed nursery (no slot
    header claims more than a slot) and with fuel at least
    [GC_MINCHUNKS + 34], it returns, the chunk is marked, every slot
    keeps its size and its mark, and only slot headers are written.
    Each recursive call marks a slot that was unmarked, so the depth is
    at most the number of slots. *)
Theorem gc_mark_chunk_terminates st j fuel :
  placed st -> nursery_wf st -> 0 <= j < GC_MINCHUNKS -> (Z.to_nat GC_MINCHUNKS + 34 <= fuel)%nat ->
  exists st', gc_mark_chunk fuel (CHUNK_AT st j) st = Ok (tt, st') /\ marks_only st st' /\
    slot_marked st' j = true.
Proof.
  intros Hpl Hwf Hj Hf. pose proof (unmarked_le st). rewrite GC_MINCHUNKS_eq in Hf.
  destruct (gc_mark_chunk_run fuel st j Hpl Hwf Hj) as (st' & E & Hmo & Mj & _);
    [destruct (slot_marked st j); cbn in Hf; lia|].
  exists st'. auto.
Qed.

(** The run of [mark_minor]: it clears [gc_backpatch] and marks from every root slot. *)
Lemma mark_minor_run st fuel :
  placed st -> nursery_wf st -> roots_ok st -> roots_fuel st fuel ->
  (Z.to_nat GC_MINCHUNKS + 34 <= fuel)%nat ->
  exists st', mark_minor fuel st = Ok (tt, st') /\
    (forall i, gc_backpatch st' i = 0) /\
    marks_only (final_state clear_backpatch st) st'.
Proof.
  intros Hpl Hwf Hok Hfuel Hf. rewrite GC_MINCHUNKS_eq in Hf.
  unfold mark_minor. rewrite (bind_Ok _ _ _ _ _ (clear_backpatch_Ok st)).
  set (st0 := {| gc_mem := gc_mem st; gc_base := gc_base st; gc_free_chunk := gc_free_chunk st;
                 gc_ref_count := gc_ref_count st; gc_backpatch := fun _ => 0; gc_refs := gc_refs st |}).
  destruct (for_root_slots_inv (mark_minor_slot fuel) (fun st' => marks_only st0 st') st0 fuel)
    as (st' & E & Hmo).
  - intros st' Hmo. destruct (marks_only_base _ _ Hmo) as (_ & _ & _ & Er & Ec). auto.
  - intros st' ref Hmo Hr1 Hr2. destruct (marks_only_base _ _ Hmo) as (_ & _ & Ep & _).
    assert (Hpl' : placed st') by (apply Ep, Hpl).
    unfold mark_minor_slot. rewrite bind_load_ptr by (apply mapped_true; unfold PTR_SIZE in *; lia).
    rewrite bind_gets. destruct (REF_PTR_MIN st' _) eqn:R; [|exists st'; auto].
    rewrite bind_load_ptr by (apply mapped_true; unfold PTR_SIZE in *; lia). rewrite bind_gets.
    unfold REF_PTR_MIN in R. apply andb_true_iff in R as [_ R].
    destruct (MINOR_CHUNK_slot st' _ R) as (_ & Hk & Ek). cbv zeta in Hk, Ek. rewrite <- Ek.
    pose proof (unmarked_le st').
    destruct (gc_mark_chunk_run fuel st' _ Hpl' (marks_only_wf _ _ Hmo Hwf) Hk) as (st'' & E'' & Hmo'' & _);
      [destruct (slot_marked st' _); cbn in Hf; lia|].
    exists st''. split; [exact E''|exact (marks_only_trans _ _ _ Hmo Hmo'')].
  - exact Hok.
  - exact Hfuel.
  - apply marks_only_refl.
  - exists st'. split; [exact E|]. split; [|exact Hmo].
    destruct Hmo as [[Est _] _]. rewrite Est. reflexivity.
Qed.

(** C15. [mark_minor] terminates: on a well-formed nursery, with a
    registry whose slots can be read and fuel at least
    [GC_MINCHUNKS + 34], it clears [gc_backpatch], marks from every root
    slot, and writes nothing but slot headers. *)
Theorem mark_minor_terminates st fuel :
  placed st -> nursery_wf st -> roots_ok st -> roots_fuel st fuel ->
  (Z.to_nat GC_MINCHUNKS + 34 <= fuel)%nat ->
  exists st', mark_minor fuel st = Ok (tt, st') /\
    (forall i, gc_backpatch st' i = 0) /\
    marks_only (final_state clear_backpatch st) st'.
Proof. exact (mark_minor_run st fuel). Qed.

Lemma nursery_wfb_spec st : nursery_wfb st = true -> nursery_wf st.
Proof.
  unfold nursery_wfb. rewrite forallb_forall. intros H i Hi.
  specialize (H (Z.to_nat i)). rewrite Z2Nat.id in H by lia.
  apply Z.leb_le, H, in_seq. rewrite GC_MINCHUNKS_eq in *. lia.
Qed.

(** ** Witnesses of the marking properties. *)

Lemma two_objs_placed : placed (two_objs two_chunks).
Proof. unfold placed, major_hi, GC_MINHEAP_SIZE, GC_MAJHEAP_SIZE, NULL_PAGE, USER_TOP. vm_compute. split; discriminate. Qed.

Lemma gc_mark_chunk_terminates_witness :
  exists st', gc_mark_chunk 290 (CHUNK_AT (two_objs two_chunks) 0) (two_objs two_chunks) = Ok (tt, st') /\
    marks_only (two_objs two_chunks) st' /\ slot_marked st' 0 = true.
Proof.
  apply gc_mark_chunk_terminates;
    [exact two_objs_placed|apply nursery_wfb_spec; vm_compute; reflexivity
    |rewrite GC_MINCHUNKS_eq; lia|rewrite GC_MINCHUNKS_eq; cbn; lia].
Defined.

Lemma promote_alias_placed : placed promote_alias_gc.
Proof. unfold placed, major_hi, GC_MINHEAP_SIZE, GC_MAJHEAP_SIZE, NULL_PAGE, USER_TOP. vm_compute. split; discriminate. Qed.

Lemma promote_alias_roots_ok : roots_ok promote_alias_gc.
Proof.
  split; [vm_compute; split; discriminate|].
  intros k Hk _. change (gc_ref_count promote_alias_gc) with 2 in Hk.
  assert (k = 0 \/ k = 1) as [-> | ->] by lia; vm_compute; split; discriminate.
Qed.

Lemma promote_alias_roots_fuel : roots_fuel promote_alias_gc 290.
Proof.
  split; [vm_compute; lia|].
  intros k Hk. change (gc_ref_count promote_alias_gc) with 2 in Hk.
  assert (k = 0 \/ k = 1) as [-> | ->] by lia; vm_compute; lia.
Qed.

Lemma mark_minor_terminates_witness :
  exists st', mark_minor 290 promote_alias_gc = Ok (tt, st') /\
    (forall i, gc_backpatch st' i = 0) /\
    marks_only (final_state clear_backpatch promote_alias_gc) st'.
Proof.
  apply mark_minor_terminates;
    [exact promote_alias_placed|apply nursery_wfb_spec; vm_compute; reflexivity
    |exact promote_alias_roots_ok|exact promote_alias_roots_fuel|rewrite GC_MINCHUNKS_eq; cbn; lia].
Defined.
