(* ===== verification/MinorReach.v ===== *)
(** * Reachability in the nursery and what the minor marking marks

    The nursery as a graph: slot [k] has an edge to slot [l] when a
    payload word of [k] that [gc_mark_chunk] scans (gc.c lines 81-88) is
    a tagged nursery pointer into [l]; a root targets [l] when a root
    slot that [mark_minor] reads (lines 200-208) holds such a pointer.
    The theorems show that [gc_mark_chunk] leaves every slot it newly
    marks with its successors marked, and that [mark_minor] marks every
    slot reachable from the roots when the marks it starts from are
    closed under the edges (no slot marked, say). *)

From stdpp Require Import base decidable numbers.
From Stdlib Require Import ZArith Lia Bool List Relation_Operators.
From S2P Require Import Prelude Memory Layout Roots MajorAlloc Arena Minor.

Import ListNotations.
Open Scope Z_scope.
Open Scope gc_monad_scope.

(** ** The nursery graph. *)

(** The payload word [i] of slot [k]: [*BITS_AT(chunk, i)]. *)
Definition slot_field (st : collector) (k i : Z) : Z :=
  load_le 8 (gc_mem st) (BITS_AT (CHUNK_AT st k) i).

(** The slot a nursery pointer lands in: [CHUNK_OFFSET(MINOR_CHUNK(p))]. *)
Definition minor_slot (st : collector) (p : Z) : Z := CHUNK_OFFSET st (MINOR_CHUNK st p).

(** An edge as the field loop of [gc_mark_chunk] follows it. *)
Definition minor_edge (st : collector) (k l : Z) : Prop :=
  exists i, 0 <= i < PTR_INDEX (size_bits (slot_hdr st k)) /\
    REF_PTR_MIN st (slot_field st k i) = true /\ minor_slot st (slot_field st k i) = l.

(** A slot a root slot points into, as [mark_minor] tests it. *)
Definition root_target (st : collector) (l : Z) : Prop :=
  exists c r, root_slot_of st c r /\ REF_PTR_MIN st (load_le 8 (gc_mem st) r) = true /\
    minor_slot st (load_le 8 (gc_mem st) r) = l.

(** Slots reachable from the roots. *)
Definition minor_reachable (st : collector) (l : Z) : Prop :=
  exists r, root_target st r /\ clos_refl_trans Z (minor_edge st) r l.

(** The marks of [st] are closed under the edges. *)
Definition mark_closed (st : collector) : Prop :=
  forall k l, 0 <= k < GC_MINCHUNKS -> slot_marked st k = true -> minor_edge st k l ->
    slot_marked st l = true.

(** Every slot marked in [st] but not in [st0] has its successors marked. *)
Definition marks_closed (st0 st : collector) : Prop :=
  forall k l, 0 <= k < GC_MINCHUNKS -> slot_marked st k = true -> slot_marked st0 k = false ->
    minor_edge st k l -> slot_marked st l = true.

(** No slot header claims more than a slot less one word: the field
    loop then reads only words of the slot's payload (a 256-byte slot
    makes it read the next slot's header, gc.c line 81). *)
Definition nursery_fits (st : collector) : Prop :=
  forall i, 0 <= i < GC_MINCHUNKS -> size_bits (slot_hdr st i) <= GC_MINCHUNK_SIZE - 4.

(** Root slots hold no byte of a slot header. *)
Definition roots_off_slots (st : collector) : Prop :=
  forall c r, root_slot_of st c r -> forall z, r <= z < r + PTR_SIZE -> off_headers (slot_starts st) z.

(** The checks of the concrete states. *)
Definition no_marksb (st : collector) : bool :=
  forallb (fun k => negb (slot_marked st (Z.of_nat k))) (seq 0 (Z.to_nat GC_MINCHUNKS)).

Definition nursery_fitsb (st : collector) : bool :=
  forallb (fun k => size_bits (slot_hdr st (Z.of_nat k)) <=? GC_MINCHUNK_SIZE - 4)
          (seq 0 (Z.to_nat GC_MINCHUNKS)).

(** Two nursery objects, the first holding a pointer to the second,
    and one root, to the first. *)
Definition chain_gc : collector :=
  let st := two_objs two_chunks in
  client_root 8192 (gc_base st + 4)
    (set_mem st (store_le 8 (gc_mem st) (gc_base st + 4) (gc_base st + GC_MINCHUNK_SIZE + 4))).

(** ** The frame of the marking: payload words and edges. *)

Lemma slot_body_off st k z : 0 <= k < GC_MINCHUNKS ->
  CHUNK_AT st k + 4 <= z < CHUNK_AT st k + GC_MINCHUNK_SIZE -> off_headers (slot_starts st) z.
Proof.
  rewrite GC_MINCHUNKS_eq. intros Hk Hz. unfold off_headers, slot_starts.
  apply Forall_forall. intros h (m & <- & Hm)%in_map_iff. apply in_seq in Hm.
  assert (Z.of_nat m < 256) by (rewrite GC_MINCHUNKS_eq in Hm; cbn in Hm; lia).
  unfold CHUNK_AT, GC_MINCHUNK_SIZE in *.
  destruct (Z.le_gt_cases (Z.of_nat m) k); [right|left]; nia.
Qed.

Lemma fits_index st k : nursery_fits st -> 0 <= k < GC_MINCHUNKS ->
  PTR_INDEX (size_bits (slot_hdr st k)) <= 31.
Proof.
  intros Hf Hk. specialize (Hf k Hk). unfold PTR_INDEX, PTR_SIZE, GC_MINCHUNK_SIZE in *.
  assert (size_bits (slot_hdr st k) / 8 < 32) by (apply Z.div_lt_upper_bound; lia). lia.
Qed.

Lemma REF_PTR_MIN_base st st' p : gc_base st' = gc_base st -> REF_PTR_MIN st' p = REF_PTR_MIN st p.
Proof. intros E. unfold REF_PTR_MIN, POINTS_MINOR, minor_lo, minor_hi. now rewrite E. Qed.

Lemma minor_slot_base st st' p : gc_base st' = gc_base st -> minor_slot st' p = minor_slot st p.
Proof. intros E. unfold minor_slot, CHUNK_OFFSET, MINOR_CHUNK. now rewrite E. Qed.

Lemma slot_field_frame st st' k i : marks_only st st' -> 0 <= k < GC_MINCHUNKS -> 0 <= i < 31 ->
  slot_field st' k i = slot_field st k i.
Proof.
  intros Hmo Hk Hi. destruct (marks_only_base _ _ Hmo) as (_ & Ec & _).
  unfold slot_field. rewrite Ec. apply (headers_only_load _ _ _ _ _ (proj1 Hmo)).
  intros y Hy. apply (slot_body_off st k); auto.
  unfold BITS_AT, BITS, WITH_HEADER, INT_SIZE, PTR_SIZE, GC_MINCHUNK_SIZE in *. cbn in Hy. lia.
Qed.

Lemma minor_edge_frame st st' k l : marks_only st st' -> nursery_fits st -> 0 <= k < GC_MINCHUNKS ->
  minor_edge st' k l <-> minor_edge st k l.
Proof.
  intros Hmo Hf Hk. destruct (marks_only_base _ _ Hmo) as (Eb & _).
  pose proof (fits_index st k Hf Hk) as H31.
  unfold minor_edge. rewrite (proj1 (proj2 Hmo k Hk)).
  split; intros (i & Hi & R & E); exists i;
    rewrite (slot_field_frame st st' k i Hmo Hk ltac:(lia)) in *;
    rewrite ?(REF_PTR_MIN_base st st'), ?(minor_slot_base st st') in * by exact Eb; auto.
Qed.

Lemma marks_only_fits st st' : marks_only st st' -> nursery_fits st -> nursery_fits st'.
Proof. intros Hmo Hf i Hi. rewrite (proj1 (proj2 Hmo i Hi)). auto. Qed.

Lemma minor_edge_range st k l : minor_edge st k l -> 0 <= l < GC_MINCHUNKS.
Proof.
  intros (i & _ & R & <-). unfold REF_PTR_MIN in R. apply andb_true_iff in R as [_ R].
  exact (proj1 (proj2 (MINOR_CHUNK_slot st _ R))).
Qed.

Lemma marks_persist st st' k : marks_only st st' -> 0 <= k < GC_MINCHUNKS ->
  slot_marked st k = true -> slot_marked st' k = true.
Proof. intros Hmo Hk. exact (proj2 (proj2 Hmo k Hk)). Qed.

Lemma marks_closed_refl st : marks_closed st st.
Proof. intros k l _ M M'. congruence. Qed.

Lemma marks_closed_trans st1 st2 st3 : nursery_fits st2 -> marks_only st2 st3 ->
  marks_closed st1 st2 -> marks_closed st2 st3 -> marks_closed st1 st3.
Proof.
  intros Hf Hmo H12 H23 k l Hk M3 M1 E3. destruct (slot_marked st2 k) eqn:M2; [|exact (H23 k l Hk M3 M2 E3)].
  apply (minor_edge_frame st2 st3 k l Hmo Hf Hk) in E3.
  exact (marks_persist _ _ _ Hmo (minor_edge_range _ _ _ E3) (H12 k l Hk M2 M1 E3)).
Qed.

Lemma mark_closed_step st st' : nursery_fits st -> marks_only st st' ->
  mark_closed st -> marks_closed st st' -> mark_closed st'.
Proof.
  intros Hf Hmo Hc Hcs k l Hk M' E'. destruct (slot_marked st k) eqn:M; [|exact (Hcs k l Hk M' M E')].
  apply (minor_edge_frame st st' k l Hmo Hf Hk) in E'.
  exact (marks_persist _ _ _ Hmo (minor_edge_range _ _ _ E') (Hc k l Hk M E')).
Qed.

(** ** [gc_mark_chunk] closes the marks it adds. *)

(** What [gc_mark_chunk] on slot [j] from [st] leaves in [st']. *)
Definition mark_chunk_post (st : collector) (j : Z) (st' : collector) : Prop :=
  marks_only st st' /\ slot_marked st' j = true /\
  (unmarked st' + (if slot_marked st j then 0 else 1) <= unmarked st)%nat /\
  marks_closed st st'.

(** The field loop of slot [j] after [MARK_CHUNK(chunk, 1)] took [st] to
    [st1], given the recursive calls of depth [f]. *)
Section FieldStep.
Context (f : nat) (st st1 : collector) (j : Z).
Hypothesis Hrec : forall st' k, placed st' -> nursery_wf st' -> nursery_fits st' -> 0 <= k < GC_MINCHUNKS ->
  (unmarked st' + 34 <= f + (if slot_marked st' k then 0 else 1))%nat ->
  exists st'', gc_mark_chunk f (CHUNK_AT st' k) st' = Ok (tt, st'') /\ mark_chunk_post st' k st''.
Hypothesis Hpl : placed st.
Hypothesis Hwf : nursery_wf st.
Hypothesis Hfits : nursery_fits st.
Hypothesis Hj : 0 <= j < GC_MINCHUNKS.
Hypothesis Hmo1 : marks_only st st1.
Hypothesis Hf1 : (unmarked st1 + 34 <= S f)%nat.

(** The invariant before field [i]: the fields below [i] that are
    nursery pointers lead to marked slots. *)
Definition field_inv (i : Z) (st' : collector) : Prop :=
  marks_only st1 st' /\ (unmarked st' <= unmarked st1)%nat /\ marks_closed st1 st' /\
  forall i', 0 <= i' < i -> REF_PTR_MIN st (slot_field st j i') = true ->
    slot_marked st' (minor_slot st (slot_field st j i')) = true.

Lemma field_step st' i : field_inv i st' -> 0 <= i < PTR_INDEX (size_bits (slot_hdr st j)) ->
  exists st'', mark_minor_field (gc_mark_chunk f) (CHUNK_AT st j) i st' = Ok (tt, st'') /\
    field_inv (i + 1) st''.
Proof.
  intros (Hmo' & U' & Hc' & Hfl) Hi. pose proof (fits_index st j Hfits Hj) as H31.
  pose proof (marks_only_trans _ _ _ Hmo1 Hmo') as Hmo.
  destruct (marks_only_base _ _ Hmo) as (Eb & Ec & Ep & _).
  assert (Hpl' : placed st') by (apply Ep, Hpl).
  assert (Hv : load_le 8 (gc_mem st') (BITS_AT (CHUNK_AT st j) i) = slot_field st j i)
    by (rewrite <- (slot_field_frame st st' j i Hmo Hj ltac:(lia)); unfold slot_field; now rewrite Ec).
  unfold mark_minor_field. rewrite bind_load_ptr by (apply field_mapped; auto; lia).
  rewrite Hv, bind_gets, (REF_PTR_MIN_base st st') by exact Eb.
  destruct (REF_PTR_MIN st (slot_field st j i)) eqn:R.
  2:{ exists st'. split; [reflexivity|]. split; [exact Hmo'|]. split; [exact U'|]. split; [exact Hc'|].
      intros i' Hi' R'. destruct (Z.eq_dec i' i) as [->|]; [congruence|apply Hfl; auto; lia]. }
  rewrite bind_load_ptr by (apply field_mapped; auto; lia). rewrite Hv, bind_gets.
  pose proof R as R0. unfold REF_PTR_MIN in R0. apply andb_true_iff in R0 as [_ R0].
  destruct (MINOR_CHUNK_slot st _ R0) as (_ & Hk & Ek). cbv zeta in Hk, Ek.
  replace (MINOR_CHUNK st' (slot_field st j i)) with (CHUNK_AT st' (minor_slot st (slot_field st j i)))
    by (rewrite Ec; unfold minor_slot; rewrite Ek; unfold MINOR_CHUNK; now rewrite Eb).
  set (k := minor_slot st (slot_field st j i)).
  rewrite (bind_Ok _ _ _ _ _ (MARKED_slot st' k Hpl' Hk)).
  destruct (slot_marked st' k) eqn:Mk.
  { exists st'. split; [reflexivity|]. split; [exact Hmo'|]. split; [exact U'|]. split; [exact Hc'|].
    intros i' Hi' R'. destruct (Z.eq_dec i' i) as [->|]; [exact Mk|apply Hfl; auto; lia]. }
  destruct (Hrec st' k Hpl' (marks_only_wf _ _ Hmo Hwf) (marks_only_fits _ _ Hmo Hfits) Hk)
    as (st'' & E'' & Hmo'' & Mk'' & U'' & Hc''); [rewrite Mk; lia|].
  rewrite Mk in U''. exists st''. split; [exact E''|].
  split; [exact (marks_only_trans _ _ _ Hmo' Hmo'')|]. split; [lia|].
  split; [exact (marks_closed_trans _ _ _ (marks_only_fits _ _ Hmo Hfits) Hmo'' Hc' Hc'')|].
  intros i' Hi' R'. destruct (Z.eq_dec i' i) as [->|]; [exact Mk''|].
  pose proof R' as R1. unfold REF_PTR_MIN in R1. apply andb_true_iff in R1 as [_ R1].
  apply (marks_persist _ _ _ Hmo'' (proj1 (proj2 (MINOR_CHUNK_slot st _ R1)))), Hfl; auto; lia.
Qed.

End FieldStep.

(** [gc_mark_chunk] on slot [j], with the fuel of [gc_mark_chunk_run]:
    besides marking [j], every slot it marks has its successors marked
    when it returns. *)
Lemma gc_mark_chunk_closes fuel : forall st j,
  placed st -> nursery_wf st -> nursery_fits st -> 0 <= j < GC_MINCHUNKS ->
  (unmarked st + 34 <= fuel + (if slot_marked st j then 0 else 1))%nat ->
  exists st', gc_mark_chunk fuel (CHUNK_AT st j) st = Ok (tt, st') /\ mark_chunk_post st j st'.
Proof.
  induction fuel as [|f IH]; intros st j Hpl Hwf Hfits Hj Hf; [destruct (slot_marked st j); lia|].
  cbn [gc_mark_chunk].
  destruct (mark_slot st j Hpl Hj) as (st1 & E1 & Hmo1 & Mj & U1 & Hoth).
  rewrite (bind_Ok _ _ _ _ _ E1).
  set (s := size_bits (slot_hdr st j)).
  assert (Hs : PTR_INDEX s <= 31) by apply (fits_index st j Hfits Hj).
  destruct (for_fields_run (mark_minor_field (gc_mark_chunk f) (CHUNK_AT st j)) (CHUNK_AT st j) s
              (field_inv st st1 j)) with (n := S f) (i := 0) (st := st1) as (st2 & k0 & E2 & Hk0 & Hinv).
  - intros i st' [Hmo' _]. pose proof (marks_only_trans _ _ _ Hmo1 Hmo') as Hmo.
    split; [apply slot_mapped; auto; unfold GC_MINCHUNK_SIZE; lia|].
    destruct (marks_only_base _ _ Hmo) as (_ & Ec & _).
    unfold s. rewrite <- (proj1 (proj2 Hmo j Hj)). unfold slot_hdr. now rewrite Ec.
  - intros st' i Hinv Hi. apply field_step; auto; destruct (slot_marked st j); lia.
  - split; [apply marks_only_refl|]. split; [lia|]. split; [apply marks_closed_refl|]. intros; lia.
  - lia.
  - destruct (slot_marked st j); lia.
  - destruct Hinv as (Hmo2 & U2 & Hc2 & Hfl). exists st2. split; [exact E2|].
    pose proof (marks_only_trans _ _ _ Hmo1 Hmo2) as Hmo.
    split; [exact Hmo|]. split; [exact (marks_persist _ _ _ Hmo2 Hj Mj)|]. split; [lia|].
    intros k l Hk M2 M0 E. destruct (Z.eq_dec k j) as [->|Hkj].
    + apply (minor_edge_frame st st2 j l Hmo Hfits Hj) in E as (i & Hi & R & <-).
      apply Hfl; auto. unfold s in Hk0. lia.
    + apply (Hc2 k l Hk M2); auto. unfold slot_marked. rewrite (Hoth k Hkj). exact M0.
Qed.

(** ** [mark_minor] marks every slot reachable from the roots. *)

(** One root slot: [mark_minor_slot] marks the slot the word points
    into, when it is a nursery pointer, and keeps the marks closed. *)
Lemma mark_minor_slot_spec st0 st fuel ref :
  placed st0 -> nursery_wf st0 -> nursery_fits st0 -> (Z.to_nat GC_MINCHUNKS + 34 <= fuel)%nat ->
  marks_only st0 st -> mark_closed st -> NULL_PAGE <= ref -> ref + PTR_SIZE <= USER_TOP ->
  exists st', mark_minor_slot fuel ref st = Ok (tt, st') /\ marks_only st st' /\ mark_closed st' /\
    (REF_PTR_MIN st (load_le 8 (gc_mem st) ref) = true ->
     slot_marked st' (minor_slot st (load_le 8 (gc_mem st) ref)) = true).
Proof.
  intros Hpl Hwf Hfits Hf Hmo Hc Hr1 Hr2. rewrite GC_MINCHUNKS_eq in Hf.
  destruct (marks_only_base _ _ Hmo) as (_ & _ & Ep & _).
  assert (Hpl' : placed st) by (apply Ep, Hpl).
  pose proof (marks_only_fits _ _ Hmo Hfits) as Hfits'.
  unfold mark_minor_slot. rewrite bind_load_ptr by (apply mapped_true; unfold PTR_SIZE in *; lia).
  rewrite bind_gets. destruct (REF_PTR_MIN st _) eqn:R.
  2:{ exists st. split; [reflexivity|]. split; [apply marks_only_refl|]. split; [exact Hc|discriminate]. }
  rewrite bind_load_ptr by (apply mapped_true; unfold PTR_SIZE in *; lia). rewrite bind_gets.
  pose proof R as R0. unfold REF_PTR_MIN in R0. apply andb_true_iff in R0 as [_ R0].
  destruct (MINOR_CHUNK_slot st _ R0) as (_ & Hk & Ek). cbv zeta in Hk, Ek. rewrite <- Ek.
  pose proof (unmarked_le st).
  destruct (gc_mark_chunk_closes fuel st _ Hpl' (marks_only_wf _ _ Hmo Hwf) Hfits' Hk)
    as (st' & E & Hmo' & Mk & _ & Hcs); [destruct (slot_marked st _); cbn in Hf; lia|].
  exists st'. split; [exact E|]. split; [exact Hmo'|].
  split; [exact (mark_closed_step _ _ Hfits' Hmo' Hc Hcs)|intros _; exact Mk].
Qed.

Lemma root_word_frame st st' c r : marks_only st st' -> roots_off_slots st -> root_slot_of st c r ->
  load_le 8 (gc_mem st') r = load_le 8 (gc_mem st) r.
Proof.
  intros Hmo Hoff Hr. apply (headers_only_load _ _ _ _ _ (proj1 Hmo)).
  intros y Hy. apply (Hoff c r Hr). unfold PTR_SIZE. cbn in Hy. lia.
Qed.

(** Marks closed under the edges contain everything reachable from
    marked slots. *)
Lemma closed_reach st st0 x y : mark_closed st -> marks_only st0 st -> nursery_fits st0 ->
  clos_refl_trans Z (minor_edge st0) x y -> 0 <= x < GC_MINCHUNKS -> slot_marked st x = true ->
  0 <= y < GC_MINCHUNKS /\ slot_marked st y = true.
Proof.
  intros Hc Hmo Hf Hxy. induction Hxy as [x y E|x|x y z _ IH1 _ IH2]; intros Hx M; auto.
  - split; [exact (minor_edge_range _ _ _ E)|].
    apply (Hc x y Hx M). apply (minor_edge_frame st0 st x y Hmo Hf Hx), E.
  - destruct (IH1 Hx M) as [Hy My]. exact (IH2 Hy My).
Qed.

(** The run of [mark_minor] from closed marks: it writes slot headers
    only, leaves the marks closed and marks every reachable slot. *)
Lemma mark_minor_reach st fuel :
  placed st -> nursery_wf st -> nursery_fits st -> mark_closed st -> roots_ok st -> roots_fuel st fuel ->
  roots_off_slots st -> (Z.to_nat GC_MINCHUNKS + 34 <= fuel)%nat ->
  exists st', mark_minor fuel st = Ok (tt, st') /\ marks_only (final_state clear_backpatch st) st' /\
    mark_closed st' /\
    forall l, minor_reachable st l -> slot_marked st' l = true.
Proof.
  intros Hpl Hwf Hfits Hc Hok Hfuel Hoff Hf.
  unfold mark_minor. rewrite (bind_Ok _ _ _ _ _ (clear_backpatch_Ok st)).
  set (st0 := {| gc_mem := gc_mem st; gc_base := gc_base st; gc_free_chunk := gc_free_chunk st;
                 gc_ref_count := gc_ref_count st; gc_backpatch := fun _ => 0; gc_refs := gc_refs st |}).
  destruct (for_root_slots_visit (mark_minor_slot fuel) (fun st' => marks_only st0 st' /\ mark_closed st') st0 fuel
              (fun r st' => REF_PTR_MIN st (load_le 8 (gc_mem st) r) = true ->
                            slot_marked st' (minor_slot st (load_le 8 (gc_mem st) r)) = true))
    as (st' & E & [Hmo Hc'] & Hq).
  - intros st1 [Hmo _]. destruct (marks_only_base _ _ Hmo) as (_ & _ & _ & Er & Ec). auto.
  - intros st1 ref [Hmo Hc1] _ Hr1 Hr2.
    destruct (mark_minor_slot_spec st0 st1 fuel ref Hpl Hwf Hfits Hf Hmo Hc1 Hr1 Hr2) as (st2 & E2 & Hmo2 & Hc2 & _).
    exists st2. split; [exact E2|]. split; [exact (marks_only_trans _ _ _ Hmo Hmo2)|exact Hc2].
  - intros st1 ref st2 [Hmo Hc1] (c & Hr) E2.
    destruct Hok as [_ Hent]. pose proof Hr as (Hc0 & Hb & Hm). cbn [st0 gc_refs gc_ref_count] in Hc0, Hb.
    destruct (Hent c Hc0 ltac:(lia)) as [Hn Ht].
    destruct (mark_minor_slot_spec st0 st1 fuel ref Hpl Hwf Hfits Hf Hmo Hc1 ltac:(lia) ltac:(unfold PTR_SIZE in *; lia))
      as (st3 & E3 & _ & _ & Mk).
    rewrite E2 in E3. injection E3 as <-.
    destruct (marks_only_base _ _ Hmo) as (Eb & _).
    rewrite (root_word_frame st0 st1 c ref Hmo Hoff Hr), (REF_PTR_MIN_base st0 st1), (minor_slot_base st0 st1) in Mk
      by exact Eb.
    exact Mk.
  - intros st1 ref st2 r [Hmo Hc1] Hr1 Hr2 E2 Q1 R.
    destruct (mark_minor_slot_spec st0 st1 fuel ref Hpl Hwf Hfits Hf Hmo Hc1 Hr1 Hr2) as (st3 & E3 & Hmo3 & _).
    rewrite E2 in E3. injection E3 as <-.
    pose proof R as R0. unfold REF_PTR_MIN in R0. apply andb_true_iff in R0 as [_ R0].
    exact (marks_persist _ _ _ Hmo3 (proj1 (proj2 (MINOR_CHUNK_slot st _ R0))) (Q1 R)).
  - exact Hok.
  - exact Hfuel.
  - split; [apply marks_only_refl|exact Hc].
  - exists st'. split; [exact E|]. split; [exact Hmo|]. split; [exact Hc'|].
    intros l (r0 & (c & r & Hr & R & <-) & Hreach).
    pose proof R as R0. unfold REF_PTR_MIN in R0. apply andb_true_iff in R0 as [_ R0].
    exact (proj2 (closed_reach st' st0 _ l Hc' Hmo Hfits Hreach
                   (proj1 (proj2 (MINOR_CHUNK_slot st _ R0))) (Hq c r Hr R))).
Qed.

(** C8. [mark_minor] marks every slot reachable from the roots.  On a
    nursery whose headers fit their slots, whose marks are closed under
    the edges (no slot marked, say), and whose root slots lie outside
    the slot headers, with a readable registry and fuel at least
    [GC_MINCHUNKS + 34], [mark_minor] returns a state whose marks are
    again closed and include every slot reachable from a root slot
    through tagged nursery pointers. *)
Theorem mark_minor_marks_reachable st fuel :
  placed st -> nursery_wf st -> nursery_fits st -> mark_closed st -> roots_ok st -> roots_fuel st fuel ->
  roots_off_slots st -> (Z.to_nat GC_MINCHUNKS + 34 <= fuel)%nat ->
  exists st', mark_minor fuel st = Ok (tt, st') /\ mark_closed st' /\
    forall l, minor_reachable st l -> slot_marked st' l = true.
Proof.
  intros Hpl Hwf Hfits Hc Hok Hfuel Hoff Hf.
  destruct (mark_minor_reach st fuel Hpl Hwf Hfits Hc Hok Hfuel Hoff Hf) as (st' & E & _ & Hc' & Hr).
  exists st'. auto.
Qed.

(** ** Witnesses. *)

Lemma no_marks_closed st : no_marksb st = true -> mark_closed st.
Proof.
  unfold no_marksb. rewrite forallb_forall. intros H k l Hk M. exfalso.
  specialize (H (Z.to_nat k)). rewrite Z2Nat.id, M in H by lia.
  discriminate H. apply in_seq. rewrite GC_MINCHUNKS_eq in *. lia.
Qed.

Lemma nursery_fitsb_spec st : nursery_fitsb st = true -> nursery_fits st.
Proof.
  unfold nursery_fitsb. rewrite forallb_forall. intros H i Hi.
  specialize (H (Z.to_nat i)). rewrite Z2Nat.id in H by lia.
  apply Z.leb_le, H, in_seq. rewrite GC_MINCHUNKS_eq in *. lia.
Qed.

(** Root ranges that end a word below the nursery hold no slot header. *)
Lemma roots_below_off st :
  (forall c, 0 <= c < gc_ref_count st -> snd (gc_refs st c) + PTR_SIZE <= gc_base st) -> roots_off_slots st.
Proof.
  intros H c r (Hc & Hr & _) z Hz. specialize (H c Hc). unfold off_headers, slot_starts.
  apply Forall_forall. intros h (m & <- & _)%in_map_iff. left.
  unfold CHUNK_AT, GC_MINCHUNK_SIZE, PTR_SIZE in *. lia.
Qed.

Lemma chain_placed : placed chain_gc.
Proof. unfold placed, major_hi, GC_MINHEAP_SIZE, GC_MAJHEAP_SIZE, NULL_PAGE, USER_TOP. vm_compute. split; discriminate. Qed.

Lemma chain_roots_ok : roots_ok chain_gc.
Proof.
  split; [vm_compute; split; discriminate|].
  intros k Hk _. change (gc_ref_count chain_gc) with 1 in Hk.
  assert (k = 0) as -> by lia. vm_compute. split; discriminate.
Qed.

Lemma chain_roots_fuel : roots_fuel chain_gc 290.
Proof.
  split; [vm_compute; lia|].
  intros k Hk. change (gc_ref_count chain_gc) with 1 in Hk.
  assert (k = 0) as -> by lia. vm_compute. lia.
Qed.

Lemma mark_minor_marks_reachable_witness :
  exists st', mark_minor 290 chain_gc = Ok (tt, st') /\ mark_closed st' /\
    forall l, minor_reachable chain_gc l -> slot_marked st' l = true.
Proof.
  apply mark_minor_marks_reachable;
    [exact chain_placed|apply nursery_wfb_spec; vm_compute; reflexivity
    |apply nursery_fitsb_spec; vm_compute; reflexivity|apply no_marks_closed; vm_compute; reflexivity
    |exact chain_roots_ok|exact chain_roots_fuel| |rewrite GC_MINCHUNKS_eq; cbn; lia].
  apply roots_below_off. intros c Hc. change (gc_ref_count chain_gc) with 1 in Hc.
  assert (c = 0) as -> by lia. vm_compute. discriminate.
Defined.
