(* ===== verification/MinorCopy.v ===== *)
(** * The copy phase of the minor collection after an earlier one

    [gc_minor] never clears the marks of the nursery: [gc_free_chunk]
    is reset to 0 (gc.c line 291) but the headers of the slots keep the
    mark bit [gc_mark_chunk] set.  [mark_minor] clears [gc_backpatch],
    so on the next collection [copy_loop] (lines 261-267) finds slot 0
    still marked and copies it to [gc_backpatch[0]], which is 0.  This
    file shows that [backpatch_refs] and [backpatch_loop] leave every
    slot header as it is, and that the second of two minor collections
    therefore faults at address 0. *)

From stdpp Require Import base decidable numbers.
From Stdlib Require Import ZArith Lia Bool List.
From S2P Require Import Prelude Memory Layout Roots MajorAlloc Arena Minor MinorReach.

Import ListNotations.
Open Scope Z_scope.
Open Scope gc_monad_scope.

(** [st'] is [st] with memory rewritten outside every slot header. *)
Definition hdrs_kept (st st' : collector) : Prop :=
  exists m, st' = set_mem st m /\ forall k, 0 <= k < GC_MINCHUNKS -> slot_hdr st' k = slot_hdr st k.

(** The state a minor collection leaves when it promoted slot 0: the
    nursery is empty ([gc_free_chunk] is 0) but slot 0 keeps its mark. *)
Definition stale_nursery (st : collector) : Prop := gc_free_chunk st = 0 /\ slot_marked st 0 = true.

(** A collector with one 16-byte object in slot 0 holding the words 7
    and 9, and one root, the word at [8192], pointing to it. *)
Definition one_obj_gc : collector :=
  let st := final_state (gc_minor_alloc 2 16) sample_gc in
  let st1 := set_mem st (store_le 8 (store_le 8 (gc_mem st) (gc_base st + 4) 7) (gc_base st + 12) 9) in
  client_root 8192 (gc_base sample_gc + 4) st1.

(** [one_obj_gc] after one minor collection. *)
Definition collected_once_gc : collector := final_state (gc_minor 10) one_obj_gc.

(** ** [backpatch_refs] with an empty [gc_backpatch] changes nothing. *)

Lemma backpatch_slot_noop st ref : placed st -> (forall k, gc_backpatch st k = 0) ->
  NULL_PAGE <= ref -> ref + PTR_SIZE <= USER_TOP -> backpatch_slot ref st = Ok (tt, st).
Proof.
  intros Hpl Hb Hr1 Hr2. assert (Hm : mapped ref 8 = true) by (apply mapped_true; unfold PTR_SIZE in *; lia).
  unfold backpatch_slot. rewrite bind_load_ptr, bind_gets by exact Hm.
  destruct (POINTS_MINOR st _) eqn:P; [|reflexivity].
  rewrite bind_load_ptr, bind_gets by exact Hm.
  destruct (MINOR_CHUNK_slot st _ P) as (_ & Hk & Ek). cbv zeta in Hk, Ek. rewrite <- Ek.
  rewrite (bind_Ok _ _ _ _ _ (MARKED_slot st _ Hpl Hk)).
  destruct (slot_marked st _); [|reflexivity].
  rewrite bind_gets, CHUNK_OFFSET_AT. unfold bind at 1, backpatch_get.
  rewrite (proj2 (andb_true_iff _ _) (conj (proj2 (Z.leb_le _ _) (proj1 Hk)) (proj2 (Z.ltb_lt _ _) (proj2 Hk)))).
  rewrite Hb. reflexivity.
Qed.

Lemma backpatch_refs_noop st fuel : placed st -> (forall k, gc_backpatch st k = 0) ->
  roots_ok st -> roots_fuel st fuel -> backpatch_refs fuel st = Ok (tt, st).
Proof.
  intros Hpl Hb Hok Hf. unfold backpatch_refs.
  destruct (for_root_slots_inv backpatch_slot (fun st' => st' = st) st fuel) as (st' & E & ->);
    [intros ? ->; auto|intros ? ref -> Hr1 Hr2; exists st; auto using backpatch_slot_noop|auto..].
Qed.

(** ** [backpatch_loop] writes payload words only. *)

Lemma backpatch_get_Ok st k : 0 <= k < GC_MINCHUNKS -> backpatch_get k st = Ok (gc_backpatch st k, st).
Proof.
  intros Hk. unfold backpatch_get.
  rewrite (proj2 (andb_true_iff _ _) (conj (proj2 (Z.leb_le _ _) (proj1 Hk)) (proj2 (Z.ltb_lt _ _) (proj2 Hk)))).
  reflexivity.
Qed.

Lemma hdrs_kept_refl st : hdrs_kept st st.
Proof. exists (gc_mem st). split; [symmetry; apply set_mem_eta|reflexivity]. Qed.

(** A store into a payload word [j < 31] of slot [i] keeps every slot header. *)
Lemma store_field_hdrs st m i j v k : 0 <= i < GC_MINCHUNKS -> 0 <= j < 31 -> 0 <= k < GC_MINCHUNKS ->
  load_le 4 (store_le 8 m (BITS_AT (CHUNK_AT st i) j) v) (CHUNK_AT st k) = load_le 4 m (CHUNK_AT st k).
Proof.
  intros Hi Hj Hk. apply load_store_le_disjoint.
  unfold BITS_AT, BITS, WITH_HEADER, INT_SIZE, PTR_SIZE, CHUNK_AT, GC_MINCHUNK_SIZE. cbn.
  destruct (Z.le_gt_cases k i); [right|left]; nia.
Qed.

Lemma backpatch_field_kept st st' i j : placed st -> nursery_fits st -> 0 <= i < GC_MINCHUNKS ->
  0 <= j < PTR_INDEX (size_bits (slot_hdr st i)) -> hdrs_kept st st' ->
  exists st'', backpatch_field (CHUNK_AT st i) j st' = Ok (tt, st'') /\ hdrs_kept st st''.
Proof.
  intros Hpl Hf Hi Hj (m & -> & Eh). pose proof (fits_index st i Hf Hi) as H31.
  assert (Hpl' : placed (set_mem st m)) by exact Hpl.
  assert (Hm : mapped (BITS_AT (CHUNK_AT st i) j) 8 = true) by (apply field_mapped; auto; lia).
  unfold backpatch_field. rewrite bind_load_ptr, bind_gets by exact Hm.
  destruct (REF_PTR_MIN _ _) eqn:R; [|exists (set_mem st m); split; [reflexivity|exists m; auto]].
  rewrite bind_load_ptr, bind_gets by exact Hm.
  unfold REF_PTR_MIN in R. apply andb_true_iff in R as [_ R].
  change (gc_mem (set_mem st m)) with m in *.
  destruct (MINOR_CHUNK_slot _ _ R) as (_ & Hk & Ek). cbv zeta in Hk, Ek. rewrite <- Ek.
  rewrite (bind_Ok _ _ _ _ _ (MARKED_slot _ _ Hpl' Hk)).
  destruct (slot_marked _ _); [|exists (set_mem st m); split; [reflexivity|exists m; auto]].
  rewrite bind_gets, CHUNK_OFFSET_AT, (bind_Ok _ _ _ _ _ (backpatch_get_Ok _ _ Hk)).
  rewrite bind_load_ptr by exact Hm. unfold store_ptr. rewrite store_Ok by exact Hm.
  eexists. split; [reflexivity|]. eexists. split; [apply set_mem_set_mem|].
  intros k Hk'. rewrite <- (Eh k Hk'). exact (store_field_hdrs st m i j _ k Hi ltac:(lia) Hk').
Qed.

Lemma hdrs_kept_trans st st1 st2 : hdrs_kept st st1 -> hdrs_kept st1 st2 -> hdrs_kept st st2.
Proof.
  intros (m1 & -> & E1) (m2 & -> & E2). exists m2. split; [reflexivity|].
  intros k Hk. rewrite <- (E1 k Hk). exact (E2 k Hk).
Qed.

Lemma backpatch_chunk_kept st st' i fuel : placed st -> nursery_fits st -> 0 <= i < GC_MINCHUNKS ->
  (32 <= fuel)%nat -> hdrs_kept st st' ->
  exists st'', backpatch_chunk fuel (CHUNK_AT st i) st' = Ok (tt, st'') /\ hdrs_kept st st''.
Proof.
  intros Hpl Hf Hi Hfu Hk. pose proof (fits_index st i Hf Hi) as H31. unfold backpatch_chunk.
  apply (for_fields_inv _ _ (size_bits (slot_hdr st i)) (hdrs_kept st)).
  - intros st1 (m & -> & Eh). split; [apply slot_mapped; auto; unfold GC_MINCHUNK_SIZE; lia|].
    exact (f_equal size_bits (Eh i Hi)).
  - intros st1 j Hk1 Hj. exact (backpatch_field_kept st st1 i j Hpl Hf Hi Hj Hk1).
  - exact Hk.
  - lia.
  - assert (0 <= PTR_INDEX (size_bits (slot_hdr st i))).
    { apply Z.div_pos; [|unfold PTR_SIZE; lia]. rewrite size_bits_eq.
      pose proof (load32_bound (gc_mem st) (CHUNK_AT st i)). unfold slot_hdr.
      apply Z.mul_nonneg_nonneg; [lia|apply Z.div_pos; lia]. }
    lia.
Qed.

Lemma backpatch_loop_kept st fuel n : placed st -> nursery_fits st -> gc_ref_count st <= GC_MINCHUNKS ->
  (32 <= fuel)%nat -> forall i st', 0 <= i -> hdrs_kept st st' ->
  (Z.to_nat (gc_ref_count st - i) < n)%nat ->
  exists st'', backpatch_loop fuel n i st' = Ok (tt, st'') /\ hdrs_kept st st''.
Proof.
  intros Hpl Hf Hrc Hfu. induction n as [|n IH]; intros i st' Hi Hk Hn; [lia|].
  pose proof Hk as (m & -> & _). cbn [backpatch_loop]. rewrite bind_gets.
  change (gc_ref_count (set_mem st m)) with (gc_ref_count st).
  destruct (Z.ltb_spec i (gc_ref_count st)) as [Hlt|Hge]; [|exists (set_mem st m); auto].
  rewrite bind_gets. change (CHUNK_AT (set_mem st m) i) with (CHUNK_AT st i).
  destruct (backpatch_chunk_kept st _ i fuel Hpl Hf ltac:(lia) Hfu Hk) as (st1 & E1 & Hk1).
  rewrite (bind_Ok _ _ _ _ _ E1). apply IH; auto; lia.
Qed.

(** ** The copy loop on a marked slot 0 whose [gc_backpatch] entry is
    below the mappable range. *)

Lemma copy_loop_marked_fault st n d : placed st -> 0 < gc_ref_count st ->
  slot_marked st 0 = true -> gc_backpatch st 0 = d -> d < NULL_PAGE -> copy_loop (S n) 0 st = Fail (SegFault d).
Proof.
  intros Hpl Hrc M B Hd. assert (H0 : 0 <= 0 < GC_MINCHUNKS) by (rewrite GC_MINCHUNKS_eq; lia).
  cbn [copy_loop]. rewrite bind_gets, (proj2 (Z.ltb_lt 0 _)) by exact Hrc.
  rewrite bind_gets, (bind_Ok _ _ _ _ _ (MARKED_slot st 0 Hpl H0)), M.
  apply bind_Fail. rewrite (bind_Ok _ _ _ _ _ (backpatch_get_Ok st 0 H0)), B.
  rewrite bind_CHUNK_SIZE by (apply slot_mapped; auto; unfold GC_MINCHUNK_SIZE; lia).
  unfold gc_memcpy, mapped. rewrite (proj2 (Z.leb_gt NULL_PAGE d) Hd). reflexivity.
Qed.

Lemma fits_wf st : nursery_fits st -> nursery_wf st.
Proof. intros Hf i Hi. specialize (Hf i Hi). lia. Qed.

Lemma roots_same st st' : gc_ref_count st' = gc_ref_count st -> gc_refs st' = gc_refs st ->
  (roots_ok st -> roots_ok st') /\ (forall fuel, roots_fuel st fuel -> roots_fuel st' fuel).
Proof. intros Ec Er. unfold roots_ok, roots_fuel. rewrite Ec, Er. auto. Qed.

(** ** The second of two minor collections. *)

(** A minor collection that returns leaves the nursery empty. *)
Lemma gc_minor_resets_free_chunk fuel st st' : gc_minor fuel st = Ok (tt, st') -> gc_free_chunk st' = 0.
Proof.
  unfold gc_minor. intros E.
  destruct (bind_Ok_inv _ _ _ _ _ E) as (u & st1 & _ & E1).
  destruct (bind_Ok_inv _ _ _ _ _ E1) as (u' & st2 & _ & E2).
  injection E2 as <-. reflexivity.
Qed.

(** C9. [gc_minor] faults at address 0 on a collector whose slot 0 is
    still marked while [gc_free_chunk] is 0, the state every minor
    collection that promoted slot 0 leaves: [mark_minor] empties
    [gc_backpatch], [promote_loop] allocates nothing, [backpatch_refs]
    and [backpatch_loop] keep the slot headers, and [copy_loop] copies
    the marked slot 0 to [gc_backpatch[0] = 0].  The hypotheses are
    those under which the marking terminates, with headers that fit
    their slots and at most [GC_MINCHUNKS] root ranges. *)
Theorem gc_minor_stale_mark_segfaults st fuel :
  placed st -> nursery_fits st -> stale_nursery st -> 0 < gc_ref_count st <= GC_MINCHUNKS ->
  roots_ok st -> roots_fuel st fuel ->
  (Z.to_nat GC_MINCHUNKS + 34 <= fuel)%nat ->
  gc_minor fuel st = Fail (SegFault 0).
Proof.
  intros Hpl Hf [Hfc M] Hrc Hok Hfuel Hfu.
  destruct (mark_minor_run st fuel Hpl (fits_wf st Hf) Hok Hfuel Hfu) as (st1 & E1 & Hb1 & Hmo1).
  set (st0 := final_state clear_backpatch st) in Hmo1.
  destruct (marks_only_base _ _ Hmo1) as (_ & _ & Ep & Er & Ec).
  assert (Hfc1 : gc_free_chunk st1 = 0) by (destruct Hmo1 as [[Es _] _]; rewrite Es; exact Hfc).
  assert (Hpl1 : placed st1) by (apply Ep, Hpl).
  assert (Hf1 : nursery_fits st1) by exact (marks_only_fits _ _ Hmo1 Hf).
  assert (M1 : slot_marked st1 0 = true) by exact (marks_persist _ _ 0 Hmo1 ltac:(rewrite GC_MINCHUNKS_eq; lia) M).
  destruct (roots_same st st1 Ec Er) as [Hok1 Hfuel1].
  assert (Ec1 : gc_ref_count st1 = gc_ref_count st) by exact Ec.
  rewrite GC_MINCHUNKS_eq in Hfu. cbn in Hfu. destruct fuel as [|f]; [lia|].
  unfold gc_minor. rewrite (bind_Ok _ _ _ _ _ E1). apply bind_Fail. unfold copy_minor_heap.
  cbn [promote_loop]. rewrite bind_assoc, bind_gets, Hfc1, Z.ltb_irrefl, bind_ret_l.
  rewrite (bind_Ok _ _ _ _ _ (backpatch_refs_noop st1 (S f) Hpl1 Hb1 (Hok1 Hok) (Hfuel1 _ Hfuel))).
  rewrite GC_MINCHUNKS_eq in Hrc.
  destruct (backpatch_loop_kept st1 (S f) (S f) Hpl1 Hf1 ltac:(rewrite Ec1, GC_MINCHUNKS_eq; lia) ltac:(lia) 0 st1
              ltac:(lia) (hdrs_kept_refl st1) ltac:(rewrite Ec1; lia)) as (st2 & E2 & (m2 & -> & Eh)).
  rewrite (bind_Ok _ _ _ _ _ E2).
  apply copy_loop_marked_fault; [exact Hpl1|cbn; rewrite Ec1; lia| |exact (Hb1 0)|unfold NULL_PAGE; lia].
  unfold slot_marked. rewrite Eh by (rewrite GC_MINCHUNKS_eq; lia). exact M1.
Qed.

(** ** Witness. *)

Lemma collected_once_roots_ok : roots_ok collected_once_gc.
Proof.
  split; [vm_compute; split; discriminate|].
  intros k Hk _. change (gc_ref_count collected_once_gc) with 1 in Hk.
  assert (k = 0) as -> by lia. vm_compute. split; discriminate.
Qed.

Lemma collected_once_roots_fuel : roots_fuel collected_once_gc 290.
Proof.
  split; [vm_compute; lia|].
  intros k Hk. change (gc_ref_count collected_once_gc) with 1 in Hk.
  assert (k = 0) as -> by lia. vm_compute. lia.
Qed.

Lemma gc_minor_stale_mark_segfaults_witness : gc_minor 290 collected_once_gc = Fail (SegFault 0).
Proof.
  apply gc_minor_stale_mark_segfaults;
    [unfold placed, major_hi, GC_MINHEAP_SIZE, GC_MAJHEAP_SIZE, NULL_PAGE, USER_TOP; vm_compute; split; discriminate
    |apply nursery_fitsb_spec; vm_compute; reflexivity|split; vm_compute; reflexivity
    |change (gc_ref_count collected_once_gc) with 1; rewrite GC_MINCHUNKS_eq; lia
    |exact collected_once_roots_ok|exact collected_once_roots_fuel
    |rewrite GC_MINCHUNKS_eq; cbn; lia].
Defined.
