(* ===== verification/Frame.v ===== *)
(** * The routines that leave the root registry alone

    Only [gc_add_ref] and [gc_remove_ref] write [gc_refs] and
    [gc_ref_count]; every collection and allocation routine reads them
    and leaves them, and the arena base, as they are.  The class
    [KeepsRegistry c] says so of a computation [c]; its instances cover
    the primitive accesses and the combinators of the monad, and each
    loop of the collector is an instance proved by induction on its
    fuel, so that typeclass resolution proves it of every routine.
    [Traversal] uses the class to run the root loops as a walk over a
    fixed list of slots.  In C the registry fields follow
    [gc_major_heap] in the struct and a header write past the arena's
    end (gc.c line 156) can reach them; the model keeps them as record
    fields, so these instances are facts of the model. *)

From stdpp Require Import base decidable numbers.
From Stdlib Require Import ZArith Lia Bool List.
From S2P Require Import Prelude Memory Layout Roots MajorAlloc Arena Major Minor.

Open Scope Z_scope.
Open Scope gc_monad_scope.

(** [st'] has the registry and the arena base of [st]. *)
Definition same_registry (st st' : collector) : Prop :=
  gc_base st' = gc_base st /\ gc_ref_count st' = gc_ref_count st /\ gc_refs st' = gc_refs st.

Class KeepsRegistry {A} (c : M A) : Prop :=
  keeps_registry : forall st st' x, c st = Ok (x, st') -> same_registry st st'.

(** ** The combinators and the primitive accesses. *)
Section Instances.
Context {A B : Type}.

Lemma same_registry_refl st : same_registry st st.
Proof. repeat split. Qed.

Lemma same_registry_trans st1 st2 st3 : same_registry st1 st2 -> same_registry st2 st3 -> same_registry st1 st3.
Proof. intros (E1 & E2 & E3) (F1 & F2 & F3). repeat split; congruence. Qed.

#[export] Instance keeps_ret (a : A) : KeepsRegistry (ret a).
Proof. intros st st' x E. injection E as _ <-. apply same_registry_refl. Qed.

#[export] Instance keeps_fail f : KeepsRegistry (A := A) (fail f).
Proof. intros st st' x E. discriminate E. Qed.

#[export] Instance keeps_gets (f : collector -> A) : KeepsRegistry (gets f).
Proof. intros st st' x E. injection E as _ <-. apply same_registry_refl. Qed.

#[export] Instance keeps_bind (c : M A) (k : A -> M B) :
  KeepsRegistry c -> (forall a, KeepsRegistry (k a)) -> KeepsRegistry (bind c k).
Proof.
  intros Hc Hk st st' x E. destruct (bind_Ok_inv _ _ _ _ _ E) as (a & st1 & E1 & E2).
  exact (same_registry_trans _ _ _ (Hc _ _ _ E1) (Hk a _ _ _ E2)).
Qed.

#[export] Instance keeps_if (b : bool) (c1 c2 : M A) :
  KeepsRegistry c1 -> KeepsRegistry c2 -> KeepsRegistry (if b then c1 else c2).
Proof. destruct b; auto. Qed.

End Instances.

#[export] Instance keeps_load n a : KeepsRegistry (load n a).
Proof. intros st st' x. unfold load. destruct (mapped _ _); intros E; [injection E as _ <-; apply same_registry_refl|discriminate]. Qed.

#[export] Instance keeps_store n a v : KeepsRegistry (store n a v).
Proof. intros st st' x. unfold store. destruct (mapped _ _); intros E; [injection E as _ <-; repeat split|discriminate]. Qed.

#[export] Instance keeps_memcpy dst src n : KeepsRegistry (gc_memcpy dst src n).
Proof. intros st st' x. unfold gc_memcpy. destruct (_ && _); intros E; [injection E as _ <-; repeat split|discriminate]. Qed.

#[export] Instance keeps_backpatch_get i : KeepsRegistry (backpatch_get i).
Proof. intros st st' x. unfold backpatch_get. destruct (_ && _); intros E; [injection E as _ <-; apply same_registry_refl|discriminate]. Qed.

#[export] Instance keeps_backpatch_set i v : KeepsRegistry (backpatch_set i v).
Proof. intros st st' x. unfold backpatch_set. destruct (_ && _); intros E; [injection E as _ <-; repeat split|discriminate]. Qed.

#[export] Instance keeps_refs_get i : KeepsRegistry (refs_get i).
Proof. intros st st' x. unfold refs_get. destruct (_ && _); intros E; [injection E as _ <-; apply same_registry_refl|discriminate]. Qed.

#[export] Instance keeps_set_free_chunk n : KeepsRegistry (set_free_chunk n).
Proof. intros st st' x E. injection E as _ <-. repeat split. Qed.

#[export] Instance keeps_clear_backpatch : KeepsRegistry clear_backpatch.
Proof. intros st st' x E. injection E as _ <-. repeat split. Qed.

(** Unfold a routine and resolve its body. *)
Ltac keeps_unfold d := intros; unfold d; cbv beta zeta; typeclasses eauto.

(** ** The macros of gc.h. *)
#[export] Instance keeps_load_ptr a : KeepsRegistry (load_ptr a).
Proof. keeps_unfold load_ptr. Qed.
#[export] Instance keeps_store_ptr a v : KeepsRegistry (store_ptr a v).
Proof. keeps_unfold store_ptr. Qed.
#[export] Instance keeps_FLAGS c : KeepsRegistry (FLAGS c).
Proof. keeps_unfold FLAGS. Qed.
#[export] Instance keeps_set_FLAGS c v : KeepsRegistry (set_FLAGS c v).
Proof. keeps_unfold set_FLAGS. Qed.
#[export] Instance keeps_CHUNK_SIZE c : KeepsRegistry (CHUNK_SIZE c).
Proof. keeps_unfold CHUNK_SIZE. Qed.
#[export] Instance keeps_CHUNK_FLAGS c : KeepsRegistry (CHUNK_FLAGS c).
Proof. keeps_unfold CHUNK_FLAGS. Qed.
#[export] Instance keeps_MARKED c : KeepsRegistry (MARKED c).
Proof. keeps_unfold MARKED. Qed.
#[export] Instance keeps_MARK_CHUNK c v : KeepsRegistry (MARK_CHUNK c v).
Proof. keeps_unfold MARK_CHUNK. Qed.

(** ** The loops, by induction on their fuel. *)
#[export] Instance keeps_for_slots body n counter ref :
  (forall r, KeepsRegistry (body r)) -> KeepsRegistry (for_slots body n counter ref).
Proof. intros Hb. revert ref. induction n; intros; cbn [for_slots]; typeclasses eauto. Qed.

#[export] Instance keeps_for_roots body fuel n counter :
  (forall r, KeepsRegistry (body r)) -> KeepsRegistry (for_roots body fuel n counter).
Proof. intros Hb. revert counter. induction n; intros; cbn [for_roots]; typeclasses eauto. Qed.

#[export] Instance keeps_for_root_slots body fuel :
  (forall r, KeepsRegistry (body r)) -> KeepsRegistry (for_root_slots body fuel).
Proof. keeps_unfold for_root_slots. Qed.

#[export] Instance keeps_for_fields body chunk n i :
  (forall j, KeepsRegistry (body j)) -> KeepsRegistry (for_fields body chunk n i).
Proof. intros Hb. revert i. induction n; intros; cbn [for_fields]; typeclasses eauto. Qed.

#[export] Instance keeps_for_chunks cont body n curr :
  (forall c, KeepsRegistry (body c)) -> KeepsRegistry (for_chunks cont body n curr).
Proof. intros Hb. revert curr. induction n; intros; cbn [for_chunks]; typeclasses eauto. Qed.

#[export] Instance keeps_find_major_loop fuel ptr curr : KeepsRegistry (find_major_loop fuel ptr curr).
Proof. revert curr. induction fuel; intros; cbn [find_major_loop]; typeclasses eauto. Qed.

#[export] Instance keeps_find_major_chunk fuel ptr : KeepsRegistry (find_major_chunk fuel ptr).
Proof. keeps_unfold find_major_chunk. Qed.

#[export] Instance keeps_major_alloc_scan fuel size curr : KeepsRegistry (major_alloc_scan fuel size curr).
Proof. revert curr. induction fuel; intros; cbn [major_alloc_scan]; typeclasses eauto. Qed.

#[export] Instance keeps_gc_major_alloc fuel size : KeepsRegistry (gc_major_alloc fuel size).
Proof. keeps_unfold gc_major_alloc. Qed.

(** ** The major collection. *)
#[export] Instance keeps_mark_major_field mark fuel chunk i :
  (forall c, KeepsRegistry (mark c)) -> KeepsRegistry (mark_major_field mark fuel chunk i).
Proof. keeps_unfold mark_major_field. Qed.

#[export] Instance keeps_mark_major_chunk fuel chunk : KeepsRegistry (mark_major_chunk fuel chunk).
Proof. revert chunk. induction fuel; intros; cbn [mark_major_chunk]; typeclasses eauto. Qed.

#[export] Instance keeps_darken_chunk fuel p : KeepsRegistry (darken_chunk fuel p).
Proof. keeps_unfold darken_chunk. Qed.
#[export] Instance keeps_darken_slot fuel r : KeepsRegistry (darken_slot fuel r).
Proof. keeps_unfold darken_slot. Qed.
#[export] Instance keeps_darken_roots fuel : KeepsRegistry (darken_roots fuel).
Proof. keeps_unfold darken_roots. Qed.
#[export] Instance keeps_darken_major_body fuel c : KeepsRegistry (darken_major_body fuel c).
Proof. keeps_unfold darken_major_body. Qed.
#[export] Instance keeps_darken_major fuel : KeepsRegistry (darken_major fuel).
Proof. keeps_unfold darken_major. Qed.
#[export] Instance keeps_sweep_body c : KeepsRegistry (sweep_body c).
Proof. keeps_unfold sweep_body. Qed.
#[export] Instance keeps_gc_major fuel : KeepsRegistry (gc_major fuel).
Proof. keeps_unfold gc_major. Qed.

(** ** The minor collection and the allocators. *)
#[export] Instance keeps_mark_minor_field mark chunk i :
  (forall c, KeepsRegistry (mark c)) -> KeepsRegistry (mark_minor_field mark chunk i).
Proof. keeps_unfold mark_minor_field. Qed.

#[export] Instance keeps_gc_mark_chunk fuel chunk : KeepsRegistry (gc_mark_chunk fuel chunk).
Proof. revert chunk. induction fuel; intros; cbn [gc_mark_chunk]; typeclasses eauto. Qed.

#[export] Instance keeps_mark_minor_slot fuel r : KeepsRegistry (mark_minor_slot fuel r).
Proof. keeps_unfold mark_minor_slot. Qed.
#[export] Instance keeps_mark_minor fuel : KeepsRegistry (mark_minor fuel).
Proof. keeps_unfold mark_minor. Qed.
#[export] Instance keeps_backpatch_field chunk i : KeepsRegistry (backpatch_field chunk i).
Proof. keeps_unfold backpatch_field. Qed.
#[export] Instance keeps_backpatch_chunk fuel chunk : KeepsRegistry (backpatch_chunk fuel chunk).
Proof. keeps_unfold backpatch_chunk. Qed.
#[export] Instance keeps_backpatch_slot r : KeepsRegistry (backpatch_slot r).
Proof. keeps_unfold backpatch_slot. Qed.
#[export] Instance keeps_backpatch_refs fuel : KeepsRegistry (backpatch_refs fuel).
Proof. keeps_unfold backpatch_refs. Qed.

#[export] Instance keeps_promote_loop fuel n i : KeepsRegistry (promote_loop fuel n i).
Proof. revert i. induction n; intros; cbn [promote_loop]; typeclasses eauto. Qed.
#[export] Instance keeps_backpatch_loop fuel n i : KeepsRegistry (backpatch_loop fuel n i).
Proof. revert i. induction n; intros; cbn [backpatch_loop]; typeclasses eauto. Qed.
#[export] Instance keeps_copy_loop n i : KeepsRegistry (copy_loop n i).
Proof. revert i. induction n; intros; cbn [copy_loop]; typeclasses eauto. Qed.

#[export] Instance keeps_copy_minor_heap fuel : KeepsRegistry (copy_minor_heap fuel).
Proof. keeps_unfold copy_minor_heap. Qed.
#[export] Instance keeps_gc_minor fuel : KeepsRegistry (gc_minor fuel).
Proof. keeps_unfold gc_minor. Qed.

#[export] Instance keeps_gc_minor_alloc fuel size : KeepsRegistry (gc_minor_alloc fuel size).
Proof. revert size. induction fuel; intros; cbn [gc_minor_alloc]; cbv zeta; typeclasses eauto. Qed.

#[export] Instance keeps_gc_alloc fuel size : KeepsRegistry (gc_alloc fuel size).
Proof. keeps_unfold gc_alloc. Qed.

