(* ===== verification/Traversal.v ===== *)
(** * The root traversal as a walk over the list of root slots

    [for_root_slots] (the nested loops of [darken_roots], [mark_minor]
    and [backpatch_refs], gc.c lines 170-178, 200-209 and 230-245) runs
    its body on the words of every counted range in order, skipping the
    address 0.  For a body that leaves the registry alone
    ([KeepsRegistry]), the nested loops are the body run on the list
    [root_slots st], whatever the body does, faults included. *)

From stdpp Require Import base decidable numbers.
From Stdlib Require Import ZArith Lia Bool List.
From S2P Require Import Prelude Memory Layout Roots MajorAlloc Arena Major Minor Frame.

Import ListNotations.
Open Scope Z_scope.
Open Scope gc_monad_scope.

(** The words [b, b + 8, ...] below [e]: what [ref++] steps through. *)
Definition words_from (b e : Z) : list Z :=
  map (fun k => b + PTR_SIZE * Z.of_nat k) (seq 0 (Z.to_nat ((e - b + 7) / 8))).

(** The slots of entry [r] the loop hands to its body ([ref != 0]). *)
Definition entry_slots (r : Z * Z) : list Z :=
  filter (fun ref => negb (ref =? 0)) (words_from (fst r) (snd r)).

(** Every root slot, entry by entry, in the order of the loops. *)
Definition root_slots (st : collector) : list Z :=
  flat_map (fun k => entry_slots (gc_refs st (Z.of_nat k))) (seq 0 (Z.to_nat (gc_ref_count st))).

(** The body run on each slot of a list in turn. *)
Fixpoint iter_slots (body : Z -> M unit) (l : list Z) : M unit :=
  match l with
  | [] => ret tt
  | r :: l' => body r ;; iter_slots body l'
  end.

(** What [backpatch_refs] writes over a root word [w] (gc.c lines
    234-241): [w + (new_ptr - chunk)] when [w] points into the nursery,
    its slot is marked and [gc_backpatch] has a non-zero entry for it. *)
Definition backpatch_target (st : collector) (w : Z) : option Z :=
  if POINTS_MINOR st w then
    let chunk := MINOR_CHUNK st w in
    let k := CHUNK_OFFSET st chunk in
    if slot_marked st k then
      if gc_backpatch st k =? 0 then None else Some (w + (gc_backpatch st k - chunk))
    else None
  else None.

(** The word left in memory: the sum is stored as 8 bytes. *)
Definition patched (st : collector) (w : Z) : Z :=
  match backpatch_target st w with Some v => v mod 2 ^ 64 | None => w end.

(** Root words that do not overlap: a word is rewritten at most once. *)
Definition words_disjoint (l : list Z) : Prop :=
  ForallOrdPairs (fun a b => a + PTR_SIZE <= b \/ b + PTR_SIZE <= a) l.

(** A root word that can be read and written and holds no byte of a
    slot header. *)
Definition root_word_ok (st : collector) (r : Z) : Prop :=
  NULL_PAGE <= r /\ r + PTR_SIZE <= USER_TOP /\
  forall z, r <= z < r + PTR_SIZE -> off_headers (slot_starts st) z.

(** [promote_alias_gc] with slot 0 marked and its promoted address,
    the start of the major arena, in [gc_backpatch[0]]. *)
Definition patch_gc : collector :=
  let st := final_state (MARK_CHUNK (CHUNK_AT promote_alias_gc 0) 1) promote_alias_gc in
  final_state (backpatch_set 0 (major_lo st)) st.

(** ** The list of words. *)

Lemma words_from_step b e : b < e -> words_from b e = b :: words_from (b + PTR_SIZE) e.
Proof.
  intros H. unfold words_from, PTR_SIZE.
  replace (e - b + 7) with (e - (b + 8) + 7 + 1 * 8) by lia. rewrite Z.div_add by lia.
  assert (0 <= (e - (b + 8) + 7) / 8) by (apply Z.div_pos; lia).
  replace (Z.to_nat ((e - (b + 8) + 7) / 8 + 1)) with (S (Z.to_nat ((e - (b + 8) + 7) / 8))) by lia.
  cbn [seq map]. rewrite <- seq_shift, map_map. f_equal; [lia|].
  apply map_ext. intros k. lia.
Qed.

Lemma words_from_end b e : e <= b -> words_from b e = [].
Proof.
  intros H. unfold words_from.
  assert ((e - b + 7) / 8 <= 0) by (apply Z.lt_succ_r, Z.div_lt_upper_bound; lia).
  replace (Z.to_nat ((e - b + 7) / 8)) with O by lia. reflexivity.
Qed.

Lemma iter_slots_app body l1 l2 st :
  iter_slots body (l1 ++ l2) st = bind (iter_slots body l1) (fun _ => iter_slots body l2) st.
Proof.
  revert st. induction l1 as [|r l1 IH]; intros st; [reflexivity|]. cbn [app iter_slots].
  specialize (IH). unfold bind in *. destruct (body r st) as [[u st1]|f]; [apply IH|reflexivity].
Qed.

#[export] Instance keeps_iter_slots body l :
  (forall r, KeepsRegistry (body r)) -> KeepsRegistry (iter_slots body l).
Proof. intros Hb. induction l; cbn [iter_slots]; typeclasses eauto. Qed.

(** ** The nested loops are the walk over [root_slots]. *)
Section Flat.
Context (body : Z -> M unit) (st0 : collector) (fuel : nat).
Context `{Hk : forall r, KeepsRegistry (body r)}.
Hypothesis Hrc : 0 <= gc_ref_count st0 <= GC_MAX_REFS.
Hypothesis Hfuel : roots_fuel st0 fuel.

Lemma for_slots_flat c n : forall ref st, 0 <= c < gc_ref_count st0 -> same_registry st0 st ->
  (Z.to_nat ((snd (gc_refs st0 c) - ref + 7) / 8) < n)%nat ->
  for_slots body n c ref st =
  iter_slots body (filter (fun r => negb (r =? 0)) (words_from ref (snd (gc_refs st0 c)))) st.
Proof.
  induction n as [|n IH]; intros ref st Hc (Eb & Ec & Er) Hn; [lia|]. cbn [for_slots].
  rewrite (bind_Ok _ _ _ _ _ (refs_get_Ok st c ltac:(unfold GC_MAX_REFS in *; lia))), Er.
  destruct (Z.ltb_spec ref (snd (gc_refs st0 c))) as [Hlt|Hge]; [|rewrite words_from_end by lia; reflexivity].
  assert (Hq : (snd (gc_refs st0 c) - (ref + 8) + 7) / 8 = (snd (gc_refs st0 c) - ref + 7) / 8 - 1).
  { replace (snd (gc_refs st0 c) - ref + 7) with (snd (gc_refs st0 c) - (ref + 8) + 7 + 1 * 8) by lia.
    rewrite Z.div_add by lia. lia. }
  assert (1 <= (snd (gc_refs st0 c) - ref + 7) / 8) by (apply Z.div_le_lower_bound; lia).
  rewrite words_from_step by exact Hlt. cbn [filter].
  destruct (Z.eqb_spec ref 0) as [->|Hne]; cbn [negb].
  - rewrite bind_ret_l. apply IH; [exact Hc|repeat split; assumption|unfold PTR_SIZE; lia].
  - cbn [iter_slots]. unfold bind at 1 2. destruct (body ref st) as [[u st1]|f] eqn:E; [|reflexivity].
    apply IH; [exact Hc| |unfold PTR_SIZE; lia].
    exact (same_registry_trans _ _ _ (conj Eb (conj Ec Er)) (keeps_registry _ _ _ E)).
Qed.

Lemma for_roots_flat n : forall counter st, 0 <= counter -> same_registry st0 st ->
  (Z.to_nat (gc_ref_count st0 - counter) < n)%nat ->
  for_roots body fuel n counter st =
  iter_slots body (flat_map (fun k => entry_slots (gc_refs st0 (Z.of_nat k)))
                            (seq (Z.to_nat counter) (Z.to_nat (gc_ref_count st0 - counter)))) st.
Proof.
  destruct Hfuel as [_ Hf].
  induction n as [|n IH]; intros counter st H0 Hst Hn; [lia|]. pose proof Hst as (Eb & Ec & Er).
  cbn [for_roots]. rewrite bind_gets, Ec.
  destruct (Z.ltb_spec counter (gc_ref_count st0)) as [Hlt|Hge].
  2:{ replace (Z.to_nat (gc_ref_count st0 - counter)) with O by lia. reflexivity. }
  rewrite (bind_Ok _ _ _ _ _ (refs_get_Ok st counter ltac:(unfold GC_MAX_REFS in *; lia))), Er.
  replace (Z.to_nat (gc_ref_count st0 - counter)) with (S (Z.to_nat (gc_ref_count st0 - (counter + 1)))) by lia.
  cbn [seq flat_map]. rewrite Z2Nat.id by lia. rewrite iter_slots_app.
  unfold bind at 1 2. rewrite (for_slots_flat counter fuel _ st ltac:(lia) Hst (Hf counter ltac:(lia))).
  unfold entry_slots. destruct (iter_slots body _ st) as [[u st1]|f] eqn:E; [|reflexivity].
  replace (S (Z.to_nat counter)) with (Z.to_nat (counter + 1)) by lia.
  apply IH; [lia| |lia].
  exact (same_registry_trans _ _ _ Hst (keeps_registry _ _ _ E)).
Qed.

End Flat.

(** The root loops run the body on [root_slots], in order. *)
Lemma for_root_slots_iter body st fuel (Hk : forall r, KeepsRegistry (body r)) :
  0 <= gc_ref_count st <= GC_MAX_REFS -> roots_fuel st fuel ->
  for_root_slots body fuel st = iter_slots body (root_slots st) st.
Proof.
  intros Hrc Hf. unfold for_root_slots.
  rewrite (for_roots_flat body st fuel Hrc Hf fuel 0 st ltac:(lia) (same_registry_refl st)
             ltac:(rewrite Z.sub_0_r; exact (proj1 Hf))).
  rewrite Z.sub_0_r. reflexivity.
Qed.

(** C16. The nested root loops are a walk over the slot list: for any
    body that leaves the registry alone, on a registry whose count is a
    number of entries and with the fuel of [roots_fuel],
    [for_root_slots] gives exactly what running the body on
    [root_slots st] in order gives, results and faults alike. *)
Theorem for_root_slots_walks body st fuel (Hk : forall r, KeepsRegistry (body r)) :
  0 <= gc_ref_count st <= GC_MAX_REFS -> roots_fuel st fuel ->
  for_root_slots body fuel st = iter_slots body (root_slots st) st.
Proof. exact (for_root_slots_iter body st fuel Hk). Qed.

(** ** [backpatch_refs] rewrites every root word once. *)

Lemma backpatch_slot_Ok st r : placed st -> NULL_PAGE <= r -> r + PTR_SIZE <= USER_TOP ->
  backpatch_slot r st =
  Ok (tt, match backpatch_target st (load_le 8 (gc_mem st) r) with
          | Some v => set_mem st (store_le 8 (gc_mem st) r v)
          | None => st
          end).
Proof.
  intros Hpl Hr1 Hr2. assert (Hm : mapped r 8 = true) by (apply mapped_true; unfold PTR_SIZE in *; lia).
  unfold backpatch_slot, backpatch_target. rewrite bind_load_ptr, bind_gets by exact Hm.
  destruct (POINTS_MINOR st _) eqn:P; [|reflexivity].
  rewrite bind_load_ptr, bind_gets by exact Hm.
  destruct (MINOR_CHUNK_slot st _ P) as (_ & Hk & Ek). cbv zeta in Hk, Ek |- *.
  rewrite <- Ek at 1. rewrite (bind_Ok _ _ _ _ _ (MARKED_slot st _ Hpl Hk)).
  destruct (slot_marked st _); [|reflexivity].
  rewrite bind_gets. unfold bind at 1, backpatch_get.
  rewrite (proj2 (andb_true_iff _ _) (conj (proj2 (Z.leb_le _ _) (proj1 Hk)) (proj2 (Z.ltb_lt _ _) (proj2 Hk)))).
  destruct (gc_backpatch st _ =? 0); [reflexivity|].
  rewrite bind_load_ptr by exact Hm. unfold store_ptr. apply store_Ok. exact Hm.
Qed.

(** A write into a root word changes no slot header, hence no target. *)
Lemma backpatch_target_store st r v w : root_word_ok st r ->
  backpatch_target (set_mem st (store_le 8 (gc_mem st) r v)) w = backpatch_target st w.
Proof.
  intros (_ & _ & Hoff). unfold backpatch_target.
  change (POINTS_MINOR (set_mem st _) w) with (POINTS_MINOR st w).
  destruct (POINTS_MINOR st w) eqn:P; [|reflexivity].
  destruct (MINOR_CHUNK_slot st _ P) as (_ & Hk & _). cbv zeta in Hk |- *.
  change (MINOR_CHUNK (set_mem st _) w) with (MINOR_CHUNK st w).
  change (CHUNK_OFFSET (set_mem st _) ?x) with (CHUNK_OFFSET st x).
  change (gc_backpatch (set_mem st _)) with (gc_backpatch st).
  replace (slot_marked (set_mem st (store_le 8 (gc_mem st) r v)) (CHUNK_OFFSET st (MINOR_CHUNK st w)))
    with (slot_marked st (CHUNK_OFFSET st (MINOR_CHUNK st w))); [reflexivity|].
  unfold slot_marked, slot_hdr. cbn [gc_mem set_mem]. change (CHUNK_AT (set_mem st _)) with (CHUNK_AT st).
  f_equal. f_equal. f_equal. symmetry. apply load_le_ext. intros y Hy.
  apply store_le_outside. cbn in Hy.
  destruct (Z.lt_ge_cases y r) as [|Hyr]; [left; exact H|right].
  destruct (Z.lt_ge_cases y (r + 8)) as [Hy8|]; [|lia].
  specialize (Hoff y ltac:(unfold PTR_SIZE; lia)). unfold off_headers in Hoff. rewrite Forall_forall in Hoff.
  specialize (Hoff _ (in_slot_starts st _ Hk)). lia.
Qed.

Lemma root_word_ok_store st r v r' : root_word_ok st r' -> root_word_ok (set_mem st (store_le 8 (gc_mem st) r v)) r'.
Proof. intros H. exact H. Qed.

(** The walk of [backpatch_slot] over disjoint root words. *)
Lemma iter_backpatch l : forall st, placed st -> words_disjoint l -> (forall r, In r l -> root_word_ok st r) ->
  exists st', iter_slots backpatch_slot l st = Ok (tt, st') /\ st' = set_mem st (gc_mem st') /\
    (forall r, In r l -> load_le 8 (gc_mem st') r = patched st (load_le 8 (gc_mem st) r)) /\
    (forall a, (forall r, In r l -> a < r \/ r + PTR_SIZE <= a) -> gc_mem st' a = gc_mem st a).
Proof.
  induction l as [|r l IH]; intros st Hpl Hd Hok.
  { exists st. split; [reflexivity|]. split; [symmetry; apply set_mem_eta|]. split; [intros _ []|auto]. }
  inversion Hd as [|? ? Hr Hd']; subst. rewrite Forall_forall in Hr.
  destruct (Hok r (or_introl eq_refl)) as (Hr1 & Hr2 & Hoff).
  cbn [iter_slots]. rewrite (bind_Ok _ _ _ _ _ (backpatch_slot_Ok st r Hpl Hr1 Hr2)).
  set (st1 := match backpatch_target st _ with Some v => _ | None => st end).
  assert (E1 : exists m1, st1 = set_mem st m1 /\ load_le 8 m1 r = patched st (load_le 8 (gc_mem st) r) /\
                 (forall a, a < r \/ r + PTR_SIZE <= a -> m1 a = gc_mem st a) /\
                 forall w, backpatch_target st1 w = backpatch_target st w).
  { unfold st1, patched. destruct (backpatch_target st _) as [v|].
    - exists (store_le 8 (gc_mem st) r v). split; [reflexivity|]. split; [apply load_store_le_same|].
      split; [intros a Ha; apply store_le_outside; unfold PTR_SIZE in Ha; cbn; lia|].
      intros w. apply backpatch_target_store. exact (Hok r (or_introl eq_refl)).
    - exists (gc_mem st). split; [symmetry; apply set_mem_eta|]. auto. }
  destruct E1 as (m1 & Est1 & L1 & O1 & T1).
  destruct (IH st1) as (st' & E' & Es' & L' & O'); auto.
  { rewrite Est1. exact Hpl. }
  { intros r' Hr'. rewrite Est1. exact (Hok r' (or_intror Hr')). }
  exists st'. split; [exact E'|]. split; [rewrite Es', Est1; reflexivity|]. split.
  - intros r' [<-|Hr'].
    + rewrite Est1 in O'. rewrite <- L1. apply load_le_ext. intros y Hy. apply O'.
      intros r'' Hr''. specialize (Hr r'' Hr''). cbn in Hy. unfold PTR_SIZE in *. lia.
    + rewrite (L' r' Hr'). unfold patched. rewrite T1.
      assert (E : load_le 8 (gc_mem st1) r' = load_le 8 (gc_mem st) r').
      { apply load_le_ext. intros y Hy. rewrite Est1. apply O1.
        specialize (Hr r' Hr'). cbn in Hy. unfold PTR_SIZE in *. lia. }
      rewrite E. reflexivity.
  - intros a Ha. rewrite O' by (intros; apply Ha; right; assumption). rewrite Est1. apply O1, Ha. left. reflexivity.
Qed.

(** C10. [backpatch_refs] rewrites every root word once, as
    [backpatch_target] says: on a registry whose slot words do not
    overlap, lie outside the slot headers and can be accessed, with the
    fuel of [roots_fuel], it returns; every root word [r] then holds
    [patched st w] for the word [w] it held ([w + (new_ptr - chunk)]
    modulo [2^64] when [w] points into a marked slot with a non-zero
    [gc_backpatch] entry, [w] otherwise), and every other byte of
    memory is unchanged. *)
Theorem backpatch_refs_patches st fuel :
  placed st -> 0 <= gc_ref_count st <= GC_MAX_REFS -> roots_fuel st fuel ->
  words_disjoint (root_slots st) -> (forall r, In r (root_slots st) -> root_word_ok st r) ->
  exists st', backpatch_refs fuel st = Ok (tt, st') /\
    (forall r, In r (root_slots st) -> load_le 8 (gc_mem st') r = patched st (load_le 8 (gc_mem st) r)) /\
    (forall a, (forall r, In r (root_slots st) -> a < r \/ r + PTR_SIZE <= a) -> gc_mem st' a = gc_mem st a).
Proof.
  intros Hpl Hrc Hf Hd Hok. unfold backpatch_refs.
  rewrite (for_root_slots_iter backpatch_slot st fuel _ Hrc Hf).
  destruct (iter_backpatch (root_slots st) st Hpl Hd Hok) as (st' & E & _ & L & O).
  exists st'. auto.
Qed.

(** ** Witnesses. *)

(** A word below the nursery is a root word one can rewrite. *)
Lemma below_base_word_ok st r : placed st -> NULL_PAGE <= r -> r + PTR_SIZE <= gc_base st ->
  root_word_ok st r.
Proof.
  intros Hpl H1 H2. split; [exact H1|]. split; [unfold placed, major_hi, GC_MINHEAP_SIZE, GC_MAJHEAP_SIZE in Hpl; lia|].
  intros z Hz. unfold off_headers, slot_starts. apply Forall_forall.
  intros h (m & <- & _)%in_map_iff. left. unfold CHUNK_AT, GC_MINCHUNK_SIZE, PTR_SIZE in *. lia.
Qed.

Lemma patch_placed : placed patch_gc.
Proof. unfold placed, major_hi, GC_MINHEAP_SIZE, GC_MAJHEAP_SIZE, NULL_PAGE, USER_TOP. vm_compute. split; discriminate. Qed.

Lemma patch_roots_fuel : roots_fuel patch_gc 290.
Proof.
  split; [vm_compute; lia|].
  intros k Hk. change (gc_ref_count patch_gc) with 2 in Hk.
  assert (k = 0 \/ k = 1) as [-> | ->] by lia; vm_compute; lia.
Qed.

Lemma for_root_slots_walks_witness :
  for_root_slots backpatch_slot 290 patch_gc = iter_slots backpatch_slot (root_slots patch_gc) patch_gc.
Proof.
  apply for_root_slots_walks; [exact _|vm_compute; split; discriminate|exact patch_roots_fuel].
Defined.

Lemma backpatch_refs_patches_witness :
  exists st', backpatch_refs 290 patch_gc = Ok (tt, st') /\
    (forall r, In r (root_slots patch_gc) ->
       load_le 8 (gc_mem st') r = patched patch_gc (load_le 8 (gc_mem patch_gc) r)) /\
    (forall a, (forall r, In r (root_slots patch_gc) -> a < r \/ r + PTR_SIZE <= a) ->
       gc_mem st' a = gc_mem patch_gc a).
Proof.
  assert (Hs : root_slots patch_gc = [8192; 8200]) by (vm_compute; reflexivity).
  apply backpatch_refs_patches;
    [exact patch_placed|vm_compute; split; discriminate|exact patch_roots_fuel| |].
  - rewrite Hs. repeat constructor; unfold PTR_SIZE; lia.
  - rewrite Hs. intros r [<-|[<-|[]]]; apply below_base_word_ok;
      try exact patch_placed; unfold NULL_PAGE, PTR_SIZE; vm_compute; try discriminate; lia.
Defined.
