(* ===== verification/Promotion.v ===== *)
(** * The promotion loop of [copy_minor_heap] (gc.c lines 252-256)

    [promote_loop] asks [gc_major_alloc] for a chunk for every allocated
    slot, marked or not, and stores [WITHOUT_HEADER] of the answer in
    [gc_backpatch].  When every call answers the same pointer [a], the
    loop fills [gc_backpatch[0 .. gc_free_chunk)] with
    [WITHOUT_HEADER(a)] ([promote_loop_fill]).  Two arenas make every
    call answer the same: one free chunk spanning the arena (every call
    returns null, every entry is -4), and an arena whose first chunk is
    not free (every call returns that chunk).  The first case, followed
    through the rest of [gc_minor], ends in a fault at address -4. *)

From stdpp Require Import base decidable numbers.
From Stdlib Require Import ZArith Lia Bool List Relations.
From S2P Require Import Prelude Memory Layout Roots MajorAlloc Arena Major Minor MinorReach MinorCopy Frame Traversal.

Import ListNotations.
Open Scope Z_scope.
Open Scope gc_monad_scope.

(** The major arena as [gc_new]'s specification would leave it: one free
    chunk spanning all of it. *)
Definition fresh_arena (st : collector) : Prop :=
  load_le 4 (gc_mem st) (major_lo st) = header GC_MAJHEAP_SIZE GC_FREE.

(** The collectors of the witnesses: [fresh_root_gc] has a fresh arena,
    the two 16-byte nursery objects of [two_objs] and one root, the word
    at [8192], pointing to the object of slot 0. *)
Definition fresh_root_gc : collector :=
  client_root 8192 (gc_base sample_gc + 4) (two_objs [(GC_MAJHEAP_SIZE, GC_FREE)]).

(** The bytes [copy_loop] may write: the [gc_backpatch] destination of a
    marked slot below [gc_ref_count], as many bytes as the slot's size. *)
Definition copied_region (st : collector) (a : Z) : Prop :=
  exists i, 0 <= i < gc_ref_count st /\ slot_marked st i = true /\
    gc_backpatch st i <= a < gc_backpatch st i + size_bits (slot_hdr st i).

(** ** One step of the loop. *)

Lemma backpatch_set_Ok st i v : 0 <= i < GC_MINCHUNKS ->
  exists st', backpatch_set i v st = Ok (tt, st') /\ gc_mem st' = gc_mem st /\ gc_base st' = gc_base st /\
    gc_free_chunk st' = gc_free_chunk st /\ gc_ref_count st' = gc_ref_count st /\ gc_refs st' = gc_refs st /\
    forall j, gc_backpatch st' j = if j =? i then v else gc_backpatch st j.
Proof.
  intros Hi. unfold backpatch_set.
  rewrite (proj2 (andb_true_iff _ _) (conj (proj2 (Z.leb_le _ _) (proj1 Hi)) (proj2 (Z.ltb_lt _ _) (proj2 Hi)))).
  eexists. split; [reflexivity|]. cbn. auto 7.
Qed.

(** The request a slot of [s] bytes makes: [(int) WITH_HEADER(s)]. *)
Lemma slot_request s : 0 <= s <= GC_MINCHUNK_SIZE ->
  to_int32 (WITH_HEADER s) = s + 4 /\ 0 < s + 4 <= GC_MINCHUNK_SIZE + 4.
Proof.
  intros Hs. unfold WITH_HEADER, INT_SIZE, GC_MINCHUNK_SIZE in *.
  rewrite to_int32_small by (unfold int32_range; lia). lia.
Qed.

Lemma size_bits_nonneg h : 0 <= h -> 0 <= size_bits h.
Proof. intros. rewrite size_bits_eq. apply Z.mul_nonneg_nonneg; [lia|apply Z.div_pos; lia]. Qed.

(** ** The loop when every allocation answers the same pointer.

    [P] is a fact about the collector that the allocations and the
    [gc_backpatch] writes keep, and under which every allocation of a
    slot-sized request answers [a]. *)
Section PromoteLoop.
Context (fuel : nat) (P : collector -> Prop) (a : Z).
Hypothesis HP : forall st, P st -> placed st /\ nursery_wf st.
Hypothesis Halloc : forall st n, P st -> 0 < n <= GC_MINCHUNK_SIZE + 4 ->
  exists m, gc_major_alloc fuel n st = Ok (a, set_mem st m) /\ P (set_mem st m).
Hypothesis Hset : forall st st' i v, P st -> backpatch_set i v st = Ok (tt, st') -> P st'.

Lemma promote_loop_fill n : forall i st, P st -> 0 <= i -> gc_free_chunk st <= GC_MINCHUNKS ->
  (Z.to_nat (gc_free_chunk st - i) < n)%nat ->
  exists st', promote_loop fuel n i st = Ok (tt, st') /\ P st' /\
    gc_free_chunk st' = gc_free_chunk st /\
    forall k, gc_backpatch st' k =
      if (i <=? k) && (k <? gc_free_chunk st) then WITHOUT_HEADER a else gc_backpatch st k.
Proof.
  induction n as [|n IH]; intros i st Hst Hi Hfc Hn; [lia|].
  destruct (HP st Hst) as [Hpl Hwf].
  cbn [promote_loop]. rewrite bind_gets.
  destruct (Z.ltb_spec i (gc_free_chunk st)) as [Hlt|Hge].
  2:{ exists st. split; [reflexivity|]. split; [exact Hst|]. split; [reflexivity|].
      intros k. destruct (Z.leb_spec i k), (Z.ltb_spec k (gc_free_chunk st)); cbn; auto; lia. }
  rewrite bind_gets, bind_CHUNK_SIZE by (apply slot_mapped; auto; unfold GC_MINCHUNK_SIZE; lia).
  pose proof (Hwf i ltac:(lia)) as Hs. unfold slot_hdr in Hs.
  pose proof (size_bits_nonneg _ (proj1 (load32_bound (gc_mem st) (CHUNK_AT st i)))) as Hs0.
  destruct (slot_request _ (conj Hs0 Hs)) as [-> Hr].
  destruct (Halloc st _ Hst Hr) as (m & E & Hm). rewrite (bind_Ok _ _ _ _ _ E).
  destruct (backpatch_set_Ok (set_mem st m) i (WITHOUT_HEADER a) ltac:(lia))
    as (st1 & E1 & _ & _ & Efc & _ & _ & Eb).
  rewrite (bind_Ok _ _ _ _ _ E1).
  cbn [gc_free_chunk set_mem] in Efc.
  destruct (IH (i + 1) st1) as (st' & E' & Hst' & Efc' & Eb');
    [exact (Hset _ _ _ _ Hm E1)|lia|lia|lia|].
  exists st'. split; [exact E'|]. split; [exact Hst'|]. split; [congruence|].
  intros k. rewrite Eb', Eb, Efc. cbn [gc_backpatch set_mem].
  destruct (Z.leb_spec (i + 1) k), (Z.leb_spec i k), (Z.ltb_spec k (gc_free_chunk st)), (Z.eqb_spec k i);
    cbn; auto; lia.
Qed.

End PromoteLoop.

(** ** A fresh arena: every entry becomes [WITHOUT_HEADER(NULL)] = -4. *)

Lemma promote_loop_fresh st fuel : placed st -> nursery_wf st -> fresh_arena st ->
  gc_free_chunk st <= GC_MINCHUNKS -> (1 < fuel)%nat -> (Z.to_nat (gc_free_chunk st) < fuel)%nat ->
  exists st', promote_loop fuel fuel 0 st = Ok (tt, st') /\ gc_mem st' = gc_mem st /\
    gc_base st' = gc_base st /\ gc_free_chunk st' = gc_free_chunk st /\
    gc_ref_count st' = gc_ref_count st /\ gc_refs st' = gc_refs st /\
    forall k, gc_backpatch st' k = if (0 <=? k) && (k <? gc_free_chunk st) then -4 else gc_backpatch st k.
Proof.
  intros Hpl Hwf Hfr Hfc Hf1 Hf.
  set (P := fun st' => gc_mem st' = gc_mem st /\ gc_base st' = gc_base st /\
                       gc_ref_count st' = gc_ref_count st /\ gc_refs st' = gc_refs st).
  destruct (promote_loop_fill fuel P 0) with (n := fuel) (i := 0) (st := st)
    as (st' & E & (Hm & Hb & Hc & Hr) & Efc & Eb); unfold P.
  - intros st1 (Hm & Hb & _). unfold placed, nursery_wf, slot_hdr, CHUNK_AT, major_hi in *.
    rewrite Hm, Hb. auto.
  - intros st1 n (Hm & Hb & Hc & Hr) Hn. exists (gc_mem st1). rewrite set_mem_eta.
    split; [|auto]. apply alloc_fresh_null; [unfold placed, major_hi in *; rewrite Hb; exact Hpl| |exact Hf1|].
    + unfold major_lo. rewrite Hm, Hb. exact Hfr.
    + unfold GC_MINCHUNK_SIZE, GC_MAJHEAP_SIZE in *. lia.
  - intros st1 st2 i v (Hm & Hb & Hc & Hr) E.
    unfold backpatch_set in E. destruct ((0 <=? i) && (i <? GC_MINCHUNKS)); [|discriminate].
    injection E as <-. cbn. auto.
  - auto.
  - lia.
  - exact Hfc.
  - lia.
  - exists st'. split; [exact E|]. auto 6.
Qed.

(** ** An arena whose first chunk is not free: every slot gets that chunk. *)

(** A slot header lies below the major arena, where [gc_major_alloc]
    writes nothing. *)
Lemma slot_hdr_alloc st m a s r v i : a = major_lo st -> 0 <= r -> 0 <= i < GC_MINCHUNKS ->
  slot_hdr (set_mem st (store_le 4 (store_le 4 (store_le 4 m a s) a (Z.lor s 1)) (a + r) v)) i =
  load_le 4 m (CHUNK_AT st i).
Proof.
  intros -> Hr Hi. rewrite GC_MINCHUNKS_eq in Hi. unfold slot_hdr. cbn [gc_mem set_mem].
  apply load_le_ext. intros x Hx. apply alloc_stores_outside; [|exact Hr].
  unfold CHUNK_AT, major_lo, GC_MINCHUNK_SIZE, GC_MINHEAP_SIZE in *. cbn [set_mem gc_base] in *. cbn in Hx. lia.
Qed.

(** One allocation when the first chunk is not free: the walk stops at
    once, the chunk is handed out and stays not free (white). *)
Lemma alloc_first_taken st fuel n s c :
  placed st -> load_le 4 (gc_mem st) (major_lo st) = header s c -> c <> GC_FREE ->
  0 < s < 2 ^ 32 -> s mod 4 = 0 -> 0 < n <= 2 ^ 31 - 8 -> (1 <= fuel)%nat ->
  exists m, gc_major_alloc fuel n st = Ok (major_lo st + 4, set_mem st m) /\
    load_le 4 m (major_lo st) = header s GC_WHITE /\
    forall i, 0 <= i < GC_MINCHUNKS -> slot_hdr (set_mem st m) i = slot_hdr st i.
Proof.
  intros Hpl H1 Hc Hs Hs4 Hn Hf. destruct fuel as [|f]; [lia|].
  destruct (request_size_bounds n Hn) as (_ & Hr & _).
  pose proof Hpl as Hp. unfold placed in Hp.
  assert (Hscan : major_alloc_scan (S f) (request_size n) (major_lo st) st = Ok (major_lo st, st)).
  { apply (scan_stop st _ Hpl _ s c); auto. unfold major_lo, major_hi, GC_MAJHEAP_SIZE, GC_MINHEAP_SIZE, NULL_PAGE in *. lia. }
  rewrite (gc_major_alloc_stop st (S f) n (major_lo st) s c Hpl Hn Hscan);
    [|unfold major_lo, major_hi, GC_MAJHEAP_SIZE, GC_MINHEAP_SIZE in *; lia|exact H1|lia|exact Hs4].
  eexists. split; [reflexivity|]. split.
  - apply alloc_header_after; lia.
  - intros i Hi. rewrite (slot_hdr_alloc st _ _ _ _ _ i eq_refl) by lia. reflexivity.
Qed.

(** ** [backpatch_refs] keeps the slot headers when the root slots lie
    outside them. *)

(** The major arena holds no slot header. *)
Lemma arena_off_headers st y : major_lo st <= y -> off_headers (slot_starts st) y.
Proof.
  intros Hy. unfold off_headers, slot_starts. apply Forall_forall. intros h Hh.
  apply in_map_iff in Hh as (k & <- & Hk). apply in_seq in Hk. rewrite GC_MINCHUNKS_eq in Hk. cbn in Hk.
  right. unfold CHUNK_AT, major_lo, GC_MINCHUNK_SIZE, GC_MINHEAP_SIZE in *. lia.
Qed.

Lemma roots_off_slots_same st st' : gc_base st' = gc_base st -> gc_ref_count st' = gc_ref_count st ->
  gc_refs st' = gc_refs st -> roots_off_slots st -> roots_off_slots st'.
Proof.
  intros Eb Ec Er H c r Hr. unfold root_slot_of in Hr. rewrite Ec, Er in Hr.
  replace (slot_starts st') with (slot_starts st) by (unfold slot_starts, CHUNK_AT; rewrite Eb; reflexivity).
  exact (H c r Hr).
Qed.

(** An 8-byte store into a word that holds no byte of a slot header. *)
Lemma slot_hdr_store_off st m r v : (forall z, r <= z < r + PTR_SIZE -> off_headers (slot_starts st) z) ->
  forall k, 0 <= k < GC_MINCHUNKS ->
  slot_hdr (set_mem st (store_le 8 m r v)) k = slot_hdr (set_mem st m) k.
Proof.
  intros Hoff k Hk. unfold slot_hdr. cbn [gc_mem set_mem]. change (CHUNK_AT (set_mem st _)) with (CHUNK_AT st).
  apply load_le_ext. intros y Hy. apply store_le_outside. cbn in Hy.
  destruct (Z.lt_ge_cases y r) as [|Hyr]; [left; assumption|right].
  destruct (Z.lt_ge_cases y (r + 8)) as [Hy8|]; [|lia].
  specialize (Hoff y ltac:(unfold PTR_SIZE; lia)). unfold off_headers in Hoff. rewrite Forall_forall in Hoff.
  specialize (Hoff _ (in_slot_starts st _ Hk)). lia.
Qed.

Lemma backpatch_refs_hdrs st fuel : placed st -> roots_ok st -> roots_fuel st fuel -> roots_off_slots st ->
  exists st', backpatch_refs fuel st = Ok (tt, st') /\ hdrs_kept st st'.
Proof.
  intros Hpl Hok Hfuel Hoff. unfold backpatch_refs.
  destruct (for_root_slots_visit backpatch_slot (hdrs_kept st) st fuel (fun _ _ => True)) as (st' & E & Hk & _).
  - intros st1 (m & -> & _). auto.
  - intros st1 ref (m & -> & Eh) (c & Hr) Hr1 Hr2.
    rewrite (backpatch_slot_Ok (set_mem st m) ref Hpl Hr1 Hr2).
    destruct (backpatch_target _ _) as [v|]; eexists; (split; [reflexivity|]); [|exists m; auto].
    exists (store_le 8 m ref v). split; [reflexivity|]. intros k Hk.
    change (slot_hdr (set_mem st (store_le 8 m ref v)) k = slot_hdr st k).
    rewrite (slot_hdr_store_off st m ref v (Hoff c ref Hr) k Hk). exact (Eh k Hk).
  - auto.
  - auto.
  - exact Hok.
  - exact Hfuel.
  - apply hdrs_kept_refl.
  - exists st'. auto.
Qed.

(** ** The copy loop writes the destinations of the slots below
    [gc_ref_count] only. *)

(** A byte inside the destination of [memcpy_le] is the source byte,
    when source and destination do not overlap. *)
Lemma memcpy_le_inside n : forall m dst src t, 0 <= t < Z.of_nat n ->
  src + Z.of_nat n <= dst \/ dst + Z.of_nat n <= src ->
  memcpy_le n m dst src (dst + t) = m (src + t) mod 256.
Proof.
  induction n as [|n IH]; intros m dst src t Ht Hd; [lia|]. cbn [memcpy_le].
  destruct (Z.eq_dec t 0) as [->|Hne].
  - rewrite memcpy_le_outside by lia. rewrite !Z.add_0_r. apply upd_same.
  - replace (dst + t) with ((dst + 1) + (t - 1)) by lia. rewrite IH by lia.
    replace (src + 1 + (t - 1)) with (src + t) by lia. rewrite upd_other by lia. reflexivity.
Qed.

Section CopyLoop.
Context (st : collector).
Hypothesis Hpl : placed st.
Hypothesis Hwf : nursery_wf st.
Hypothesis Hdst : forall i, 0 <= i < gc_ref_count st -> slot_marked st i = true ->
  major_lo st <= gc_backpatch st i /\ gc_backpatch st i + size_bits (slot_hdr st i) <= USER_TOP.
Hypothesis Hdisj : forall i j, 0 <= i < gc_ref_count st -> 0 <= j < gc_ref_count st -> i <> j ->
  slot_marked st i = true -> slot_marked st j = true ->
  gc_backpatch st i + size_bits (slot_hdr st i) <= gc_backpatch st j \/
  gc_backpatch st j + size_bits (slot_hdr st j) <= gc_backpatch st i.

(** [st1] is [st] with at most the bytes of [copied_region st] rewritten. *)
Definition copy_frame (st1 : collector) : Prop :=
  st1 = set_mem st (gc_mem st1) /\ forall a, ~ copied_region st a -> gc_mem st1 a = gc_mem st a.

(** The destinations of the marked slots below [k] hold their bytes. *)
Definition copied_upto (k : Z) (st1 : collector) : Prop :=
  forall j t, 0 <= j < k -> j < gc_ref_count st -> slot_marked st j = true ->
    0 <= t < size_bits (slot_hdr st j) ->
    gc_mem st1 (gc_backpatch st j + t) = gc_mem st (CHUNK_AT st j + t) mod 256.

Lemma copy_frame_hdr st1 i : copy_frame st1 -> 0 <= i < GC_MINCHUNKS -> slot_hdr st1 i = slot_hdr st i.
Proof.
  intros [Es F] Hi. rewrite Es. unfold slot_hdr. cbn [gc_mem set_mem]. change (CHUNK_AT (set_mem st _)) with (CHUNK_AT st).
  apply load_le_ext. intros x Hx. apply F. intros (j & Hj & Mj & Hb).
  destruct (Hdst j Hj Mj) as [Hlo _]. rewrite GC_MINCHUNKS_eq in Hi. cbn in Hx.
  unfold CHUNK_AT, major_lo, GC_MINCHUNK_SIZE, GC_MINHEAP_SIZE in *. lia.
Qed.

Lemma copy_loop_frame n : forall i st1, 0 <= i -> copy_frame st1 -> copied_upto i st1 ->
  gc_ref_count st <= GC_MINCHUNKS -> (Z.to_nat (gc_ref_count st - i) < n)%nat ->
  exists st', copy_loop n i st1 = Ok (tt, st') /\ copy_frame st' /\ copied_upto (gc_ref_count st) st'.
Proof.
  induction n as [|n IH]; intros i st1 Hi Hf1 Hc1 Hrc Hn; [lia|].
  pose proof Hf1 as [Es F]. cbn [copy_loop]. rewrite bind_gets.
  replace (gc_ref_count st1) with (gc_ref_count st) by (rewrite Es; reflexivity).
  destruct (Z.ltb_spec i (gc_ref_count st)) as [Hlt|Hge].
  2:{ exists st1. split; [reflexivity|]. split; [exact Hf1|]. intros j t Hj. apply Hc1. lia. }
  assert (Hi' : 0 <= i < GC_MINCHUNKS) by lia.
  assert (Hpl1 : placed st1) by (rewrite Es; exact Hpl).
  rewrite bind_gets, (bind_Ok _ _ _ _ _ (MARKED_slot st1 i Hpl1 Hi')).
  assert (Em : slot_marked st1 i = slot_marked st i) by (unfold slot_marked; rewrite (copy_frame_hdr st1 i Hf1 Hi'); reflexivity).
  rewrite Em. destruct (slot_marked st i) eqn:Mi.
  2:{ rewrite bind_ret_l. apply IH; [lia|exact Hf1| |exact Hrc|lia]. intros j t Hj Hjr Mj Ht.
      destruct (Z.eq_dec j i) as [->|]; [congruence|]. apply Hc1; auto; lia. }
  rewrite bind_assoc, (bind_Ok _ _ _ _ _ (backpatch_get_Ok st1 i Hi')).
  rewrite bind_assoc, bind_CHUNK_SIZE by (apply slot_mapped; auto; unfold GC_MINCHUNK_SIZE; lia).
  change (load_le 4 (gc_mem st1) (CHUNK_AT st1 i)) with (slot_hdr st1 i).
  rewrite (copy_frame_hdr st1 i Hf1 Hi').
  replace (gc_backpatch st1 i) with (gc_backpatch st i) by (rewrite Es; reflexivity).
  destruct (Hdst i ltac:(lia) Mi) as [Hlo Htop].
  pose proof (Hwf i Hi') as Hs. pose proof (size_bits_nonneg (slot_hdr st i) (proj1 (load32_bound (gc_mem st) (CHUNK_AT st i)))) as Hs0.
  set (s := size_bits (slot_hdr st i)) in *. set (d := gc_backpatch st i) in *.
  assert (Md : mapped d s = true)
    by (apply mapped_true; unfold placed, major_lo, major_hi, NULL_PAGE, GC_MINHEAP_SIZE in *; lia).
  assert (Ms : mapped (CHUNK_AT st1 i) s = true) by (apply slot_mapped; auto; unfold s, GC_MINCHUNK_SIZE in *; lia).
  unfold gc_memcpy at 1, bind at 1. rewrite Md, Ms. cbn [andb].
  replace (CHUNK_AT st1 i) with (CHUNK_AT st i) by (rewrite Es; reflexivity).
  assert (Hsep : CHUNK_AT st i + s <= d).
  { rewrite GC_MINCHUNKS_eq in Hi'. unfold s, CHUNK_AT, major_lo, GC_MINCHUNK_SIZE, GC_MINHEAP_SIZE in *. lia. }
  apply IH; [lia| | |exact Hrc|lia].
  - split; [rewrite Es; reflexivity|]. intros a Ha. cbn [gc_mem set_mem].
    rewrite memcpy_le_outside; [apply F, Ha|].
    rewrite Z2Nat.id by exact Hs0.
    destruct (Z.lt_ge_cases a d); [left; assumption|right].
    destruct (Z.lt_ge_cases a (d + s)); [|lia].
    exfalso. apply Ha. exists i. auto.
  - intros j t Hj Hjr Mj Ht. cbn [gc_mem set_mem].
    destruct (Z.eq_dec j i) as [->|Hne].
    + fold d s in Ht |- *. rewrite memcpy_le_inside by (rewrite Z2Nat.id; lia).
      rewrite F; [reflexivity|]. intros (k & Hk & Mk & Hb).
      destruct (Hdst k Hk Mk) as [Hlok _]. rewrite GC_MINCHUNKS_eq in Hi'.
      assert (CHUNK_AT st i + t < major_lo st).
      { clearbody s d. clear -Hi' Ht Hs. unfold CHUNK_AT, major_lo, GC_MINCHUNK_SIZE, GC_MINHEAP_SIZE in *. lia. }
      lia.
    + rewrite memcpy_le_outside; [apply Hc1; auto; lia|].
      rewrite Z2Nat.id by exact Hs0.
      destruct (Hdisj i j ltac:(lia) ltac:(lia) ltac:(congruence) Mi Mj); subst d s; lia.
Qed.

End CopyLoop.

(** ** Properties of the promotion. *)

(** C7. On an arena whose first chunk is not free (white, say, as
    [gc_major_alloc] leaves the chunk it hands out), [promote_loop]
    returns and assigns every allocated slot, marked or not, the same
    promoted address, the start of the arena: each [gc_major_alloc]
    stops at the first chunk, which stays white, so distinct nursery
    objects are all promoted into one chunk. *)
Theorem promote_loop_aliases st fuel s c :
  placed st -> nursery_wf st -> gc_free_chunk st <= GC_MINCHUNKS ->
  load_le 4 (gc_mem st) (major_lo st) = header s c -> c <> GC_FREE -> 0 < s < 2 ^ 32 -> s mod 4 = 0 ->
  (Z.to_nat (gc_free_chunk st) < fuel)%nat ->
  exists st', promote_loop fuel fuel 0 st = Ok (tt, st') /\
    forall k, 0 <= k < gc_free_chunk st -> gc_backpatch st' k = major_lo st.
Proof.
  intros Hpl Hwf Hfc H1 Hc Hs Hs4 Hf.
  set (P := fun st' => placed st' /\ nursery_wf st' /\ gc_base st' = gc_base st /\
                       exists c', c' <> GC_FREE /\ load_le 4 (gc_mem st') (major_lo st') = header s c').
  destruct (promote_loop_fill fuel P (major_lo st + 4)) with (n := fuel) (i := 0) (st := st)
    as (st' & E & _ & _ & Eb); unfold P.
  - intros st1 (Hpl1 & Hwf1 & _). auto.
  - intros st1 n (Hpl1 & Hwf1 & Hb1 & c1 & Hc1 & H11) Hn.
    assert (El : major_lo st1 = major_lo st) by (unfold major_lo; rewrite Hb1; reflexivity).
    destruct (alloc_first_taken st1 fuel n s c1 Hpl1 H11 Hc1 Hs Hs4 ltac:(unfold GC_MINCHUNK_SIZE in *; lia)
                ltac:(lia)) as (m & E & Hw & Hh).
    exists m. rewrite <- El. split; [exact E|]. split; [exact Hpl1|]. split.
    + intros i Hi. rewrite (Hh i Hi). apply Hwf1, Hi.
    + split; [exact Hb1|]. exists GC_WHITE. split; [discriminate|exact Hw].
  - intros st1 st2 i v (Hpl1 & Hwf1 & Hb1 & Hc1) E.
    unfold backpatch_set in E. destruct ((0 <=? i) && (i <? GC_MINCHUNKS)); [|discriminate].
    injection E as <-. exact (conj Hpl1 (conj Hwf1 (conj Hb1 Hc1))).
  - split; [exact Hpl|]. split; [exact Hwf|]. split; [reflexivity|]. exists c. auto.
  - lia.
  - exact Hfc.
  - lia.
  - exists st'. split; [exact E|]. intros k Hk. rewrite Eb.
    rewrite (proj2 (Z.leb_le 0 k)), (proj2 (Z.ltb_lt k _)) by lia.
    cbn [andb]. unfold WITHOUT_HEADER, INT_SIZE. lia.
Qed.

(** C6. With the major arena as one free chunk (what the specification
    says [gc_new] sets up), [gc_minor] faults at address -4 as soon as
    slot 0 is reachable from a root: [mark_minor] marks slot 0, every
    [gc_major_alloc] of [promote_loop] walks past the one chunk and
    returns null, [gc_backpatch[0]] receives [WITHOUT_HEADER(NULL)] =
    -4, which passes the [new_ptr != 0] test, and the copy of slot 0
    writes to address -4.  The hypotheses are those under which the
    marking reaches every reachable slot ([mark_minor_reach]), a nursery with at least
    one allocated slot and at most [GC_MINCHUNKS] root ranges, and a
    slot 0 of positive size (a copy of 0 bytes would touch no memory). *)
Theorem gc_minor_fresh_arena_segfaults st fuel :
  placed st -> nursery_fits st -> mark_closed st -> roots_ok st -> roots_fuel st fuel -> roots_off_slots st ->
  fresh_arena st -> 0 < gc_free_chunk st <= GC_MINCHUNKS -> gc_ref_count st <= GC_MINCHUNKS ->
  minor_reachable st 0 -> 0 < size_bits (slot_hdr st 0) ->
  (Z.to_nat GC_MINCHUNKS + 34 <= fuel)%nat ->
  gc_minor fuel st = Fail (SegFault (-4)).
Proof.
  intros Hpl Hf Hc Hok Hfuel Hoff Hfr Hfc Hrc Hreach _ Hfu.
  assert (Hrc0 : 0 < gc_ref_count st) by (destruct Hreach as (r & (c & w & (Hc0 & _) & _) & _); lia).
  pose proof GC_MINCHUNKS_eq as E256.
  (* the marking *)
  destruct (mark_minor_reach st fuel Hpl (fits_wf st Hf) Hf Hc Hok Hfuel Hoff Hfu) as (st1 & E1 & Hmo1 & _ & Hr1).
  pose proof (Hr1 0 Hreach) as M1.
  destruct (marks_only_base _ _ Hmo1) as (Eb1 & _ & Ep1 & Er1 & Ec1).
  assert (Hpl1 : placed st1) by (apply Ep1, Hpl).
  assert (Ec : gc_ref_count st1 = gc_ref_count st) by exact Ec1.
  assert (Efc1 : gc_free_chunk st1 = gc_free_chunk st) by (destruct Hmo1 as [[Est _] _]; rewrite Est; reflexivity).
  assert (Hf1 : nursery_fits st1) by exact (marks_only_fits _ _ Hmo1 Hf).
  assert (Hfr1 : fresh_arena st1).
  { unfold fresh_arena, major_lo. rewrite Eb1.
    rewrite (headers_only_load _ _ _ 4 _ (proj1 Hmo1)); [exact Hfr|].
    intros y Hy. apply arena_off_headers. unfold major_lo in *. cbn in Hy |- *. lia. }
  destruct (roots_same st st1 Ec1 Er1) as [Hok1 Hfuel1].
  pose proof (roots_off_slots_same st st1 Eb1 Ec1 Er1 Hoff) as Hoff1.
  (* the promotion *)
  destruct (promote_loop_fresh st1 fuel Hpl1 (fits_wf st1 Hf1) Hfr1 ltac:(lia) ltac:(rewrite E256 in Hfu; lia)
              ltac:(rewrite E256 in Hfu; lia)) as (st2 & E2 & Hm2 & Hb2 & Hfc2 & Hc2 & Hr2 & Hbp2).
  assert (Hpl2 : placed st2) by (unfold placed, major_hi in *; rewrite Hb2; exact Hpl1).
  assert (Hhdr2 : forall i, slot_hdr st2 i = slot_hdr st1 i) by (intros i; unfold slot_hdr, CHUNK_AT; rewrite Hm2, Hb2; reflexivity).
  destruct (roots_same st1 st2 Hc2 Hr2) as [Hok2 Hfuel2].
  pose proof (roots_off_slots_same st1 st2 Hb2 Hc2 Hr2 Hoff1) as Hoff2.
  (* the root rewrite and the field rewrite keep the slot headers *)
  destruct (backpatch_refs_hdrs st2 fuel Hpl2 (Hok2 (Hok1 Hok)) (Hfuel2 _ (Hfuel1 _ Hfuel)) Hoff2) as (st3 & E3 & (m3 & -> & Eh3)).
  assert (Hf3 : nursery_fits (set_mem st2 m3)) by (intros i Hi; rewrite (Eh3 i Hi), Hhdr2; exact (Hf1 i Hi)).
  destruct (backpatch_loop_kept (set_mem st2 m3) fuel fuel Hpl2 Hf3 ltac:(cbn; lia) ltac:(rewrite E256 in Hfu; lia)
              0 _ ltac:(lia) (hdrs_kept_refl _) ltac:(cbn; rewrite E256 in Hfu; lia)) as (st4 & E4 & (m4 & -> & Eh4)).
  (* the copy of slot 0 *)
  unfold gc_minor. rewrite (bind_Ok _ _ _ _ _ E1). apply bind_Fail. unfold copy_minor_heap.
  rewrite (bind_Ok _ _ _ _ _ E2), (bind_Ok _ _ _ _ _ E3), (bind_Ok _ _ _ _ _ E4).
  destruct fuel as [|n]; [lia|].
  apply copy_loop_marked_fault; [exact Hpl2|cbn; lia| | |unfold NULL_PAGE; lia].
  - unfold slot_marked. rewrite (Eh4 0), (Eh3 0), Hhdr2 by lia. exact M1.
  - cbn [set_mem gc_backpatch]. rewrite Hbp2, Efc1. cbn [Z.leb Z.ltb andb].
    rewrite (proj2 (Z.ltb_lt 0 _)) by lia. reflexivity.
Qed.

(** C13. The copy loop of [copy_minor_heap] runs over
    [i < gc_ref_count], not over the allocated slots.  When the marked
    slots it visits have non-overlapping destinations inside the major
    arena, it returns, the destination of each marked slot below
    [gc_ref_count] holds the slot's bytes, and no byte outside these
    destinations ([copied_region]) is written: a marked slot whose
    index is [gc_ref_count] or more is never copied, though
    [backpatch_refs] has already redirected its roots to its promoted
    chunk. *)
Theorem copy_loop_skips_past_ref_count st n :
  placed st -> nursery_wf st -> gc_ref_count st <= GC_MINCHUNKS -> (Z.to_nat (gc_ref_count st) < n)%nat ->
  (forall i, 0 <= i < gc_ref_count st -> slot_marked st i = true ->
     major_lo st <= gc_backpatch st i /\ gc_backpatch st i + size_bits (slot_hdr st i) <= USER_TOP) ->
  (forall i j, 0 <= i < gc_ref_count st -> 0 <= j < gc_ref_count st -> i <> j ->
     slot_marked st i = true -> slot_marked st j = true ->
     gc_backpatch st i + size_bits (slot_hdr st i) <= gc_backpatch st j \/
     gc_backpatch st j + size_bits (slot_hdr st j) <= gc_backpatch st i) ->
  exists st', copy_loop n 0 st = Ok (tt, st') /\
    (forall i t, 0 <= i < gc_ref_count st -> slot_marked st i = true -> 0 <= t < size_bits (slot_hdr st i) ->
       gc_mem st' (gc_backpatch st i + t) = gc_mem st (CHUNK_AT st i + t) mod 256) /\
    forall a, ~ copied_region st a -> gc_mem st' a = gc_mem st a.
Proof.
  intros Hpl Hwf Hrc Hn Hdst Hdisj.
  destruct (copy_loop_frame st Hpl Hwf Hdst Hdisj n 0 st ltac:(lia)) as (st' & E & (_ & F) & C);
    [split; [symmetry; apply set_mem_eta|auto]|intros j t Hj; lia|exact Hrc|lia|].
  exists st'. split; [exact E|]. split; [|exact F]. intros i t Hi. apply C; lia.
Qed.

(** ** Witnesses. *)

Lemma promote_loop_aliases_witness :
  exists st', promote_loop 3 3 0 (two_objs two_chunks) = Ok (tt, st') /\
    forall k, 0 <= k < gc_free_chunk (two_objs two_chunks) -> gc_backpatch st' k = major_lo (two_objs two_chunks).
Proof.
  apply (promote_loop_aliases (two_objs two_chunks) 3 20 GC_WHITE);
    [unfold placed, major_hi, GC_MINHEAP_SIZE, GC_MAJHEAP_SIZE, NULL_PAGE, USER_TOP; vm_compute; split; discriminate
    |apply nursery_wfb_spec; vm_compute; reflexivity
    |change (gc_free_chunk (two_objs two_chunks)) with 2; rewrite GC_MINCHUNKS_eq; lia
    |vm_compute; reflexivity|discriminate|lia|reflexivity
    |change (gc_free_chunk (two_objs two_chunks)) with 2; cbn; lia].
Defined.

Lemma gc_minor_fresh_arena_segfaults_witness : gc_minor 290 fresh_root_gc = Fail (SegFault (-4)).
Proof.
  apply gc_minor_fresh_arena_segfaults.
  - unfold placed, major_hi, GC_MINHEAP_SIZE, GC_MAJHEAP_SIZE, NULL_PAGE, USER_TOP; vm_compute; split; discriminate.
  - apply nursery_fitsb_spec; vm_compute; reflexivity.
  - apply no_marks_closed; vm_compute; reflexivity.
  - split; [vm_compute; split; discriminate|].
    intros k Hk _. change (gc_ref_count fresh_root_gc) with 1 in Hk.
    assert (k = 0) as -> by lia. vm_compute. split; discriminate.
  - split; [vm_compute; lia|].
    intros k Hk. change (gc_ref_count fresh_root_gc) with 1 in Hk.
    assert (k = 0) as -> by lia. vm_compute. lia.
  - apply roots_below_off. intros c Hc. change (gc_ref_count fresh_root_gc) with 1 in Hc.
    assert (c = 0) as -> by lia. vm_compute. discriminate.
  - vm_compute. reflexivity.
  - change (gc_free_chunk fresh_root_gc) with 2. rewrite GC_MINCHUNKS_eq. lia.
  - change (gc_ref_count fresh_root_gc) with 1. rewrite GC_MINCHUNKS_eq. lia.
  - exists 0. split; [|apply rt_refl]. exists 0, 8192.
    unfold root_slot_of. vm_compute. repeat split; (reflexivity || discriminate).
  - vm_compute. reflexivity.
  - rewrite GC_MINCHUNKS_eq. cbn. lia.
Defined.

Lemma copy_loop_skips_past_ref_count_witness :
  exists st', copy_loop 3 0 patch_gc = Ok (tt, st') /\
    (forall i t, 0 <= i < gc_ref_count patch_gc -> slot_marked patch_gc i = true ->
       0 <= t < size_bits (slot_hdr patch_gc i) ->
       gc_mem st' (gc_backpatch patch_gc i + t) = gc_mem patch_gc (CHUNK_AT patch_gc i + t) mod 256) /\
    forall a, ~ copied_region patch_gc a -> gc_mem st' a = gc_mem patch_gc a.
Proof.
  apply copy_loop_skips_past_ref_count;
    [exact patch_placed|apply nursery_wfb_spec; vm_compute; reflexivity
    |change (gc_ref_count patch_gc) with 2; rewrite GC_MINCHUNKS_eq; lia
    |change (gc_ref_count patch_gc) with 2; cbn; lia| |].
  - intros i Hi M. change (gc_ref_count patch_gc) with 2 in Hi.
    assert (i = 0 \/ i = 1) as [-> | ->] by lia; [|vm_compute in M; discriminate].
    vm_compute. split; discriminate.
  - intros i j Hi Hj Hne Mi Mj. change (gc_ref_count patch_gc) with 2 in Hi, Hj.
    assert (i = 1 \/ j = 1) as [-> | ->] by lia;
      [vm_compute in Mi; discriminate Mi|vm_compute in Mj; discriminate Mj].
Defined.
