(* ===== verification/Debug.v ===== *)
(** * The debug printers (gc.c lines 302-341, under [GC_DEBUG])

    [gc_print_minor] lists the allocated nursery slots and
    [gc_print_refs] lists the root slots.  They only read the collector;
    their output is modelled as the list of lines they print, each line
    a constructor carrying the values its [printf] formats. *)

From stdpp Require Import base decidable numbers.
From Stdlib Require Import ZArith Lia Bool List.
From S2P Require Import Prelude Memory Layout Roots MajorAlloc Minor.

Import ListNotations.
Open Scope Z_scope.
Open Scope gc_monad_scope.

(** The heap a root points into, as [gc_print_refs] names it. *)
Inductive heap_name : Type := HMinor | HMajor | HUnknown.

(** The lines the two printers print, by their format strings. *)
Inductive dbg_line : Type :=
| MinorListHead (n : Z)                       (* "*** List of minor heap allocated %d chunks" *)
| MinorChunkLine (off size : Z) (marked : bool) (* "Chunk: %.4d size: %.3d marked: %c" *)
| MinorListEnd                                (* "*** End of minor chunks list" *)
| RefsListHead (n : Z)                        (* "*** List of stored references. %d references" *)
| RefLine (ofs : Z) (h : heap_name)           (* "Reference pointing to: %0.8x(%s)" *)
| EmptySlotLine                               (* "Empty Slot" *)
| RefsListEnd.                                (* "*** End of stored references list" *)

#[export] Instance heap_name_eq_dec : EqDecision heap_name.
Proof. solve_decision. Defined.

#[export] Instance dbg_line_eq_dec : EqDecision dbg_line.
Proof. solve_decision. Defined.

(** ** [gc_print_minor] (lines 303-312). *)
Fixpoint print_minor_loop (n : nat) (i : Z) : M (list dbg_line) :=
  match n with
  | O => fail OutOfFuel
  | S n' =>
      fc <- gets gc_free_chunk ;;
      if i <? fc then
        chunk <- gets (fun st => CHUNK_AT st i) ;;
        off <- gets (fun st => CHUNK_OFFSET st chunk) ;;
        s <- CHUNK_SIZE chunk ;;
        m <- MARKED chunk ;;
        rest <- print_minor_loop n' (i + 1) ;;
        ret (MinorChunkLine off s m :: rest)
      else ret []
  end.

Definition gc_print_minor (fuel : nat) : M (list dbg_line) :=
  fc <- gets gc_free_chunk ;;
  l <- print_minor_loop fuel 0 ;;
  ret (MinorListHead fc :: l ++ [MinorListEnd]).

(** ** [gc_print_refs] (lines 314-340).  The body reads the first word of
    the range, [*gc->gc_refs[counter][0]], not the slot [*ref]; the
    offset is the pointer difference cast to [unsigned int]. *)
Definition print_ref_slot (counter : Z) : M (list dbg_line) :=
  r <- refs_get counter ;;
  if negb (fst r =? 0) then
    w <- load_ptr (fst r) ;;
    pm <- gets (fun st => POINTS_MINOR st w) ;;
    if pm then
      heap <- gets minor_lo ;;
      w' <- load_ptr (fst r) ;; ret [RefLine (wrap32 (w' - heap)) HMinor]
    else
      w1 <- load_ptr (fst r) ;;
      pM <- gets (fun st => POINTS_MAJOR st w1) ;;
      if pM then
        heap <- gets major_lo ;;
        w' <- load_ptr (fst r) ;; ret [RefLine (wrap32 (w' - heap)) HMajor]
      else
        w' <- load_ptr (fst r) ;; ret [RefLine (wrap32 w') HUnknown]
  else ret [EmptySlotLine].

Fixpoint print_slots (n : nat) (counter ref : Z) : M (list dbg_line) :=
  match n with
  | O => fail OutOfFuel
  | S n' =>
      r <- refs_get counter ;;
      if ref <? snd r then
        out <- (if ref =? 0 then ret [] else print_ref_slot counter) ;;
        rest <- print_slots n' counter (ref + PTR_SIZE) ;;
        ret (out ++ rest)
      else ret []
  end.

Fixpoint print_roots (fuel n : nat) (counter : Z) : M (list dbg_line) :=
  match n with
  | O => fail OutOfFuel
  | S n' =>
      rc <- gets gc_ref_count ;;
      if counter <? rc then
        r <- refs_get counter ;;
        out <- print_slots fuel counter (fst r) ;;
        rest <- print_roots fuel n' (counter + 1) ;;
        ret (out ++ rest)
      else ret []
  end.

Definition gc_print_refs (fuel : nat) : M (list dbg_line) :=
  rc <- gets gc_ref_count ;;
  l <- print_roots fuel fuel 0 ;;
  ret (RefsListHead rc :: l ++ [RefsListEnd]).

(** The lines [gc_print_minor] should print for slots [i .. i + n - 1]. *)
Fixpoint minor_lines (st : collector) (n : nat) (i : Z) : list dbg_line :=
  match n with
  | O => []
  | S n' => MinorChunkLine i (size_bits (slot_hdr st i)) (slot_marked st i) :: minor_lines st n' (i + 1)
  end.

(** The listing [gc_print_minor] prints, as a function of the state. *)
Definition minor_report (st : collector) : list dbg_line :=
  MinorListHead (gc_free_chunk st) :: minor_lines st (Z.to_nat (gc_free_chunk st)) 0 ++ [MinorListEnd].

(** The one line [gc_print_refs] prints for every slot of entry [c]:
    it depends on the entry's first word only. *)
Definition ref_line (st : collector) (c : Z) : dbg_line :=
  let b := fst (gc_refs st c) in
  if b =? 0 then EmptySlotLine else
  let w := load_le 8 (gc_mem st) b in
  if POINTS_MINOR st w then RefLine (wrap32 (w - minor_lo st)) HMinor
  else if POINTS_MAJOR st w then RefLine (wrap32 (w - major_lo st)) HMajor
  else RefLine (wrap32 w) HUnknown.

(** The number of slots [ref = b, b + 8, ...] below [e] that are not 0,
    when [b] is 0 or positive. *)
Definition slot_count (b e : Z) : nat :=
  Nat.sub (Z.to_nat ((e - b + 7) / 8)) (if b =? 0 then 1%nat else 0%nat).

(** The listing [gc_print_refs] prints, as a function of the state. *)
Definition refs_report (st : collector) : list dbg_line :=
  RefsListHead (gc_ref_count st) ::
  flat_map (fun k => repeat (ref_line st (Z.of_nat k))
                            (slot_count (fst (gc_refs st (Z.of_nat k))) (snd (gc_refs st (Z.of_nat k)))))
           (seq 0 (Z.to_nat (gc_ref_count st)))
  ++ [RefsListEnd].

(** Registries [gc_print_refs] reads without a fault: every counted
    entry is emptied or begins at a mapped word. *)
Definition refs_printable (st : collector) : Prop :=
  (0 <= gc_ref_count st <= GC_MAX_REFS) /\
  forall c, 0 <= c < gc_ref_count st ->
    fst (gc_refs st c) = 0 \/ (NULL_PAGE <= fst (gc_refs st c) /\ fst (gc_refs st c) + PTR_SIZE <= USER_TOP).

(** A registry of one two-word range at [root_slot]: the first word
    points into the nursery, the second into the major arena. *)
Definition two_word_root_gc : collector :=
  let st := sample_gc in
  let m := store_le 8 (store_le 8 (gc_mem st) 8192 (gc_base st + 4)) 8200 (major_lo st + 4) in
  final_state (gc_add_ref 8192 8208) (set_mem st m).

(** ** The printers compute the listings. *)

Lemma print_minor_loop_Ok st n : placed st -> gc_free_chunk st <= GC_MINCHUNKS ->
  forall i, 0 <= i -> (Z.to_nat (gc_free_chunk st - i) < n)%nat ->
  print_minor_loop n i st = Ok (minor_lines st (Z.to_nat (gc_free_chunk st - i)) i, st).
Proof.
  intros Hpl Hfc. induction n as [|n IH]; intros i Hi Hn; [lia|]. cbn [print_minor_loop].
  rewrite bind_gets. destruct (Z.ltb_spec i (gc_free_chunk st)) as [Hlt|Hge].
  - assert (Hs : 0 <= i < GC_MINCHUNKS) by lia.
    rewrite !bind_gets, CHUNK_OFFSET_AT, bind_CHUNK_SIZE by (apply slot_mapped; auto; unfold GC_MINCHUNK_SIZE; lia).
    rewrite (bind_Ok _ _ _ _ _ (MARKED_slot st i Hpl Hs)), (bind_Ok _ _ _ _ _ (IH (i + 1) ltac:(lia) ltac:(lia))).
    replace (Z.to_nat (gc_free_chunk st - i)) with (S (Z.to_nat (gc_free_chunk st - (i + 1)))) by lia.
    reflexivity.
  - replace (Z.to_nat (gc_free_chunk st - i)) with O by lia. reflexivity.
Qed.

Lemma print_ref_slot_Ok st c : 0 <= c < GC_MAX_REFS ->
  fst (gc_refs st c) = 0 \/ (NULL_PAGE <= fst (gc_refs st c) /\ fst (gc_refs st c) + PTR_SIZE <= USER_TOP) ->
  print_ref_slot c st = Ok ([ref_line st c], st).
Proof.
  intros Hc Hb. unfold print_ref_slot, ref_line. rewrite (bind_Ok _ _ _ _ _ (refs_get_Ok st c Hc)).
  destruct (Z.eqb_spec (fst (gc_refs st c)) 0) as [E|E]; [reflexivity|].
  destruct Hb as [|Hb]; [contradiction|]. cbn [negb].
  assert (Hm : mapped (fst (gc_refs st c)) 8 = true) by (apply mapped_true; unfold PTR_SIZE in *; lia).
  rewrite bind_load_ptr, bind_gets by exact Hm.
  destruct (POINTS_MINOR st _); rewrite ?bind_gets, ?bind_load_ptr by exact Hm; [reflexivity|].
  rewrite bind_gets. destruct (POINTS_MAJOR st _); rewrite ?bind_gets, bind_load_ptr by exact Hm; reflexivity.
Qed.

Lemma slot_count_step b e : b < e -> 0 <= b ->
  slot_count b e = Nat.add (if b =? 0 then 0%nat else 1%nat) (slot_count (b + PTR_SIZE) e).
Proof.
  intros Hlt Hb. unfold slot_count, PTR_SIZE.
  rewrite (proj2 (Z.eqb_neq (b + 8) 0)) by lia.
  replace (e - b + 7) with (e - (b + 8) + 7 + 1 * 8) by lia. rewrite Z.div_add by lia.
  assert (0 <= (e - (b + 8) + 7) / 8) by (apply Z.div_pos; lia).
  destruct (Z.eqb_spec b 0); lia.
Qed.

Lemma slot_count_end b e : e <= b -> slot_count b e = O.
Proof.
  intros H. unfold slot_count.
  assert ((e - b + 7) / 8 <= 0) by (apply Z.lt_succ_r, Z.div_lt_upper_bound; lia). lia.
Qed.

Section PrintRefs.
Context (st : collector) (c : Z).
Hypothesis Hc : 0 <= c < GC_MAX_REFS.
Hypothesis Hb : fst (gc_refs st c) = 0 \/
  (NULL_PAGE <= fst (gc_refs st c) /\ fst (gc_refs st c) + PTR_SIZE <= USER_TOP).

Lemma print_slots_Ok n : forall ref, 0 <= ref ->
  (Z.to_nat ((snd (gc_refs st c) - ref + 7) / 8) < n)%nat ->
  print_slots n c ref st = Ok (repeat (ref_line st c) (slot_count ref (snd (gc_refs st c))), st).
Proof.
  induction n as [|n IH]; intros ref Href Hn; [lia|]. cbn [print_slots].
  rewrite (bind_Ok _ _ _ _ _ (refs_get_Ok st c Hc)).
  destruct (Z.ltb_spec ref (snd (gc_refs st c))) as [Hlt|Hge]; [|rewrite slot_count_end by lia; reflexivity].
  assert (Hq : (snd (gc_refs st c) - (ref + 8) + 7) / 8 = (snd (gc_refs st c) - ref + 7) / 8 - 1).
  { replace (snd (gc_refs st c) - ref + 7) with (snd (gc_refs st c) - (ref + 8) + 7 + 1 * 8) by lia.
    rewrite Z.div_add by lia. lia. }
  assert (1 <= (snd (gc_refs st c) - ref + 7) / 8) by (apply Z.div_le_lower_bound; lia).
  rewrite slot_count_step by lia.
  destruct (Z.eqb_spec ref 0) as [->|Hne].
  - rewrite bind_ret_l, (bind_Ok _ _ _ _ _ (IH (0 + PTR_SIZE) ltac:(unfold PTR_SIZE; lia)
                                               ltac:(unfold PTR_SIZE; lia))).
    reflexivity.
  - rewrite (bind_Ok _ _ _ _ _ (print_ref_slot_Ok st c Hc Hb)),
            (bind_Ok _ _ _ _ _ (IH (ref + PTR_SIZE) ltac:(unfold PTR_SIZE; lia) ltac:(unfold PTR_SIZE; lia))).
    reflexivity.
Qed.

End PrintRefs.

Lemma print_roots_Ok st fuel n : refs_printable st -> roots_fuel st fuel ->
  forall counter, 0 <= counter -> (Z.to_nat (gc_ref_count st - counter) < n)%nat ->
  print_roots fuel n counter st =
  Ok (flat_map (fun k => repeat (ref_line st (Z.of_nat k))
                                (slot_count (fst (gc_refs st (Z.of_nat k))) (snd (gc_refs st (Z.of_nat k)))))
               (seq (Z.to_nat counter) (Z.to_nat (gc_ref_count st - counter))), st).
Proof.
  intros [Hrc Hent] [_ Hf]. induction n as [|n IH]; intros counter H0 Hn; [lia|]. cbn [print_roots].
  rewrite bind_gets. destruct (Z.ltb_spec counter (gc_ref_count st)) as [Hlt|Hge].
  2:{ replace (Z.to_nat (gc_ref_count st - counter)) with O by lia. reflexivity. }
  assert (Hc : 0 <= counter < GC_MAX_REFS) by lia.
  rewrite (bind_Ok _ _ _ _ _ (refs_get_Ok st counter Hc)).
  assert (Hb : 0 <= fst (gc_refs st counter)) by (destruct (Hent counter ltac:(lia)); unfold NULL_PAGE in *; lia).
  rewrite (bind_Ok _ _ _ _ _ (print_slots_Ok st counter Hc (Hent counter ltac:(lia)) fuel _ Hb
                                (Hf counter ltac:(lia)))).
  rewrite (bind_Ok _ _ _ _ _ (IH (counter + 1) ltac:(lia) ltac:(lia))).
  replace (Z.to_nat (gc_ref_count st - counter)) with (S (Z.to_nat (gc_ref_count st - (counter + 1)))) by lia.
  replace (Z.to_nat (counter + 1)) with (S (Z.to_nat counter)) by lia.
  cbn [seq flat_map]. rewrite Z2Nat.id by lia. reflexivity.
Qed.

(** C36. [gc_print_minor] prints the listing [minor_report]: a head line
    with [gc_free_chunk], one line per allocated slot [i] with its
    offset [i], its size and its mark, and an end line; it changes
    nothing. *)
Theorem gc_print_minor_report st fuel :
  placed st -> 0 <= gc_free_chunk st <= GC_MINCHUNKS -> (Z.to_nat (gc_free_chunk st) < fuel)%nat ->
  gc_print_minor fuel st = Ok (minor_report st, st).
Proof.
  intros Hpl Hfc Hf. unfold gc_print_minor. rewrite bind_gets.
  rewrite (bind_Ok _ _ _ _ _ (print_minor_loop_Ok st fuel Hpl ltac:(lia) 0 ltac:(lia) ltac:(rewrite Z.sub_0_r; exact Hf))).
  rewrite Z.sub_0_r. reflexivity.
Qed.

(** C35. [gc_print_refs] prints the listing [refs_report]: for every
    counted entry, one line per slot it visits, and every one of those
    lines is [ref_line st c], computed from the entry's first word
    [*gc_refs[counter][0]] and not from the slot [*ref]; it changes
    nothing. *)
Theorem gc_print_refs_report st fuel :
  refs_printable st -> roots_fuel st fuel -> gc_print_refs fuel st = Ok (refs_report st, st).
Proof.
  intros Hp Hf. unfold gc_print_refs. rewrite bind_gets.
  pose proof (proj1 Hp) as Hrc.
  rewrite (bind_Ok _ _ _ _ _ (print_roots_Ok st fuel fuel Hp Hf 0 ltac:(lia)
                                ltac:(rewrite Z.sub_0_r; exact (proj1 Hf)))).
  rewrite Z.sub_0_r. reflexivity.
Qed.


(** ** Witnesses. *)

Lemma gc_print_minor_report_witness :
  gc_print_minor 3 (two_objs two_chunks) = Ok (minor_report (two_objs two_chunks), two_objs two_chunks).
Proof.
  apply gc_print_minor_report;
    [unfold placed, major_hi, GC_MINHEAP_SIZE, GC_MAJHEAP_SIZE, NULL_PAGE, USER_TOP; vm_compute; split; discriminate
    |change (gc_free_chunk (two_objs two_chunks)) with 2; rewrite GC_MINCHUNKS_eq; lia
    |vm_compute; lia].
Defined.

Lemma gc_print_refs_report_witness :
  gc_print_refs 10 two_word_root_gc = Ok (refs_report two_word_root_gc, two_word_root_gc).
Proof.
  apply gc_print_refs_report.
  - split; [vm_compute; split; discriminate|].
    intros c Hc. change (gc_ref_count two_word_root_gc) with 1 in Hc.
    assert (c = 0) as -> by lia. right. vm_compute. split; discriminate.
  - split; [vm_compute; lia|].
    intros k Hk. change (gc_ref_count two_word_root_gc) with 1 in Hk.
    assert (k = 0) as -> by lia. vm_compute. lia.
Defined.
