(* ===== verification/Scenarios.v ===== *)
(** * The scenarios of the specification, run on the model

    The round-trip scenario: a collector as the specification's
    [create_collector] describes it (zero-initialised), one 16-byte
    nursery object holding the words 7 and 9, one root to it; a minor
    collection; then the root range removed and a major collection.
    The cycle scenario: two old-generation chunks pointing to each
    other, one of them rooted, and a major collection. *)

From stdpp Require Import base decidable numbers.
From Stdlib Require Import ZArith Lia Bool List.
From S2P Require Import Prelude Memory Layout Roots MajorAlloc Arena Major Minor MinorReach MinorCopy.

Import ListNotations.
Open Scope Z_scope.
Open Scope gc_monad_scope.

(** ** The round trip. *)

(** A zero-initialised collector with one 16-byte object in slot 0
    whose payload words are 7 and 9 (odd: scalars, not pointers), and
    the root word at [root_slot] holding its address: [one_obj_gc]. *)
Definition rt_gc : collector := one_obj_gc.

(** After the minor collection, the root range removed. *)
Definition rt_removed_gc : collector :=
  final_state (gc_remove_ref root_slot (root_slot + PTR_SIZE)) (final_state (gc_minor 10) rt_gc).

(** ** The cycle. *)

(** The arena [cycle_gc] of two white chunks of 20 bytes whose first
    fields hold the address of each other's payload, with a root to the
    first. *)
Definition cycle2_gc : collector := client_root root_slot (major_lo cycle_gc + 4) cycle_gc.

(** The state after [darken_roots]: the rooted chunk grayed. *)
Definition cycle2_darkened : collector :=
  let lo := major_lo cycle2_gc in
  set_mem cycle2_gc (store_le 4 (gc_mem cycle2_gc) lo
                       (Z.lor (size_bits (load_le 4 (gc_mem cycle2_gc) lo)) (color_val GC_GRAY))).

(** The chunks of [cycle2_darkened]. *)
Definition cycle2_darkened_chunks : list (Z * gc_color) :=
  [(20, GC_GRAY); (20, GC_WHITE); (GC_MAJHEAP_SIZE - 40, GC_FREE)].

(** ** Facts of the concrete states. *)

Lemma cycle2_placed : placed cycle2_gc.
Proof. unfold placed, major_hi, GC_MINHEAP_SIZE, GC_MAJHEAP_SIZE, NULL_PAGE, USER_TOP. vm_compute. split; discriminate. Qed.

Lemma cycle2_repr : heap_repr (gc_mem cycle2_gc) (major_lo cycle2_gc) (major_hi cycle2_gc) cycle_chunks.
Proof. vm_compute. repeat split; try reflexivity; discriminate. Qed.

Lemma cycle2_darkened_repr :
  heap_repr (gc_mem cycle2_darkened) (major_lo cycle2_darkened) (major_hi cycle2_darkened)
    cycle2_darkened_chunks.
Proof. vm_compute. repeat split; try reflexivity; discriminate. Qed.

Lemma cycle2_darkened_placed : placed cycle2_darkened.
Proof. unfold placed, major_hi, GC_MINHEAP_SIZE, GC_MAJHEAP_SIZE, NULL_PAGE, USER_TOP. vm_compute. split; discriminate. Qed.

(** [darken_slot] on the root does the same for every fuel above the
    number of chunks. *)
Lemma cycle2_darken_slot fuel : (4 <= fuel)%nat ->
  darken_slot fuel root_slot cycle2_gc = Ok (tt, cycle2_darkened).
Proof.
  intros Hf. unfold darken_slot, darken_chunk.
  rewrite bind_load_ptr by reflexivity.
  rewrite (bind_Ok _ _ _ _ _ (find_major_chunk_Ok cycle2_gc _ cycle2_placed cycle_chunks fuel cycle2_repr ltac:(cbn; lia))).
  change (match _ with Some b => b | None => 0 end) with (major_lo cycle2_gc).
  rewrite (proj2 (Z.eqb_neq _ 0)) by discriminate.
  rewrite bind_CHUNK_FLAGS by reflexivity.
  change (flag_bits (load_le 4 (gc_mem cycle2_gc) (major_lo cycle2_gc))) with 1.
  apply MARK_CHUNK_Ok. reflexivity.
Qed.

Lemma cycle2_darken_roots fuel : (4 <= fuel)%nat ->
  darken_roots fuel cycle2_gc = Ok (tt, cycle2_darkened).
Proof.
  intros Hf. unfold darken_roots.
  apply (for_root_slots_single_Ok _ _ _ root_slot); [reflexivity|reflexivity|discriminate|lia| |reflexivity|reflexivity].
  apply cycle2_darken_slot. exact Hf.
Qed.

(** ** The scenarios' outcomes. *)

(** C11. The specification's cycle scenario: two old-generation chunks
    pointing to each other, one of them rooted. [gc_major] grays the
    rooted chunk and [darken_major] marks it; marking flips the two
    chunks between white and gray forever, so the collection does not
    terminate, for any fuel. *)
Theorem spec_cycle_gc_major_diverges fuel : gc_major fuel cycle2_gc = Fail OutOfFuel.
Proof.
  destruct (le_lt_dec 4 fuel) as [Hf|Hf].
  2:{ destruct fuel as [|[|[|[|f]]]]; [..|lia]; vm_compute; reflexivity. }
  unfold gc_major. rewrite (bind_Ok _ _ _ _ _ (cycle2_darken_roots fuel Hf)).
  apply bind_Fail. unfold darken_major. rewrite bind_gets.
  destruct fuel as [|n]; [lia|]. cbn [for_chunks]. rewrite bind_gets.
  replace (negb (major_lo cycle2_darkened =? 0) && (major_lo cycle2_darkened <? major_hi cycle2_darkened))
    with true by reflexivity.
  apply bind_Fail. unfold darken_major_body. rewrite bind_CHUNK_FLAGS by reflexivity.
  change (flag_bits (load_le 4 (gc_mem cycle2_darkened) (major_lo cycle2_darkened))) with 3.
  cbn [Z.eqb color_val Pos.eqb]. change (major_lo cycle2_darkened) with (major_lo cycle2_darkened + span []).
  assert (Hl : major_lo cycle2_darkened = 131072) by reflexivity.
  apply (mark_cycle_loop (S n) cycle2_darkened cycle2_darkened_chunks
           [] 20 GC_GRAY [(20, GC_WHITE); (GC_MAJHEAP_SIZE - 40, GC_FREE)]
           [(20, GC_GRAY)] 20 GC_WHITE [(GC_MAJHEAP_SIZE - 40, GC_FREE)]
           (major_lo cycle2_darkened + 24) (major_lo cycle2_darkened + 4));
    try (right; reflexivity); try (left; reflexivity); try reflexivity;
    try exact cycle2_darkened_repr; try exact cycle2_darkened_placed;
    try (rewrite Hl; simpl span; lia); try (vm_compute; reflexivity); lia.
Qed.


(** C12. The second half does not: [copy_minor_heap] asks
    [gc_major_alloc] for [WITH_HEADER(CHUNK_SIZE(chunk))] = 24 bytes,
    which reserves 28, but the [memcpy] copies the nursery header, which
    says 20. Once the root range is removed, [darken_major] steps from
    the promoted chunk to the word 20 bytes on, inside the reserved
    block and never written, whose size is 0, and stands on it forever:
    [gc_major] never reaches the sweep, for any fuel. *)
Theorem spec_round_trip_major_diverges fuel : gc_major fuel rt_removed_gc = Fail OutOfFuel.
Proof.
  set (st := rt_removed_gc).
  assert (Hrc : gc_ref_count st <= 0) by (vm_compute; discriminate).
  assert (Hlo : major_lo st = 131072) by (vm_compute; reflexivity).
  assert (Hhi : major_hi st = 33685504) by (vm_compute; reflexivity).
  assert (H0 : load_le 4 (gc_mem st) 131072 = 21) by (vm_compute; reflexivity).
  assert (H1 : load_le 4 (gc_mem st) 131092 = 0) by (vm_compute; reflexivity).
  destruct fuel as [|f]; [reflexivity|].
  unfold gc_major, darken_roots.
  rewrite (bind_Ok _ _ _ _ _ (for_root_slots_none _ (S f) st Hrc ltac:(lia))).
  apply bind_Fail. unfold darken_major. rewrite bind_gets, Hlo. cbn [for_chunks].
  rewrite bind_gets, Hhi. cbn [negb andb Z.eqb Z.ltb Z.compare Pos.compare Pos.compare_cont].
  assert (Hb : forall a, mapped a 4 = true -> flag_bits (load_le 4 (gc_mem st) a) <> color_val GC_GRAY ->
                 darken_major_body (S f) a st = Ok (tt, st)).
  { intros a Hm Hg. unfold darken_major_body. rewrite bind_CHUNK_FLAGS by exact Hm.
    rewrite (proj2 (Z.eqb_neq _ _) Hg). reflexivity. }
  rewrite (bind_Ok _ _ _ _ _ (Hb 131072 eq_refl ltac:(rewrite H0; discriminate))).
  rewrite bind_CHUNK_SIZE, H0 by reflexivity. change (131072 + size_bits 21) with 131092.
  apply for_chunks_stuck; [reflexivity|rewrite Hhi; reflexivity| |rewrite H1; reflexivity].
  apply Hb; [reflexivity|rewrite H1; discriminate].
Qed.
